(** * The incremental scene-graph backend (kimera_dsg_builder) and the
      batch building finder (kimera_batch_dsg), as a shallow embedding.

    The embedding follows [incremental_dsg_backend.cpp] and
    [building_finder.cpp] function by function.  Code that lives outside
    these files (the deformation solver of kimera_pgmo, the scene-graph
    container of kimera_dsg, Eigen, gtsam, pcl, the room finder, the
    spanning-tree helper, the layer update functions) enters in two ways:
    - what the backend hands to the solver is recorded, call by call, in
      the order the calls are made ([PgmoCall]); the solver's state is
      whatever that history makes of it;
    - what the backend reads back from a collaborator is a method of one
      of the interfaces [Geometry], [Pgmo] and [DsgCollaborators].
    Timers, logging macros and ROS publishers are left out: a timer
    records a duration, which reaches the status log only. *)

From Stdlib Require Import ZArith List Bool Lia.
From Stdlib Require Ascii String.
From stdpp Require Import base option list sorting gmap sets fin_maps.

Local Open Scope Z_scope.

(** ** Machine integers *)

(** [size_t] on the 64-bit targets the backend is built for. *)
Definition size_t_modulus : Z := 2 ^ 64.

Definition to_size_t (z : Z) : Z := z mod size_t_modulus.

(** [a + b] on [size_t]. *)
Definition size_t_add (a b : Z) : Z := to_size_t (a + b).

(** [a - b] on [size_t]. *)
Definition size_t_sub (a b : Z) : Z := to_size_t (a - b).

(** [v.size()] of a container; what a container holds always fits
    [size_t]. *)
Definition size_of {A} (l : list A) : Z := Z.of_nat (length l).

(** [std::uint32_t], the type of [cloud.width] and [cloud.height]. *)
Definition uint32_modulus : Z := 2 ^ 32.

Definition uint32_mul (a b : Z) : Z := (a * b) mod uint32_modulus.

Arguments to_size_t : simpl never.
Arguments size_t_add : simpl never.
Arguments size_t_sub : simpl never.
Arguments uint32_mul : simpl never.

(** ** Node identifiers *)

(** [NodeId] is a 64-bit unsigned integer. *)
Abbreviation NodeId := N.

(** Modelled from the spec: [NodeSymbol(key, index)] of kimera_dsg, a
    category character in the top byte and an index below it. *)
Definition NodeSymbol (key : N) (index : N) : NodeId :=
  N.lor (N.shiftl key 56) index.

(** The character ['B']. *)
Definition char_B : N := 66.

(** ** Layers *)

(** [KimeraDsgLayers]: the layers the two files name. *)
Inductive LayerId : Type :=
  | OBJECTS
  | PLACES
  | ROOMS
  | BUILDINGS.

#[global] Instance LayerId_eq_dec : EqDecision LayerId.
Proof. solve_decision. Defined.

(** Modelled from the spec: the layer directly above a layer, where the
    parent of a node lives. *)
Definition layer_above (l : LayerId) : option LayerId :=
  match l with
  | OBJECTS => Some PLACES
  | PLACES => Some ROOMS
  | ROOMS => Some BUILDINGS
  | BUILDINGS => None
  end.

(** ** Interfaces of the collaborators *)

(** Eigen, gtsam and ROS geometry: values the backend moves around and
    combines through these operations only.  Nothing is assumed about
    them; in particular no law of real arithmetic is used. *)
Class Geometry : Type := {
  (** [Eigen::Vector3d] *)
  Vector3d : Type;
  (** [Eigen::Vector3d::Zero()] *)
  Vector3d_Zero : Vector3d;
  (** [a += b] *)
  Vector3d_add : Vector3d → Vector3d → Vector3d;
  (** [a /= n] for a node count [n] *)
  Vector3d_div : Vector3d → Z → Vector3d;
  (** [gtsam::Pose3] *)
  Pose3 : Type;
  (** [gtsam::Pose3(gtsam::Rot3(), position)] *)
  Pose3_at : Vector3d → Pose3;
  (** [a.between(b)] *)
  Pose3_between : Pose3 → Pose3 → Pose3;
  (** [pcl::CentroidPoint<pcl::PointXYZ>]: the point [get] yields once
      the given positions were [add]ed, in that order, each narrowed to
      single precision on the way in and widened on the way out *)
  Centroid_get : list Vector3d → Vector3d;
  (** [geometry_msgs::Pose], the pose of a pose-graph edge *)
  RosPose : Type;
  (** [kimera_pgmo::RosToGtsam] *)
  RosToGtsam : RosPose → Pose3;
  (** [double], for the two merge thresholds *)
  double : Type;
}.

(** ** Messages *)

(** [std_msgs::Header]; [stamp] is kept in nanoseconds, the value of
    [stamp.toNSec()]. *)
Record Header : Type := {
  seq : Z;
  stamp : Z;
  frame_id : list N;
}.

Inductive PoseGraphEdgeType : Type :=
  | ODOM
  | LOOPCLOSE
  | OTHER_EDGE (code : Z).

Section Model.
Context `{Geometry}.

(** [pose_graph_tools::PoseGraphNode] *)
Record PoseGraphNode : Type := {
  pgn_key : Z;
  pgn_pose : RosPose;
}.

(** [pose_graph_tools::PoseGraphEdge] *)
Record PoseGraphEdge : Type := {
  key_from : N;
  key_to : N;
  type : PoseGraphEdgeType;
  pose : RosPose;
}.

(** [pose_graph_tools::PoseGraph] *)
#[projections(primitive)]
Record PoseGraph : Type := {
  header : Header;
  nodes : list PoseGraphNode;
  edges : list PoseGraphEdge;
}.

(** [mergePoseGraphs(new_graph, graph_to_fill)]: the filled graph. *)
Definition mergePoseGraphs (new_graph graph_to_fill : PoseGraph) : PoseGraph :=
  {| header := header new_graph;
     nodes := nodes graph_to_fill ++ nodes new_graph;
     edges := edges graph_to_fill ++ edges new_graph |}.

(** The body shared by the two graph callbacks: a null accumulator is
    set to a copy of the message, another one is merged into. *)
Definition accumulate (msg : PoseGraph) (pending : option PoseGraph)
  : option PoseGraph :=
  match pending with
  | None => Some msg
  | Some acc => Some (mergePoseGraphs msg acc)
  end.

(** ** The deformation solver, seen from the backend *)

(** [kimera_pgmo::KimeraPgmoMesh] and [pcl::PolygonMesh] are opaque to
    the backend but for the size of the converted cloud. *)
Class PgmoTypes : Type := {
  (** [kimera_pgmo::KimeraPgmoMesh] *)
  KimeraPgmoMesh : Type;
  (** [pcl::PolygonMesh] *)
  PolygonMesh : Type;
  (** [mesh.cloud.height] and [mesh.cloud.width] *)
  cloud_height : PolygonMesh → Z;
  cloud_width : PolygonMesh → Z;
  (** [kimera_pgmo::PgmoMeshMsgToPolygonMesh(msg, &stamps)] *)
  PgmoMeshMsgToPolygonMesh : KimeraPgmoMesh → PolygonMesh * list Z;
  (** [gtsam::Values] *)
  Values : Type;
  (** [gtsam::Values()], the default argument of [callUpdateFunctions] *)
  Values_empty : Values;
}.

Context `{PgmoTypes}.

(** Every call the backend makes on the solver ([deformation_graph_]),
    or on the [KimeraPgmoInterface] base that feeds it. *)
Inductive PgmoCall : Type :=
  | processIncrementalMeshGraph (msg : PoseGraph)
  | processIncrementalPoseGraph (msg : PoseGraph)
  | addNewBetween (from_key to_key : NodeId) (meas : Pose3)
  | clearTemporaryStructures
  | addNewTempNode (id : NodeId) (pose : Pose3) (flag : bool)
  | addTempNodeValence (id : NodeId) (connections : list N) (prefix : N)
  | addNewTempBetween (source target : NodeId) (meas : Pose3)
  | optimize_call
  | deformMesh_call (mesh : PolygonMesh) (stamps : list Z) (prefix : N)
      (num_interp_pts : Z) (interp_horizon : double).

(** What the backend reads back.  The solver and the base class are
    driven by the backend alone, so each reading is a function of the
    calls made so far. *)
Class Pgmo : Type := {
  (** the mesh [deformation_graph_->deformMesh(...)] returns *)
  deformMesh : list PgmoCall → PolygonMesh → list Z → N → Z → double → PolygonMesh;
  (** [deformation_graph_->getGtsamValues()] *)
  getGtsamValues : list PgmoCall → Values;
  (** [deformation_graph_->getGtsamTempValues()] *)
  getGtsamTempValues : list PgmoCall → Values;
  (** [deformation_graph_->getGtsamFactors().size()] *)
  getGtsamFactors_size : list PgmoCall → Z;
  (** [deformation_graph_->getGtsamValues().size()] *)
  getGtsamValues_size : list PgmoCall → Z;
  (** [trajectory_.size()] *)
  trajectory_size : list PgmoCall → Z;
  (** [num_loop_closures_] is a member of the base class: its value
      after the base has processed a mesh-graph message, from the
      message and the value before *)
  mesh_graph_num_loop_closures : PoseGraph → Z → Z;
  (** the same for a pose-graph message *)
  pose_graph_num_loop_closures : PoseGraph → Z → Z;
}.

Context `{Pgmo}.

(** ** The scene graph *)

(** [NodeColor]: three 8-bit channels. *)
Record NodeColor : Type := {
  red : Z;
  green : Z;
  blue : Z;
}.

(** How a node's [name] was made. *)
Inductive NodeName : Type :=
  | no_name
  (** [NodeSymbol::getLabel()] *)
  | getLabel (id : NodeId)
  (** [std::to_string(id)] *)
  | to_string (id : NodeId).

(** The attribute classes, flattened: [NodeAttributes] has the
    position, [SemanticNodeAttributes] adds name, colour and label,
    [PlaceNodeAttributes] the mesh connections (empty elsewhere). *)
#[projections(primitive)]
Record NodeAttributes : Type := {
  position : Vector3d;
  color : NodeColor;
  semantic_label : Z;
  name : NodeName;
  pcl_mesh_connections : list N;
}.

(** [AgentNodeAttributes], the field the backend reads. *)
Record AgentNodeAttributes : Type := {
  external_key : NodeId;
}.

(** Modelled from the spec: a node of the scene graph, with at most
    one parent and any number of children. *)
#[projections(primitive)]
Record SceneGraphNode : Type := {
  layer : LayerId;
  attributes : NodeAttributes;
  parent_ : option NodeId;
  children_ : gset N;
}.

(** Modelled from the spec: the scene-graph container of kimera_dsg.
    Nodes are keyed by identifiers unique across the graph; a layer is
    the set of nodes that carry its tag, and exists when the graph was
    built with it.  Edges inside a layer are not part of the model:
    neither file reads them from a graph. *)
#[projections(primitive)]
Record DynamicSceneGraph : Type := {
  layer_ids : list LayerId;
  graph_nodes : gmap N SceneGraphNode;
  dynamic_nodes : gmap N AgentNodeAttributes;
  graph_mesh : option PolygonMesh;
}.

Definition hasLayer (l : LayerId) (g : DynamicSceneGraph) : bool :=
  bool_decide (l ∈ layer_ids g).

(** [getLayer(l)]: the nodes of the layer, by identifier, when the
    layer exists. *)
Definition getLayer (l : LayerId) (g : DynamicSceneGraph)
  : option (gmap N SceneGraphNode) :=
  if hasLayer l g
  then Some (filter (λ kv, layer kv.2 = l) (graph_nodes g))
  else None.

Definition hasNode (id : NodeId) (g : DynamicSceneGraph) : bool :=
  bool_decide (is_Some (graph_nodes g !! id)).

Definition getNode (id : NodeId) (g : DynamicSceneGraph) : option SceneGraphNode :=
  graph_nodes g !! id.

Definition getDynamicNode (id : NodeId) (g : DynamicSceneGraph)
  : option AgentNodeAttributes :=
  dynamic_nodes g !! id.

(** [layer.nodes()] as a loop sees it: the container is a [std::map], so
    the nodes come in ascending order of identifier. *)
Definition nodes_in_order (m : gmap N SceneGraphNode) : list (NodeId * SceneGraphNode) :=
  omap (λ id, (id,.) <$> m !! id) (merge_sort N.le (elements (dom m))).

Definition set_graph_nodes (m : gmap N SceneGraphNode) (g : DynamicSceneGraph)
  : DynamicSceneGraph :=
  {| layer_ids := layer_ids g;
     graph_nodes := m;
     dynamic_nodes := dynamic_nodes g;
     graph_mesh := graph_mesh g |}.

Definition setMeshDirectly (mesh : PolygonMesh) (g : DynamicSceneGraph)
  : DynamicSceneGraph :=
  {| layer_ids := layer_ids g;
     graph_nodes := graph_nodes g;
     dynamic_nodes := dynamic_nodes g;
     graph_mesh := Some mesh |}.

(** [emplaceNode(l, id, attrs)]: a new node without parent or
    children; skipped when the layer is missing or the identifier is
    taken. *)
Definition emplaceNode (l : LayerId) (id : NodeId) (attrs : NodeAttributes)
    (g : DynamicSceneGraph) : DynamicSceneGraph :=
  if hasLayer l g && negb (hasNode id g)
  then set_graph_nodes
         (<[id := {| layer := l; attributes := attrs;
                     parent_ := None; children_ := ∅ |}]> (graph_nodes g)) g
  else g.

(** A node once [id] is gone from the graph. *)
Definition forget_node (id : NodeId) (n : SceneGraphNode) : SceneGraphNode :=
  {| layer := layer n;
     attributes := attributes n;
     parent_ := if bool_decide (parent_ n = Some id) then None else parent_ n;
     children_ := children_ n ∖ {[id]} |}.

(** [removeNode(id)]: the node goes, with the edges to its parent and
    to its children. *)
Definition removeNode (id : NodeId) (g : DynamicSceneGraph) : DynamicSceneGraph :=
  set_graph_nodes (forget_node id <$> delete id (graph_nodes g)) g.

Definition set_parent (p : NodeId) (n : SceneGraphNode) : SceneGraphNode :=
  {| layer := layer n; attributes := attributes n;
     parent_ := Some p; children_ := children_ n |}.

Definition add_child (c : NodeId) (n : SceneGraphNode) : SceneGraphNode :=
  {| layer := layer n; attributes := attributes n;
     parent_ := parent_ n; children_ := children_ n ∪ {[c]} |}.

Definition set_position (v : Vector3d) (n : SceneGraphNode) : SceneGraphNode :=
  {| layer := layer n;
     attributes :=
       {| position := v;
          color := color (attributes n);
          semantic_label := semantic_label (attributes n);
          name := name (attributes n);
          pcl_mesh_connections := pcl_mesh_connections (attributes n) |};
     parent_ := parent_ n; children_ := children_ n |}.

(** [insertEdge(source, target)] from a node to a node of the layer
    directly below it: the target becomes a child of the source,
    unless it has a parent already (the source itself included), in
    which case nothing changes.  Any other pair of nodes, or a missing
    node, leaves the hierarchy as it is. *)
Definition insertEdge (source target : NodeId) (g : DynamicSceneGraph)
  : DynamicSceneGraph :=
  match graph_nodes g !! source, graph_nodes g !! target with
  | Some s, Some t =>
      if bool_decide (layer_above (layer t) = Some (layer s))
      then match parent_ t with
           | Some _ => g
           | None =>
               set_graph_nodes
                 (<[target := set_parent source t]>
                    (<[source := add_child target s]> (graph_nodes g))) g
           end
      else g
  | _, _ => g
  end.

(** The loop that ends [updateBuildingNode] and [findBuildings]: an edge
    from the building node to every room, in the order of the layer. *)
Definition insert_room_edges (building : NodeId)
    (rooms : list (NodeId * SceneGraphNode)) (g : DynamicSceneGraph)
  : DynamicSceneGraph :=
  foldl (λ g (id_node_pair : N * SceneGraphNode),
           insertEdge building id_node_pair.1 g) g rooms.

(** ** A layer on its own *)

(** Modelled from the spec: [SceneGraphLayer] as the backend keeps it in
    [shared_places_copy_], the nodes by identifier and the edges between
    them. *)
#[projections(primitive)]
Record SceneGraphLayer : Type := {
  layer_nodes : gmap N SceneGraphNode;
  layer_edges : list (NodeId * NodeId);
}.

(** [layer.getPosition(id)]; there is no position for a missing node
    (the call throws). *)
Definition getPosition (id : NodeId) (l : SceneGraphLayer) : option Vector3d :=
  n ← layer_nodes l !! id; Some (position (attributes n)).

(** [layer.removeNode(id)]: the node and the edges that touch it. *)
Definition layer_removeNode (l : SceneGraphLayer) (id : NodeId) : SceneGraphLayer :=
  {| layer_nodes := delete id (layer_nodes l);
     layer_edges :=
       filter (λ e, e.1 ≠ id ∧ e.2 ≠ id) (layer_edges l) |}.

(** [MinimumSpanningTreeInfo]: the leaves and the edges of the tree. *)
Record Edge : Type := {
  source : NodeId;
  target : NodeId;
}.

Record MinimumSpanningTreeInfo : Type := {
  leaves : gset N;
  mst_edges : list Edge;
}.

(** ** Shared state *)

(** One candidate of the loop-closure queue. *)
Record LoopClosureResult : Type := {
  from_node : NodeId;
  to_node : NodeId;
  to_T_from : Pose3;
}.

(** [SharedDsgInfo]: a graph, its flag, the places activated since the
    last merge, and the loop-closure queue (front first). *)
#[projections(primitive)]
Record SharedDsgInfo : Type := {
  graph : DynamicSceneGraph;
  updated : bool;
  latest_places : gset N;
  loop_closures : list LoopClosureResult;
}.

Definition set_graph (g : DynamicSceneGraph) (d : SharedDsgInfo) : SharedDsgInfo :=
  {| graph := g; updated := updated d;
     latest_places := latest_places d; loop_closures := loop_closures d |}.

Definition set_updated (b : bool) (d : SharedDsgInfo) : SharedDsgInfo :=
  {| graph := graph d; updated := b;
     latest_places := latest_places d; loop_closures := loop_closures d |}.

Definition set_latest_places (p : gset N) (d : SharedDsgInfo) : SharedDsgInfo :=
  {| graph := graph d; updated := updated d;
     latest_places := p; loop_closures := loop_closures d |}.

Definition set_loop_closures (q : list LoopClosureResult) (d : SharedDsgInfo)
  : SharedDsgInfo :=
  {| graph := graph d; updated := updated d;
     latest_places := latest_places d; loop_closures := q |}.

(** ** The other collaborators *)

(** The graph code of this repository and of kimera_dsg that the backend
    calls and that is not part of the two files. *)
Class DsgCollaborators : Type := {
  (** [kBuildingSemanticLabel] *)
  kBuildingSemanticLabel : Z;
  (** [private_graph->mergeGraph(shared_graph)]: the private graph after *)
  mergeGraph : DynamicSceneGraph → DynamicSceneGraph → DynamicSceneGraph;
  (** [shared_places_copy_.mergeLayer(places)], [places] being the
      places layer of the given graph *)
  mergeLayer : SceneGraphLayer → DynamicSceneGraph → SceneGraphLayer;
  (** [places.getRemovedNodes(&removed)] for the same layer *)
  getRemovedNodes : DynamicSceneGraph → list NodeId;
  (** the layer update functions of [dsg_updates] *)
  updateAgents : DynamicSceneGraph → Values → Values → bool → DynamicSceneGraph;
  updateObjects : DynamicSceneGraph → Values → Values → bool → DynamicSceneGraph;
  updatePlaces :
    DynamicSceneGraph → Values → Values → bool → double → double → DynamicSceneGraph;
  updateRooms : DynamicSceneGraph → Values → Values → bool → DynamicSceneGraph;
  updateBuildings : DynamicSceneGraph → Values → Values → bool → DynamicSceneGraph;
  (** [room_finder_->findRooms(dsg, active_nodes)]: the private state
      after *)
  findRooms : SharedDsgInfo → gset N → SharedDsgInfo;
  (** [getMinimumSpanningEdges(layer)] *)
  getMinimumSpanningEdges : SceneGraphLayer → MinimumSpanningTreeInfo;
}.

Context `{DsgCollaborators}.

(** ** The backend *)

(** What the constructor fixes. *)
#[projections(primitive)]
Record Config : Type := {
  robot_prefix_ : N;
  robot_vertex_prefix_ : N;
  num_interp_pts_ : Z;
  interp_horizon_ : double;
  add_places_to_deformation_graph_ : bool;
  optimize_on_lc_ : bool;
  enable_node_merging_ : bool;
  call_update_periodically_ : bool;
  places_merge_pos_threshold_m_ : double;
  places_merge_distance_tolerance_m_ : double;
  pgmo_log_ : bool;
  building_color_ : NodeColor;
  (** whether [room_finder_] was set ([enable_rooms]) *)
  room_finder_ : bool;
}.

(** [DsgBackendStatus]; [reset()] zeroes it. *)
#[projections(primitive)]
Record DsgBackendStatus : Type := {
  total_loop_closures_ : Z;
  new_loop_closures_ : Z;
  total_factors_ : Z;
  total_values_ : Z;
  new_factors_ : Z;
  new_graph_factors_ : Z;
  trajectory_len_ : Z;
}.

Definition status_reset : DsgBackendStatus :=
  {| total_loop_closures_ := 0; new_loop_closures_ := 0; total_factors_ := 0;
     total_values_ := 0; new_factors_ := 0; new_graph_factors_ := 0;
     trajectory_len_ := 0 |}.

(** An entry of [loop_closures_]. *)
Record LoopClosureLog : Type := {
  lc_from : NodeId;
  lc_to : NodeId;
  lc_to_T_from : Pose3;
  lc_dsg : bool;
}.

#[projections(primitive)]
Record DsgBackend : Type := {
  config : Config;
  (** the solver, as the calls made on it, oldest first *)
  deformation_graph_ : list PgmoCall;
  num_loop_closures_ : Z;
  deformation_graph_updates_ : option PoseGraph;
  pose_graph_updates_ : option PoseGraph;
  latest_mesh_ : option KimeraPgmoMesh;
  have_new_mesh_ : bool;
  last_timestamp_ : Z;
  have_loopclosures_ : bool;
  loop_closures_ : list LoopClosureLog;
  status_ : DsgBackendStatus;
  (** the rows [logStatus] appended to the status file *)
  status_file_ : list DsgBackendStatus;
  shared_dsg_ : SharedDsgInfo;
  private_dsg_ : SharedDsgInfo;
  shared_places_copy_ : SceneGraphLayer;
  unlabeled_place_nodes_ : gset N;
}.

Definition with_deformation_graph_ (v : list PgmoCall) (s : DsgBackend) :=
  Build_DsgBackend (config s) v (num_loop_closures_ s)
    (deformation_graph_updates_ s) (pose_graph_updates_ s) (latest_mesh_ s)
    (have_new_mesh_ s) (last_timestamp_ s) (have_loopclosures_ s)
    (loop_closures_ s) (status_ s) (status_file_ s) (shared_dsg_ s)
    (private_dsg_ s) (shared_places_copy_ s) (unlabeled_place_nodes_ s).

Definition with_num_loop_closures_ (v : Z) (s : DsgBackend) :=
  Build_DsgBackend (config s) (deformation_graph_ s) v
    (deformation_graph_updates_ s) (pose_graph_updates_ s) (latest_mesh_ s)
    (have_new_mesh_ s) (last_timestamp_ s) (have_loopclosures_ s)
    (loop_closures_ s) (status_ s) (status_file_ s) (shared_dsg_ s)
    (private_dsg_ s) (shared_places_copy_ s) (unlabeled_place_nodes_ s).

Definition with_deformation_graph_updates_ (v : option PoseGraph) (s : DsgBackend) :=
  Build_DsgBackend (config s) (deformation_graph_ s) (num_loop_closures_ s)
    v (pose_graph_updates_ s) (latest_mesh_ s)
    (have_new_mesh_ s) (last_timestamp_ s) (have_loopclosures_ s)
    (loop_closures_ s) (status_ s) (status_file_ s) (shared_dsg_ s)
    (private_dsg_ s) (shared_places_copy_ s) (unlabeled_place_nodes_ s).

Definition with_pose_graph_updates_ (v : option PoseGraph) (s : DsgBackend) :=
  Build_DsgBackend (config s) (deformation_graph_ s) (num_loop_closures_ s)
    (deformation_graph_updates_ s) v (latest_mesh_ s)
    (have_new_mesh_ s) (last_timestamp_ s) (have_loopclosures_ s)
    (loop_closures_ s) (status_ s) (status_file_ s) (shared_dsg_ s)
    (private_dsg_ s) (shared_places_copy_ s) (unlabeled_place_nodes_ s).

Definition with_latest_mesh_ (v : option KimeraPgmoMesh) (s : DsgBackend) :=
  Build_DsgBackend (config s) (deformation_graph_ s) (num_loop_closures_ s)
    (deformation_graph_updates_ s) (pose_graph_updates_ s) v
    (have_new_mesh_ s) (last_timestamp_ s) (have_loopclosures_ s)
    (loop_closures_ s) (status_ s) (status_file_ s) (shared_dsg_ s)
    (private_dsg_ s) (shared_places_copy_ s) (unlabeled_place_nodes_ s).

Definition with_have_new_mesh_ (v : bool) (s : DsgBackend) :=
  Build_DsgBackend (config s) (deformation_graph_ s) (num_loop_closures_ s)
    (deformation_graph_updates_ s) (pose_graph_updates_ s) (latest_mesh_ s)
    v (last_timestamp_ s) (have_loopclosures_ s)
    (loop_closures_ s) (status_ s) (status_file_ s) (shared_dsg_ s)
    (private_dsg_ s) (shared_places_copy_ s) (unlabeled_place_nodes_ s).

Definition with_last_timestamp_ (v : Z) (s : DsgBackend) :=
  Build_DsgBackend (config s) (deformation_graph_ s) (num_loop_closures_ s)
    (deformation_graph_updates_ s) (pose_graph_updates_ s) (latest_mesh_ s)
    (have_new_mesh_ s) v (have_loopclosures_ s)
    (loop_closures_ s) (status_ s) (status_file_ s) (shared_dsg_ s)
    (private_dsg_ s) (shared_places_copy_ s) (unlabeled_place_nodes_ s).

Definition with_have_loopclosures_ (v : bool) (s : DsgBackend) :=
  Build_DsgBackend (config s) (deformation_graph_ s) (num_loop_closures_ s)
    (deformation_graph_updates_ s) (pose_graph_updates_ s) (latest_mesh_ s)
    (have_new_mesh_ s) (last_timestamp_ s) v
    (loop_closures_ s) (status_ s) (status_file_ s) (shared_dsg_ s)
    (private_dsg_ s) (shared_places_copy_ s) (unlabeled_place_nodes_ s).

Definition with_loop_closures_ (v : list LoopClosureLog) (s : DsgBackend) :=
  Build_DsgBackend (config s) (deformation_graph_ s) (num_loop_closures_ s)
    (deformation_graph_updates_ s) (pose_graph_updates_ s) (latest_mesh_ s)
    (have_new_mesh_ s) (last_timestamp_ s) (have_loopclosures_ s)
    v (status_ s) (status_file_ s) (shared_dsg_ s)
    (private_dsg_ s) (shared_places_copy_ s) (unlabeled_place_nodes_ s).

Definition with_status_ (v : DsgBackendStatus) (s : DsgBackend) :=
  Build_DsgBackend (config s) (deformation_graph_ s) (num_loop_closures_ s)
    (deformation_graph_updates_ s) (pose_graph_updates_ s) (latest_mesh_ s)
    (have_new_mesh_ s) (last_timestamp_ s) (have_loopclosures_ s)
    (loop_closures_ s) v (status_file_ s) (shared_dsg_ s)
    (private_dsg_ s) (shared_places_copy_ s) (unlabeled_place_nodes_ s).

Definition with_status_file_ (v : list DsgBackendStatus) (s : DsgBackend) :=
  Build_DsgBackend (config s) (deformation_graph_ s) (num_loop_closures_ s)
    (deformation_graph_updates_ s) (pose_graph_updates_ s) (latest_mesh_ s)
    (have_new_mesh_ s) (last_timestamp_ s) (have_loopclosures_ s)
    (loop_closures_ s) (status_ s) v (shared_dsg_ s)
    (private_dsg_ s) (shared_places_copy_ s) (unlabeled_place_nodes_ s).

Definition with_shared_dsg_ (v : SharedDsgInfo) (s : DsgBackend) :=
  Build_DsgBackend (config s) (deformation_graph_ s) (num_loop_closures_ s)
    (deformation_graph_updates_ s) (pose_graph_updates_ s) (latest_mesh_ s)
    (have_new_mesh_ s) (last_timestamp_ s) (have_loopclosures_ s)
    (loop_closures_ s) (status_ s) (status_file_ s) v
    (private_dsg_ s) (shared_places_copy_ s) (unlabeled_place_nodes_ s).

Definition with_private_dsg_ (v : SharedDsgInfo) (s : DsgBackend) :=
  Build_DsgBackend (config s) (deformation_graph_ s) (num_loop_closures_ s)
    (deformation_graph_updates_ s) (pose_graph_updates_ s) (latest_mesh_ s)
    (have_new_mesh_ s) (last_timestamp_ s) (have_loopclosures_ s)
    (loop_closures_ s) (status_ s) (status_file_ s) (shared_dsg_ s)
    v (shared_places_copy_ s) (unlabeled_place_nodes_ s).

Definition with_shared_places_copy_ (v : SceneGraphLayer) (s : DsgBackend) :=
  Build_DsgBackend (config s) (deformation_graph_ s) (num_loop_closures_ s)
    (deformation_graph_updates_ s) (pose_graph_updates_ s) (latest_mesh_ s)
    (have_new_mesh_ s) (last_timestamp_ s) (have_loopclosures_ s)
    (loop_closures_ s) (status_ s) (status_file_ s) (shared_dsg_ s)
    (private_dsg_ s) v (unlabeled_place_nodes_ s).

Definition with_unlabeled_place_nodes_ (v : gset N) (s : DsgBackend) :=
  Build_DsgBackend (config s) (deformation_graph_ s) (num_loop_closures_ s)
    (deformation_graph_updates_ s) (pose_graph_updates_ s) (latest_mesh_ s)
    (have_new_mesh_ s) (last_timestamp_ s) (have_loopclosures_ s)
    (loop_closures_ s) (status_ s) (status_file_ s) (shared_dsg_ s)
    (private_dsg_ s) (shared_places_copy_ s) v.

(** One more call on the solver. *)
Definition call (c : PgmoCall) (s : DsgBackend) : DsgBackend :=
  with_deformation_graph_ (deformation_graph_ s ++ [c]) s.

(** ** Ingestion callbacks *)

(** [fullMeshCallback] *)
Definition fullMeshCallback (msg : KimeraPgmoMesh) (s : DsgBackend) : DsgBackend :=
  with_have_new_mesh_ true (with_latest_mesh_ (Some msg) s).

(** [deformationGraphCallback] *)
Definition deformationGraphCallback (msg : PoseGraph) (s : DsgBackend) : DsgBackend :=
  with_last_timestamp_ (stamp (header msg))
    (with_deformation_graph_updates_
       (accumulate msg (deformation_graph_updates_ s)) s).

(** [poseGraphCallback] *)
Definition poseGraphCallback (msg : PoseGraph) (s : DsgBackend) : DsgBackend :=
  with_pose_graph_updates_ (accumulate msg (pose_graph_updates_ s)) s.

(** ** Draining *)

(** [logIncrementalLoopClosures]: the loop-closure edges of a message,
    in order, as entries that did not come from the scene graph. *)
Definition logIncrementalLoopClosures (msg : PoseGraph) (s : DsgBackend) : DsgBackend :=
  with_loop_closures_
    (loop_closures_ s ++
     flat_map
       (λ edge,
          match type edge with
          | LOOPCLOSE =>
              [ {| lc_from := NodeSymbol (robot_prefix_ (config s)) (key_from edge);
                   lc_to := NodeSymbol (robot_prefix_ (config s)) (key_to edge);
                   lc_to_T_from := RosToGtsam (pose edge);
                   lc_dsg := false |} ]
          | _ => []
          end)
       (edges msg))
    s.

Definition add_new_factors (n : Z) (st : DsgBackendStatus) : DsgBackendStatus :=
  {| total_loop_closures_ := total_loop_closures_ st;
     new_loop_closures_ := new_loop_closures_ st;
     total_factors_ := total_factors_ st;
     total_values_ := total_values_ st;
     new_factors_ := size_t_add (new_factors_ st) n;
     new_graph_factors_ := new_graph_factors_ st;
     trajectory_len_ := trajectory_len_ st |}.

Definition set_new_graph_factors (n : Z) (st : DsgBackendStatus) : DsgBackendStatus :=
  {| total_loop_closures_ := total_loop_closures_ st;
     new_loop_closures_ := new_loop_closures_ st;
     total_factors_ := total_factors_ st;
     total_values_ := total_values_ st;
     new_factors_ := new_factors_ st;
     new_graph_factors_ := n;
     trajectory_len_ := trajectory_len_ st |}.

Definition set_loop_closure_counts (total new : Z) (st : DsgBackendStatus)
  : DsgBackendStatus :=
  {| total_loop_closures_ := total;
     new_loop_closures_ := new;
     total_factors_ := total_factors_ st;
     total_values_ := total_values_ st;
     new_factors_ := new_factors_ st;
     new_graph_factors_ := new_graph_factors_ st;
     trajectory_len_ := trajectory_len_ st |}.

Definition set_totals (len factors values : Z) (st : DsgBackendStatus)
  : DsgBackendStatus :=
  {| total_loop_closures_ := total_loop_closures_ st;
     new_loop_closures_ := new_loop_closures_ st;
     total_factors_ := factors;
     total_values_ := values;
     new_factors_ := new_factors_ st;
     new_graph_factors_ := new_graph_factors_ st;
     trajectory_len_ := len |}.

(** The block of [runPgmo] under [if (deformation_graph_updates_)]. *)
Definition drain_deformation_graph_updates (updates : PoseGraph) (s : DsgBackend)
  : DsgBackend :=
  let s := with_status_
             (add_new_factors (size_of (edges updates))
                (set_new_graph_factors (size_of (edges updates)) (status_ s))) s in
  let s := with_num_loop_closures_
             (mesh_graph_num_loop_closures updates (num_loop_closures_ s))
             (call (processIncrementalMeshGraph updates) s) in
  with_deformation_graph_updates_ None s.

(** The block of [runPgmo] under [if (pose_graph_updates_)]. *)
Definition drain_pose_graph_updates (updates : PoseGraph) (s : DsgBackend)
  : DsgBackend :=
  let s := with_status_ (add_new_factors (size_of (edges updates)) (status_ s)) s in
  let s := with_num_loop_closures_
             (pose_graph_num_loop_closures updates (num_loop_closures_ s))
             (call (processIncrementalPoseGraph updates) s) in
  let s := logIncrementalLoopClosures updates s in
  with_pose_graph_updates_ None s.

(** One turn of the loop of [addInternalLCDToDeformationGraph], the
    candidate at the front already popped.  A candidate whose node is
    not a dynamic node of the shared graph makes [value()] throw. *)
Definition add_loop_closure (result : LoopClosureResult) (s : DsgBackend)
  : option DsgBackend :=
  from_attrs ← getDynamicNode (from_node result) (graph (shared_dsg_ s));
  to_attrs ← getDynamicNode (to_node result) (graph (shared_dsg_ s));
  let s := call (addNewBetween (external_key from_attrs) (external_key to_attrs)
                   (to_T_from result)) s in
  let s := with_loop_closures_
             (loop_closures_ s ++
              [ {| lc_from := from_node result; lc_to := to_node result;
                   lc_to_T_from := to_T_from result; lc_dsg := true |} ]) s in
  let s := with_num_loop_closures_ (size_t_add (num_loop_closures_ s) 1) s in
  Some (with_have_loopclosures_ true s).

(** The loop itself, over the queue as it stands at its head. *)
Fixpoint drain_loop_closures (queue : list LoopClosureResult)
    (added_new_loop_closure : bool) (s : DsgBackend) : option (DsgBackend * bool) :=
  match queue with
  | [] => Some (s, added_new_loop_closure)
  | result :: rest =>
      s ← add_loop_closure result
            (with_shared_dsg_ (set_loop_closures rest (shared_dsg_ s)) s);
      drain_loop_closures rest true s
  end.

(** [addInternalLCDToDeformationGraph]: the state after, and the value
    returned. *)
Definition addInternalLCDToDeformationGraph (s : DsgBackend)
  : option (DsgBackend * bool) :=
  drain_loop_closures (loop_closures (shared_dsg_ s)) false s.

(** ** Places as control points *)

(** The calls of the first loop of [addPlacesToDeformationGraph] for one
    place node. *)
Definition place_node_calls (prefix : N) (mst_info : MinimumSpanningTreeInfo)
    (id_node_pair : NodeId * SceneGraphNode) : list PgmoCall :=
  let attrs := attributes id_node_pair.2 in
  addNewTempNode id_node_pair.1 (Pose3_at (position attrs)) false ::
  (if bool_decide (id_node_pair.1 ∈ leaves mst_info)
   then match pcl_mesh_connections attrs with
        | [] => []
        | connections => [addTempNodeValence id_node_pair.1 connections prefix]
        end
   else []).

(** The call of the second loop for one edge of the tree. *)
Definition mst_edge_call (places : SceneGraphLayer) (edge : Edge) : option PgmoCall :=
  source_position ← getPosition (source edge) places;
  target_position ← getPosition (target edge) places;
  Some (addNewTempBetween (source edge) (target edge)
          (Pose3_between (Pose3_at source_position) (Pose3_at target_position))).

(** [addPlacesToDeformationGraph] *)
Definition addPlacesToDeformationGraph (s : DsgBackend) : option DsgBackend :=
  let places := shared_places_copy_ s in
  if bool_decide (layer_nodes places = ∅) then Some s
  else
    let mst_info := getMinimumSpanningEdges places in
    edge_calls ← mapM (mst_edge_call places) (mst_edges mst_info);
    Some (with_deformation_graph_
            (deformation_graph_ s ++
             clearTemporaryStructures ::
             flat_map (place_node_calls (robot_vertex_prefix_ (config s)) mst_info)
               (nodes_in_order (layer_nodes places)) ++
             edge_calls) s).

(** ** Mesh update *)

(** [updateDsgMesh] *)
Definition updateDsgMesh (s : DsgBackend) : DsgBackend :=
  match latest_mesh_ s with
  | None => s
  | Some latest_mesh =>
      if negb (have_new_mesh_ s) then s
      else
        let '(input_mesh, mesh_vertex_stamps) := PgmoMeshMsgToPolygonMesh latest_mesh in
        let s := with_have_new_mesh_ false s in
        if uint32_mul (cloud_height input_mesh) (cloud_width input_mesh) =? 0 then s
        else
          let opt_mesh :=
            deformMesh (deformation_graph_ s) input_mesh mesh_vertex_stamps
              (robot_vertex_prefix_ (config s)) (num_interp_pts_ (config s))
              (interp_horizon_ (config s)) in
          let s := call (deformMesh_call input_mesh mesh_vertex_stamps
                           (robot_vertex_prefix_ (config s))
                           (num_interp_pts_ (config s))
                           (interp_horizon_ (config s))) s in
          with_private_dsg_
            (set_updated true
               (set_graph (setMeshDirectly opt_mesh (graph (private_dsg_ s)))
                  (private_dsg_ s))) s
  end.

(** ** Layer updates *)

(** [dsg_update_funcs_], as the constructor fills it. *)
Definition dsg_update_funcs_ (c : Config)
  : list (DynamicSceneGraph → Values → Values → bool → DynamicSceneGraph) :=
  [ updateAgents;
    updateObjects;
    (λ g place_values pgmo_values allow_merging,
       updatePlaces g place_values pgmo_values allow_merging
         (places_merge_pos_threshold_m_ c) (places_merge_distance_tolerance_m_ c));
    updateRooms;
    updateBuildings ].

(** [callUpdateFunctions] *)
Definition callUpdateFunctions (places_values pgmo_values : Values) (s : DsgBackend)
  : DsgBackend :=
  with_private_dsg_
    (set_graph
       (foldl (λ g update_func,
                 update_func g places_values pgmo_values
                   (enable_node_merging_ (config s)))
          (graph (private_dsg_ s)) (dsg_update_funcs_ (config s)))
       (private_dsg_ s)) s.

(** [optimize] *)
Definition optimize (s : DsgBackend) : option DsgBackend :=
  s ← (if add_places_to_deformation_graph_ (config s)
       then addPlacesToDeformationGraph s else Some s);
  let s := call optimize_call s in
  let s := updateDsgMesh s in
  let pgmo_values := getGtsamValues (deformation_graph_ s) in
  let places_values := getGtsamTempValues (deformation_graph_ s) in
  Some (callUpdateFunctions places_values pgmo_values s).

(** ** Merging the front end's graph *)

(** [updatePrivateDsg] *)
Definition updatePrivateDsg (s : DsgBackend) : DsgBackend :=
  if updated (shared_dsg_ s) then
    let shared := shared_dsg_ s in
    let s := with_private_dsg_
               (set_latest_places (latest_places shared)
                  (set_graph (mergeGraph (graph (private_dsg_ s)) (graph shared))
                     (private_dsg_ s))) s in
    let s := if hasLayer PLACES (graph shared)
             then with_shared_places_copy_
                    (foldl layer_removeNode
                       (mergeLayer (shared_places_copy_ s) (graph shared))
                       (getRemovedNodes (graph shared))) s
             else s in
    with_shared_dsg_ (set_updated false shared) s
  else s.

(** ** Rooms *)

(** [getNodesForRoomDetection] *)
Definition getNodesForRoomDetection (latest : gset N) (s : DsgBackend)
  : option (gset N) :=
  rooms ← getLayer ROOMS (graph (private_dsg_ s));
  let active_places :=
    latest ∪ ⋃ ((λ id_node_pair : N * SceneGraphNode, children_ id_node_pair.2)
                  <$> nodes_in_order rooms) in
  places ← getLayer PLACES (graph (private_dsg_ s));
  Some (active_places ∪
        filter (λ node_id, is_Some (places !! node_id)) (unlabeled_place_nodes_ s)).

(** The test of the loop of [storeUnlabeledPlaces]: the node is in the
    places layer and has no parent. *)
Definition still_unlabeled (places : gmap N SceneGraphNode) (node_id : NodeId) : bool :=
  match places !! node_id with
  | None => false
  | Some node => bool_decide (parent_ node = None)
  end.

(** [storeUnlabeledPlaces] *)
Definition storeUnlabeledPlaces (active_nodes : gset N) (s : DsgBackend)
  : option DsgBackend :=
  places ← getLayer PLACES (graph (private_dsg_ s));
  Some (with_unlabeled_place_nodes_
          (filter (λ node_id, still_unlabeled places node_id = true) active_nodes) s).

(** [updateRoomsNodes] *)
Definition updateRoomsNodes (s : DsgBackend) : option DsgBackend :=
  if room_finder_ (config s) then
    active_place_nodes ← getNodesForRoomDetection (latest_places (private_dsg_ s)) s;
    storeUnlabeledPlaces active_place_nodes
      (with_private_dsg_ (findRooms (private_dsg_ s) active_place_nodes) s)
  else Some s.

(** ** Buildings *)

(** [NodeSymbol('B', 0)] *)
Definition building_node_id : NodeId := NodeSymbol char_B 0.

(** The sum and the division of [updateBuildingNode]. *)
Definition rooms_centroid (rooms_layer : gmap N SceneGraphNode) : Vector3d :=
  Vector3d_div
    (foldl (λ centroid (id_node_pair : N * SceneGraphNode),
              Vector3d_add centroid (position (attributes id_node_pair.2)))
       Vector3d_Zero (nodes_in_order rooms_layer))
    (size_of (nodes_in_order rooms_layer)).

(** [updateBuildingNode], on the private graph. *)
Definition updateBuildingNode_graph (building_color : NodeColor)
    (g : DynamicSceneGraph) : option DynamicSceneGraph :=
  rooms_layer ← getLayer ROOMS g;
  if size_of (nodes_in_order rooms_layer) =? 0 then
    Some (if hasNode building_node_id g then removeNode building_node_id g else g)
  else
    let centroid := rooms_centroid rooms_layer in
    let g :=
      if negb (hasNode building_node_id g) then
        emplaceNode BUILDINGS building_node_id
          {| position := centroid;
             color := building_color;
             semantic_label := kBuildingSemanticLabel;
             name := getLabel building_node_id;
             pcl_mesh_connections := [] |} g
      else
        set_graph_nodes
          (alter (set_position centroid) building_node_id (graph_nodes g)) g in
    Some (insert_room_edges building_node_id (nodes_in_order rooms_layer) g).

Definition updateBuildingNode (s : DsgBackend) : option DsgBackend :=
  g ← updateBuildingNode_graph (building_color_ (config s)) (graph (private_dsg_ s));
  Some (with_private_dsg_ (set_graph g (private_dsg_ s)) s).

(** ** The loop *)

(** [logStatus()] with [init] false: one more row. *)
Definition logStatus (s : DsgBackend) : DsgBackend :=
  with_status_file_ (status_file_ s ++ [status_ s]) s.

(** The two drain blocks at the head of the pgmo critical section of
    [runPgmo].  [have_graph_updates] is declared without an initialiser
    and assigned in these blocks only; [indeterminate] stands for what
    the variable holds when neither block runs. *)
Definition drain_updates (indeterminate : bool) (s : DsgBackend) : DsgBackend * bool :=
  let have_graph_updates := indeterminate in
  let '(s, have_graph_updates) :=
    match deformation_graph_updates_ s with
    | Some updates => (drain_deformation_graph_updates updates s, true)
    | None => (s, have_graph_updates)
    end in
  match pose_graph_updates_ s with
  | Some updates => (drain_pose_graph_updates updates s, true)
  | None => (s, have_graph_updates)
  end.

(** The pgmo critical section: the drain blocks, then the loop-closure
    queue, whose return value is dropped. *)
Definition pgmo_critical_section (indeterminate : bool) (s : DsgBackend)
  : option (DsgBackend * bool) :=
  let '(s, have_graph_updates) := drain_updates indeterminate s in
  '(s, _) ← addInternalLCDToDeformationGraph s;
  Some (s, have_graph_updates).

(** The three status assignments after the critical section. *)
Definition update_status (prev_loop_closures : Z) (s : DsgBackend) : DsgBackend :=
  let s :=
    if 0 <? num_loop_closures_ s then
      with_have_loopclosures_ true
        (with_status_
           (set_loop_closure_counts (num_loop_closures_ s)
              (size_t_sub (num_loop_closures_ s) prev_loop_closures) (status_ s)) s)
    else s in
  with_status_
    (set_totals (trajectory_size (deformation_graph_ s))
       (getGtsamFactors_size (deformation_graph_ s))
       (getGtsamValues_size (deformation_graph_ s)) (status_ s)) s.

(** The private-dsg critical section of [runPgmo]. *)
Definition private_dsg_critical_section (have_graph_updates : bool) (s : DsgBackend)
  : option DsgBackend :=
  let s := updatePrivateDsg s in
  s ← (if have_graph_updates && optimize_on_lc_ (config s) && have_loopclosures_ s
       then optimize s
       else if call_update_periodically_ (config s)
            then Some (callUpdateFunctions Values_empty Values_empty (updateDsgMesh s))
            else Some s);
  Some (with_private_dsg_ (set_updated true (private_dsg_ s)) s).

(** One turn of the loop of [runPgmo]. *)
Definition runPgmo (indeterminate : bool) (s : DsgBackend) : option DsgBackend :=
  let s := with_status_ status_reset s in
  let prev_loop_closures := num_loop_closures_ s in
  '(s, have_graph_updates) ← pgmo_critical_section indeterminate s;
  let s := update_status prev_loop_closures s in
  s ← private_dsg_critical_section have_graph_updates s;
  let s := if have_graph_updates && pgmo_log_ (config s) then logStatus s else s in
  s ← updateRoomsNodes s;
  updateBuildingNode s.

(** ** The batch building finder *)

(** [NodeSymbol('B', 1u)] *)
Definition building_id : NodeId := NodeSymbol char_B 1.

(** [findBuildings]; a graph without rooms layer fails the [CHECK]. *)
Definition findBuildings (color : NodeColor) (scene_graph : DynamicSceneGraph)
  : option DynamicSceneGraph :=
  if negb (hasLayer ROOMS scene_graph) then None
  else
    room_layer ← getLayer ROOMS scene_graph;
    let building_attrs :=
      {| position :=
           Centroid_get
             ((λ id_node_pair : N * SceneGraphNode, position (attributes id_node_pair.2))
                <$> nodes_in_order room_layer);
         color := color;
         semantic_label := kBuildingSemanticLabel;
         name := to_string building_id;
         pcl_mesh_connections := [] |} in
    let g := emplaceNode BUILDINGS building_id building_attrs scene_graph in
    Some (insert_room_edges building_id (nodes_in_order room_layer) g).

(** ** Runs *)

(** What happens to the backend, one lock region at a time: a callback
    of the message transport, a write of the front end to the shared
    state it owns (graph edits, newly active places, loop-closure
    candidates), or one turn of the backend loop. *)
Inductive Event : Type :=
  | full_mesh (msg : KimeraPgmoMesh)
  | mesh_graph_incremental (msg : PoseGraph)
  | pose_graph_incremental (msg : PoseGraph)
  | frontend (write : SharedDsgInfo → SharedDsgInfo)
  | backend_turn (indeterminate : bool).

(** The front end queues a loop-closure candidate. *)
Definition push_loop_closure (c : LoopClosureResult) (d : SharedDsgInfo) : SharedDsgInfo :=
  set_loop_closures (loop_closures d ++ [c]) d.

Definition step (e : Event) (s : DsgBackend) : option DsgBackend :=
  match e with
  | full_mesh msg => Some (fullMeshCallback msg s)
  | mesh_graph_incremental msg => Some (deformationGraphCallback msg s)
  | pose_graph_incremental msg => Some (poseGraphCallback msg s)
  | frontend write => Some (with_shared_dsg_ (write (shared_dsg_ s)) s)
  | backend_turn indeterminate => runPgmo indeterminate s
  end.

(** The candidates an event takes off the loop-closure queue: a turn of
    the loop takes all that are queued when it starts. *)
Definition drained_by (e : Event) (s : DsgBackend) : list LoopClosureResult :=
  match e with
  | backend_turn _ => loop_closures (shared_dsg_ s)
  | _ => []
  end.

(** A run: the state it ends in and every candidate drained on the way,
    in order. *)
Fixpoint run (events : list Event) (s : DsgBackend)
  : option (DsgBackend * list LoopClosureResult) :=
  match events with
  | [] => Some (s, [])
  | e :: events =>
      s' ← step e s;
      '(s'', drained) ← run events s';
      Some (s'', drained_by e s ++ drained)
  end.

(** ** Readings of a call history *)

(** The measurements of the between-factors added, oldest first. *)
Definition between_factors (calls : list PgmoCall) : list Pose3 :=
  flat_map (λ c, match c with addNewBetween _ _ meas => [meas] | _ => [] end) calls.

(** The calls made since the history was [before]. *)
Definition calls_since (before : list PgmoCall) (s : DsgBackend) : list PgmoCall :=
  drop (length before) (deformation_graph_ s).

Definition is_optimize (c : PgmoCall) : bool :=
  match c with optimize_call => true | _ => false end.

Definition is_deformMesh (c : PgmoCall) : bool :=
  match c with deformMesh_call _ _ _ _ _ => true | _ => false end.

(** A call that adds factors to the solver. *)
Definition adds_factors (c : PgmoCall) : bool :=
  match c with
  | processIncrementalMeshGraph msg | processIncrementalPoseGraph msg =>
      negb (bool_decide (edges msg = []))
  | addNewBetween _ _ _ => true
  | _ => false
  end.

(** ** The loop-closure queue, in closed form *)

(** The call one candidate leads to, its nodes looked up in a graph. *)
Definition loop_closure_call (g : DynamicSceneGraph) (result : LoopClosureResult)
  : option PgmoCall :=
  from_attrs ← getDynamicNode (from_node result) g;
  to_attrs ← getDynamicNode (to_node result) g;
  Some (addNewBetween (external_key from_attrs) (external_key to_attrs)
          (to_T_from result)).

Definition loop_closure_log (result : LoopClosureResult) : LoopClosureLog :=
  {| lc_from := from_node result; lc_to := to_node result;
     lc_to_T_from := to_T_from result; lc_dsg := true |}.

(** The backend once the candidates of [queue] went to the solver as the
    calls [new]. *)
Definition after_loop_closures (queue : list LoopClosureResult) (new : list PgmoCall)
    (s : DsgBackend) : DsgBackend :=
  match queue with
  | [] => s
  | _ =>
      with_have_loopclosures_ true
        (with_num_loop_closures_
           (to_size_t (num_loop_closures_ s + Z.of_nat (length queue)))
           (with_loop_closures_ (loop_closures_ s ++ (loop_closure_log <$> queue))
              (with_deformation_graph_ (deformation_graph_ s ++ new)
                 (with_shared_dsg_ (set_loop_closures [] (shared_dsg_ s)) s))))
  end.

(** What no step but the loop over the queue changes: the settings, the
    loop-closure counter and flag, the queue, and the between-factors
    the solver was given. *)
Definition keeps_loop_closures (s s' : DsgBackend) : Prop :=
  config s' = config s
  ∧ num_loop_closures_ s' = num_loop_closures_ s
  ∧ have_loopclosures_ s' = have_loopclosures_ s
  ∧ loop_closures (shared_dsg_ s') = loop_closures (shared_dsg_ s)
  ∧ graph (shared_dsg_ s') = graph (shared_dsg_ s)
  ∧ between_factors (deformation_graph_ s') = between_factors (deformation_graph_ s).

(** Whether a turn of the loop ran the full optimisation, and whether it
    added factors to the solver. *)
Definition optimize_ran (s s' : DsgBackend) : bool :=
  existsb is_optimize (calls_since (deformation_graph_ s) s').

Definition factors_added (s s' : DsgBackend) : bool :=
  existsb adds_factors (calls_since (deformation_graph_ s) s').

(** The test that guards [optimize()] in [runPgmo], on the state at the
    head of the turn: [have_graph_updates] is true after a drain block
    and [indeterminate] otherwise; [have_loopclosures_] is set by a
    queued candidate or a positive counter. *)
Definition optimize_guard (indeterminate : bool) (s : DsgBackend) : bool :=
  (drain_updates indeterminate (with_status_ status_reset s)).2
  && optimize_on_lc_ (config s)
  && (have_loopclosures_ s
      || negb (bool_decide (loop_closures (shared_dsg_ s) = []))
      || (0 <? num_loop_closures_
                 (drain_updates indeterminate (with_status_ status_reset s)).1)).

(** The base class leaves [num_loop_closures_] as it finds it when it
    processes a message. *)
Definition base_keeps_num_loop_closures : Prop :=
  (∀ msg n, mesh_graph_num_loop_closures msg n = n)
  ∧ (∀ msg n, pose_graph_num_loop_closures msg n = n).

Definition deformMesh_ran (s s' : DsgBackend) : bool :=
  existsb is_deformMesh (calls_since (deformation_graph_ s) s').

(** Some counter of the backend moved between two states. *)
Definition counted (s s' : DsgBackend) : Prop :=
  status_ s' ≠ status_ s
  ∨ status_file_ s' ≠ status_file_ s
  ∨ num_loop_closures_ s' ≠ num_loop_closures_ s.

(** The latest mesh of the backend converts to a cloud without points. *)
Definition latest_mesh_is_empty (s : DsgBackend) : Prop :=
  ∃ latest_mesh,
    latest_mesh_ s = Some latest_mesh
    ∧ cloud_height (PgmoMeshMsgToPolygonMesh latest_mesh).1
      * cloud_width (PgmoMeshMsgToPolygonMesh latest_mesh).1 = 0.

(** ** Readings of the temporary structures *)

Definition temp_nodes (calls : list PgmoCall) : list (NodeId * Pose3) :=
  flat_map (λ c, match c with addNewTempNode id pose _ => [(id, pose)] | _ => [] end)
    calls.

Definition temp_valences (calls : list PgmoCall) : list (NodeId * list N) :=
  flat_map
    (λ c, match c with
          | addTempNodeValence id connections _ => [(id, connections)]
          | _ => []
          end) calls.

Definition temp_betweens (calls : list PgmoCall) : list (NodeId * NodeId * Pose3) :=
  flat_map
    (λ c, match c with
          | addNewTempBetween source target meas => [(source, target, meas)]
          | _ => []
          end) calls.

Definition is_clear (c : PgmoCall) : bool :=
  match c with clearTemporaryStructures => true | _ => false end.

(** A place node that gets a valence constraint: a leaf of the tree
    with mesh connections. *)
Definition is_connected_leaf (mst_info : MinimumSpanningTreeInfo)
    (id_node_pair : NodeId * SceneGraphNode) : bool :=
  bool_decide (id_node_pair.1 ∈ leaves mst_info)
  && negb (bool_decide (pcl_mesh_connections (attributes id_node_pair.2) = [])).

(** ** The hierarchy under a building node *)

(** What the data model asks of a graph around the building node [b]:
    there is a buildings layer, the identifier [b] is not used outside
    it, and a room has no parent or is a child of [b] (a parent lives in
    the next layer up, which holds the one building node, and parents
    and children agree). *)
Definition building_hierarchy (b : NodeId) (g : DynamicSceneGraph) : Prop :=
  hasLayer BUILDINGS g = true
  ∧ (∀ bn, graph_nodes g !! b = Some bn → layer bn = BUILDINGS)
  ∧ (∀ r rn, graph_nodes g !! r = Some rn → layer rn = ROOMS →
       parent_ rn = None
       ∨ (parent_ rn = Some b
          ∧ ∃ bn, graph_nodes g !! b = Some bn ∧ r ∈ children_ bn)).

(** Every room of the graph is a child of the node [b]. *)
Definition rooms_are_children_of (b : NodeId) (g : DynamicSceneGraph) : Prop :=
  ∀ r rn, graph_nodes g !! r = Some rn → layer rn = ROOMS →
    parent_ rn = Some b
    ∧ ∃ bn, graph_nodes g !! b = Some bn ∧ r ∈ children_ bn.

(** ** The mean of the rooms *)

(** The positions of the nodes of a layer, in ascending order of
    identifier. *)
Definition positions_of (layer_nodes : gmap N SceneGraphNode) : list Vector3d :=
  (λ id_node_pair : N * SceneGraphNode, position (attributes id_node_pair.2))
    <$> nodes_in_order layer_nodes.

(** The mean of some positions, in the words of the specification: their
    sum, taken from zero in the order given, divided by their number. *)
Definition mean_position (positions : list Vector3d) : Vector3d :=
  Vector3d_div (foldl Vector3d_add Vector3d_Zero positions)
    (Z.of_nat (length positions)).

(** ** The loop-closure counter, turn by turn *)

(** The counter as the base class leaves it in a turn: the base
    processes the mesh-graph batch and then the pose-graph batch, each
    when it is pending. *)
Definition counter_left_by_base (s : DsgBackend) : Z :=
  let n :=
    match deformation_graph_updates_ s with
    | Some updates => mesh_graph_num_loop_closures updates (num_loop_closures_ s)
    | None => num_loop_closures_ s
    end in
  match pose_graph_updates_ s with
  | Some updates => pose_graph_num_loop_closures updates n
  | None => n
  end.

(** A counter after [k] increments on [size_t]. *)
Fixpoint counted_up (k : nat) (n : Z) : Z :=
  match k with
  | O => n
  | S k => size_t_add (counted_up k n) 1
  end.

Definition is_between (c : PgmoCall) : bool :=
  match c with addNewBetween _ _ _ => true | _ => false end.

(** The between-factor a candidate stands for in a graph: from the
    external key of its first agent node to that of its second, with
    the measurement of the candidate. *)
Definition factor_of (g : DynamicSceneGraph) (result : LoopClosureResult)
    (c : PgmoCall) : Prop :=
  ∃ from_attrs to_attrs,
    getDynamicNode (from_node result) g = Some from_attrs
    ∧ getDynamicNode (to_node result) g = Some to_attrs
    ∧ c = addNewBetween (external_key from_attrs) (external_key to_attrs)
            (to_T_from result).

(** ** Batches *)

(** The batches of a list of messages as one batch, in the words of the
    specification: nothing when no message arrived, otherwise the
    concatenation of the nodes and of the edges in arrival order, under
    the header of the last message. *)
Definition coalesced (msgs : list PoseGraph) : option PoseGraph :=
  match msgs with
  | [] => None
  | first :: rest =>
      Some {| header := header (List.last rest first);
              nodes := concat (nodes <$> msgs);
              edges := concat (edges <$> msgs) |}
  end.

(** An accumulator after the messages of a list, oldest first. *)
Definition accumulate_all (msgs : list PoseGraph) (pending : option PoseGraph)
  : option PoseGraph :=
  foldl (λ pending msg, accumulate msg pending) pending msgs.

Definition mesh_graph_batches (events : list Event) : list PoseGraph :=
  flat_map (λ e, match e with mesh_graph_incremental msg => [msg] | _ => [] end) events.

Definition pose_graph_batches (events : list Event) : list PoseGraph :=
  flat_map (λ e, match e with pose_graph_incremental msg => [msg] | _ => [] end) events.

Definition is_backend_turn (e : Event) : bool :=
  match e with backend_turn _ => true | _ => false end.

End Model.

Arguments between_factors : simpl never.

(** * Readings of a turn *)

Section Bookkeeping.
Context `{Geometry} `{!PgmoTypes} `{!Pgmo} `{!DsgCollaborators}.

(** What the steps of a turn after the pgmo critical section and the
    status assignments leave alone: the log of loop closures, the status
    and its file, the two accumulators, the timestamp and the
    settings. *)
Definition keeps_bookkeeping (s s' : DsgBackend) : Prop :=
  loop_closures_ s' = loop_closures_ s
  ∧ status_ s' = status_ s
  ∧ status_file_ s' = status_file_ s
  ∧ deformation_graph_updates_ s' = deformation_graph_updates_ s
  ∧ pose_graph_updates_ s' = pose_graph_updates_ s
  ∧ last_timestamp_ s' = last_timestamp_ s
  ∧ config s' = config s.

Definition is_LOOPCLOSE (edge : PoseGraphEdge) : bool :=
  match type edge with LOOPCLOSE => true | _ => false end.

(** The log entry of a loop-closure edge of a pose-graph message. *)
Definition edge_log (prefix : N) (edge : PoseGraphEdge) : LoopClosureLog :=
  {| lc_from := NodeSymbol prefix (key_from edge);
     lc_to := NodeSymbol prefix (key_to edge);
     lc_to_T_from := RosToGtsam (pose edge);
     lc_dsg := false |}.

(** The edges of a pending batch, none when nothing is pending. *)
Definition pending_edges (pending : option PoseGraph) : list PoseGraphEdge :=
  from_option edges [] pending.

(** The calls of the pgmo critical section of a turn: the batches
    drained, then the candidates of the queue as the calls [new]. *)
Definition pgmo_section_calls (s : DsgBackend) (new : list PgmoCall) : list PgmoCall :=
  option_list (processIncrementalMeshGraph <$> deformation_graph_updates_ s)
  ++ option_list (processIncrementalPoseGraph <$> pose_graph_updates_ s)
  ++ new.

(** What the mesh update and the front end's side of the shared state
    are after a step that leaves them alone. *)
Definition keeps_inputs (s s' : DsgBackend) : Prop :=
  latest_mesh_ s' = latest_mesh_ s
  ∧ have_new_mesh_ s' = have_new_mesh_ s
  ∧ shared_dsg_ s' = shared_dsg_ s
  ∧ shared_places_copy_ s' = shared_places_copy_ s.

(** The has-updates flag of a turn once the two drain blocks are
    passed: set by a pending batch, otherwise what it held unassigned. *)
Definition flag_after_drain (indeterminate : bool) (s : DsgBackend) : bool :=
  match deformation_graph_updates_ s, pose_graph_updates_ s with
  | None, None => indeterminate
  | _, _ => true
  end.

End Bookkeeping.

Section Trace.
Context `{Geometry} `{!PgmoTypes} `{!Pgmo} `{!DsgCollaborators}.

(** The calls that take a places layer to the solver: none for a layer
    without nodes; otherwise the clearing of the temporary structures,
    the calls for each place in ascending order of identifier, and the
    between-factor of each edge of the spanning tree.  There are none to
    speak of when an edge of the tree misses an end in the layer. *)
Definition temporary_calls (prefix : N) (places : SceneGraphLayer)
  : option (list PgmoCall) :=
  if bool_decide (layer_nodes places = ∅) then Some []
  else
    edge_calls ← mapM (mst_edge_call places)
                   (mst_edges (getMinimumSpanningEdges places));
    Some (clearTemporaryStructures ::
          flat_map (place_node_calls prefix (getMinimumSpanningEdges places))
            (nodes_in_order (layer_nodes places)) ++
          edge_calls).

(** The call a mesh update makes on a backend: one deformMesh for a
    latest mesh that is new and whose cloud has points, none
    otherwise. *)
Definition mesh_update_calls (s : DsgBackend) : list PgmoCall :=
  match latest_mesh_ s with
  | Some latest_mesh =>
      if have_new_mesh_ s
         && negb (uint32_mul (cloud_height (PgmoMeshMsgToPolygonMesh latest_mesh).1)
                    (cloud_width (PgmoMeshMsgToPolygonMesh latest_mesh).1) =? 0)
      then [deformMesh_call (PgmoMeshMsgToPolygonMesh latest_mesh).1
              (PgmoMeshMsgToPolygonMesh latest_mesh).2
              (robot_vertex_prefix_ (config s)) (num_interp_pts_ (config s))
              (interp_horizon_ (config s))]
      else []
  | None => []
  end.

End Trace.

(** * Well-formed inputs *)

Section WellFormed.
Context `{Geometry} `{!PgmoTypes} `{!Pgmo} `{!DsgCollaborators}.

(** The collaborators that write a graph add no layer to it and take
    none away. *)
Definition collaborators_keep_layers : Prop :=
  (∀ g shared, layer_ids (mergeGraph g shared) = layer_ids g)
  ∧ (∀ g v1 v2 m, layer_ids (updateAgents g v1 v2 m) = layer_ids g)
  ∧ (∀ g v1 v2 m, layer_ids (updateObjects g v1 v2 m) = layer_ids g)
  ∧ (∀ g v1 v2 m t1 t2, layer_ids (updatePlaces g v1 v2 m t1 t2) = layer_ids g)
  ∧ (∀ g v1 v2 m, layer_ids (updateRooms g v1 v2 m) = layer_ids g)
  ∧ (∀ g v1 v2 m, layer_ids (updateBuildings g v1 v2 m) = layer_ids g)
  ∧ (∀ d active, layer_ids (graph (findRooms d active)) = layer_ids (graph d)).

(** The spanning tree of a layer runs between nodes of the layer. *)
Definition spanning_tree_in_layer : Prop :=
  ∀ places,
    Forall (λ edge,
              is_Some (layer_nodes places !! source edge)
              ∧ is_Some (layer_nodes places !! target edge))
      (mst_edges (getMinimumSpanningEdges places)).

(** Every candidate of the queue names two dynamic nodes of the shared
    graph. *)
Definition candidates_resolve (d : SharedDsgInfo) : Prop :=
  Forall (λ result,
            is_Some (getDynamicNode (from_node result) (graph d))
            ∧ is_Some (getDynamicNode (to_node result) (graph d)))
    (loop_closures d).

End WellFormed.

(** * The visualizer thread *)

Section Visualizer.
Context `{Geometry} `{!PgmoTypes} `{!Pgmo} `{!DsgCollaborators}.

(** The graph the visualizer is given: [shared_dsg_->graph] or
    [private_dsg_->graph]. *)
Inductive GraphSide : Type := frontend_graph | backend_graph.

(** The calls [runVisualizer] makes on [visualizer_]. *)
Inductive VisualizerCall : Type :=
  | setGraph (side : GraphSide)
  | setGraphUpdated
  | redraw.

(** The members of the backend that belong to the visualizer thread;
    [visualizer_] is the calls made on it, oldest first. *)
Record VisualizerState : Type := {
  visualizer_show_frontend_ : bool;
  visualizer_should_reset_ : bool;
  visualizer_ : list VisualizerCall;
}.

(** The two services of the visualizer's callback queue. *)
Inductive VisualizerRequest : Type :=
  | visualize_frontend_dsg
  | visualize_backend_dsg.

(** [startVisualizer]: the members it leaves; [show_frontend_dsg] is the
    parameter of that name, [false] when not set. *)
Definition startVisualizer (show_frontend_dsg : option bool) : VisualizerState :=
  {| visualizer_show_frontend_ := default false show_frontend_dsg;
     visualizer_should_reset_ := true;
     visualizer_ := [] |}.

(** [setVisualizeFrontend] *)
Definition setVisualizeFrontend (v : VisualizerState) : VisualizerState :=
  {| visualizer_show_frontend_ := true;
     visualizer_should_reset_ :=
       if negb (visualizer_show_frontend_ v) then true else visualizer_should_reset_ v;
     visualizer_ := visualizer_ v |}.

(** [setVisualizeBackend] *)
Definition setVisualizeBackend (v : VisualizerState) : VisualizerState :=
  {| visualizer_show_frontend_ := false;
     visualizer_should_reset_ :=
       if visualizer_show_frontend_ v then true else visualizer_should_reset_ v;
     visualizer_ := visualizer_ v |}.

Definition serve (request : VisualizerRequest) (v : VisualizerState) : VisualizerState :=
  match request with
  | visualize_frontend_dsg => setVisualizeFrontend v
  | visualize_backend_dsg => setVisualizeBackend v
  end.

Definition visualizer_call (c : VisualizerCall) (v : VisualizerState) : VisualizerState :=
  {| visualizer_show_frontend_ := visualizer_show_frontend_ v;
     visualizer_should_reset_ := visualizer_should_reset_ v;
     visualizer_ := visualizer_ v ++ [c] |}.

Definition side_shown (show_frontend : bool) : GraphSide :=
  if show_frontend then frontend_graph else backend_graph.

(** One turn of the loop of [runVisualizer]; [requests] are the service
    calls waiting in the callback queue, which [callAvailable] serves in
    order. *)
Definition runVisualizer (requests : list VisualizerRequest)
    (vs : VisualizerState * DsgBackend) : VisualizerState * DsgBackend :=
  let '(v, s) := vs in
  let v := foldl (λ v request, serve request v) v requests in
  let v :=
    if visualizer_should_reset_ v then
      let v := visualizer_call (setGraph (side_shown (visualizer_show_frontend_ v))) v in
      {| visualizer_show_frontend_ := visualizer_show_frontend_ v;
         visualizer_should_reset_ := false;
         visualizer_ := visualizer_ v |}
    else v in
  let '(v, s) :=
    if updated (private_dsg_ s) then
      (visualizer_call setGraphUpdated v,
       with_private_dsg_ (set_updated false (private_dsg_ s)) s)
    else (v, s) in
  (visualizer_call redraw v, s).

(** The graph the visualizer holds after a history of calls: the one of
    the last [setGraph]. *)
Definition graph_held (calls : list VisualizerCall) : option GraphSide :=
  last (omap (λ c, match c with setGraph side => Some side | _ => None end) calls).

(** The side a request asks for. *)
Definition asks_frontend (request : VisualizerRequest) : bool :=
  match request with visualize_frontend_dsg => true | visualize_backend_dsg => false end.

(** The side asked for last, after a start with [show_frontend]. *)
Definition side_asked (show_frontend : bool) (requests : list VisualizerRequest) : bool :=
  foldl (λ _ request, asks_frontend request) show_frontend requests.

End Visualizer.

Import String.StringSyntax.
#[local] Delimit Scope string_scope with string.

(** * Parameters given as text *)

(** [std::toupper] in the "C" locale, which is the one the backend runs
    in: the letters [a] to [z] go to [A] to [Z], every other character
    stays. *)
Definition toupper (c : Ascii.ascii) : Ascii.ascii :=
  let n := Ascii.N_of_ascii c in
  if ((97 <=? n) && (n <=? 122))%N then Ascii.ascii_of_N (n - 32) else c.

(** [std::transform(s.begin(), s.end(), s.begin(), toupper)] *)
Fixpoint to_upper (s : String.string) : String.string :=
  match s with
  | String.EmptyString => String.EmptyString
  | String.String c rest => String.String (toupper c) (to_upper rest)
  end.

(** [RoomFinder::Config::ClusterMode], the values the backend names. *)
Inductive ClusterMode : Type := SPECTRAL | MODULARITY | NONE.

(** [KimeraRPGO::Verbosity], the values the backend names. *)
Inductive Verbosity : Type := UPDATE | QUIET | VERBOSE.

(** [KimeraRPGO::Solver], the values the backend names. *)
Inductive Solver : Type := LM | GN.

(** [parseRoomClusterMode]: the mode written to [param].  [nh.getParam]
    leaves the default in place when the parameter is not set. *)
Definition parseRoomClusterMode (parameter : option String.string) : ClusterMode :=
  let clustering_mode :=
    match parameter with Some value => value | None => "MODULARITY"%string end in
  let to_check := to_upper clustering_mode in
  if String.eqb to_check "SPECTRAL" then SPECTRAL
  else if String.eqb to_check "MODULARITY" then MODULARITY
  else if String.eqb to_check "NONE" then NONE
  else NONE.

(** [parseVerbosityFromString] *)
Definition parseVerbosityFromString (verb_str : String.string) : Verbosity :=
  let to_check := to_upper verb_str in
  if String.eqb to_check "UPDATE" then UPDATE
  else if String.eqb to_check "QUIET" then QUIET
  else if String.eqb to_check "VERBOSE" then VERBOSE
  else UPDATE.

(** [parseSolverFromString] *)
Definition parseSolverFromString (solver_str : String.string) : Solver :=
  let to_check := to_upper solver_str in
  if String.eqb to_check "LM" then LM
  else if String.eqb to_check "GN" then GN
  else LM.

(** ** Letter case, in its own terms *)

(** The letters, small and capital, in alphabetical order. *)
Definition small_letters : String.string := "abcdefghijklmnopqrstuvwxyz"%string.
Definition capital_letters : String.string := "ABCDEFGHIJKLMNOPQRSTUVWXYZ"%string.

(** Each small letter with its capital. *)
Definition letter_pairs : list (Ascii.ascii * Ascii.ascii) :=
  zip (String.list_ascii_of_string small_letters)
    (String.list_ascii_of_string capital_letters).

(** Two characters that are equal, or the small and the capital form of
    one letter. *)
Definition same_up_to_case (a b : Ascii.ascii) : bool :=
  Ascii.eqb a b
  || existsb (λ p : Ascii.ascii * Ascii.ascii,
                (Ascii.eqb a p.1 && Ascii.eqb b p.2)
                || (Ascii.eqb a p.2 && Ascii.eqb b p.1)) letter_pairs.

(** Two texts that differ in the case of their letters at most. *)
Fixpoint equal_ignoring_case (s t : String.string) : bool :=
  match s, t with
  | String.EmptyString, String.EmptyString => true
  | String.String a s, String.String b t =>
      same_up_to_case a b && equal_ignoring_case s t
  | _, _ => false
  end.

(** * A concrete setting

    Coordinates are kept as written: a sum of two vectors stays a sum, a
    vector narrowed to single precision stays marked as narrowed, a
    pose between two poses stays that.  A mesh is its list of vertices,
    and the collaborators do the least they can: the solver deforms
    nothing, the update functions and the room finder leave the graph
    alone, and the spanning tree is the chain through the places in
    ascending order.  The examples below are evaluated in this
    setting. *)
Module Demo.

Inductive vec : Type :=
  | xyz (x y z : Z)
  | vec_sum (a b : vec)
  | vec_quotient (a : vec) (n : Z)
  (** a vector narrowed to single precision, as [pcl::PointXYZ] holds it *)
  | single_precision (a : vec).

Inductive transform : Type :=
  | located (v : vec)
  | relative (a b : transform)
  | measured (v : vec).

Definition geometry : Geometry :=
  {| Vector3d := vec;
     Vector3d_Zero := xyz 0 0 0;
     Vector3d_add := vec_sum;
     Vector3d_div := vec_quotient;
     Pose3 := transform;
     Pose3_at := located;
     Pose3_between := relative;
     Centroid_get :=
       λ l, match l with
            | [] => xyz 0 0 0
            | _ => vec_quotient (foldl vec_sum (xyz 0 0 0) (single_precision <$> l))
                     (Z.of_nat (length l))
            end;
     RosPose := vec;
     RosToGtsam := measured;
     double := Z |}.

#[local] Existing Instance geometry.

Definition pgmo_types : PgmoTypes :=
  {| KimeraPgmoMesh := list vec;
     PolygonMesh := list vec;
     cloud_height := λ _, 1;
     cloud_width := λ m, Z.of_nat (length m);
     PgmoMeshMsgToPolygonMesh := λ msg, (msg, (λ _, 0) <$> msg);
     Values := list Z;
     Values_empty := [] |}.

#[local] Existing Instance pgmo_types.

Definition pgmo : Pgmo :=
  {| deformMesh := λ _ mesh _ _ _ _, mesh;
     getGtsamValues := λ _, [];
     getGtsamTempValues := λ _, [];
     getGtsamFactors_size := λ calls, Z.of_nat (length calls);
     getGtsamValues_size := λ calls, Z.of_nat (length calls);
     trajectory_size := λ calls, Z.of_nat (length calls);
     mesh_graph_num_loop_closures := λ _ n, n;
     pose_graph_num_loop_closures := λ _ n, n |}.

#[local] Existing Instance pgmo.

(** The chain through the nodes of a layer. *)
Definition chain (l : SceneGraphLayer) : MinimumSpanningTreeInfo :=
  let ids := (nodes_in_order (layer_nodes l)).*1 in
  {| leaves := list_to_set (take 1 ids ++ take 1 (reverse ids));
     mst_edges := (λ st : N * N, {| source := st.1; target := st.2 |})
                    <$> zip ids (tail ids) |}.

Definition collaborators : DsgCollaborators :=
  {| kBuildingSemanticLabel := 22;
     mergeGraph := λ private _, private;
     mergeLayer := λ copy _, copy;
     getRemovedNodes := λ _, [];
     updateAgents := λ g _ _ _, g;
     updateObjects := λ g _ _ _, g;
     updatePlaces := λ g _ _ _ _ _, g;
     updateRooms := λ g _ _ _, g;
     updateBuildings := λ g _ _ _, g;
     findRooms := λ d _, d;
     getMinimumSpanningEdges := chain |}.

#[local] Existing Instance collaborators.

Definition header_at (t : Z) : Header := {| seq := 0; stamp := t; frame_id := [] |}.

Definition odometry (a b : N) : PoseGraphEdge :=
  {| key_from := a; key_to := b; type := ODOM; pose := xyz 1 0 0 |}.

Definition pose_node (k : Z) : PoseGraphNode :=
  {| pgn_key := k; pgn_pose := xyz k 0 0 |}.

(** Two pose-graph messages and a mesh-graph message. *)
Definition msg1 : PoseGraph :=
  {| header := header_at 10; nodes := [pose_node 0; pose_node 1];
     edges := [odometry 0 1] |}.

Definition msg2 : PoseGraph :=
  {| header := header_at 20; nodes := [pose_node 2];
     edges := [odometry 1 2; odometry 0 2] |}.

Definition msg3 : PoseGraph :=
  {| header := header_at 30; nodes := []; edges := [odometry 2 3] |}.

Definition no_attributes : NodeAttributes :=
  {| position := xyz 0 0 0; color := {| red := 0; green := 0; blue := 0 |};
     semantic_label := 0; name := no_name; pcl_mesh_connections := [] |}.

Definition at_position (v : vec) (connections : list N) : NodeAttributes :=
  {| position := v; color := {| red := 0; green := 0; blue := 0 |};
     semantic_label := 0; name := no_name; pcl_mesh_connections := connections |}.

Definition place (i : N) : NodeId := NodeSymbol 112 i.
Definition room (i : N) : NodeId := NodeSymbol 82 i.
Definition agent (i : N) : NodeId := NodeSymbol 97 i.

Definition all_layers : list LayerId := [OBJECTS; PLACES; ROOMS; BUILDINGS].

(** A graph with three places, two of them in the one room of the
    graph, and no building yet. *)
Definition graph_with_room : DynamicSceneGraph :=
  {| layer_ids := all_layers;
     graph_nodes :=
       <[place 0 := {| layer := PLACES; attributes := at_position (xyz 0 0 0) [7%N];
                       parent_ := Some (room 0); children_ := ∅ |}]>
       (<[place 1 := {| layer := PLACES; attributes := at_position (xyz 2 0 0) [];
                        parent_ := Some (room 0); children_ := ∅ |}]>
       (<[place 2 := {| layer := PLACES; attributes := at_position (xyz 4 2 0) [8%N; 9%N];
                        parent_ := None; children_ := ∅ |}]>
       (<[room 0 := {| layer := ROOMS; attributes := at_position (xyz 1 0 0) [];
                       parent_ := None; children_ := {[place 0; place 1]} |}]> ∅)));
     dynamic_nodes :=
       <[agent 0 := {| external_key := 1000 |}]>
       (<[agent 1 := {| external_key := 1001 |}]> ∅);
     graph_mesh := None |}.

(** A graph with places and no room. *)
Definition graph_without_rooms : DynamicSceneGraph :=
  {| layer_ids := all_layers;
     graph_nodes :=
       <[place 0 := {| layer := PLACES; attributes := at_position (xyz 0 0 0) [7%N];
                       parent_ := None; children_ := ∅ |}]> ∅;
     dynamic_nodes := <[agent 0 := {| external_key := 1000 |}]> ∅;
     graph_mesh := None |}.

Definition places_of (g : DynamicSceneGraph) : SceneGraphLayer :=
  {| layer_nodes := default ∅ (getLayer PLACES g); layer_edges := [] |}.

(** Settings as the constructor defaults them, but for the three
    switches given. *)
Definition settings_with (periodic add_places rooms : bool) : Config :=
  {| robot_prefix_ := 97;
     robot_vertex_prefix_ := 115;
     num_interp_pts_ := 4;
     interp_horizon_ := 10;
     add_places_to_deformation_graph_ := add_places;
     optimize_on_lc_ := true;
     enable_node_merging_ := true;
     call_update_periodically_ := periodic;
     places_merge_pos_threshold_m_ := 0;
     places_merge_distance_tolerance_m_ := 0;
     pgmo_log_ := true;
     building_color_ := {| red := 168; green := 7; blue := 193 |};
     room_finder_ := rooms |}.

Definition settings : Config := settings_with true true true.

Definition dsg_info (g : DynamicSceneGraph) : SharedDsgInfo :=
  {| graph := g; updated := false; latest_places := ∅; loop_closures := [] |}.

(** The backend as the constructor leaves it, over a given graph. *)
Definition backend (c : Config) (g : DynamicSceneGraph) : DsgBackend :=
  {| config := c;
     deformation_graph_ := [];
     num_loop_closures_ := 0;
     deformation_graph_updates_ := None;
     pose_graph_updates_ := None;
     latest_mesh_ := None;
     have_new_mesh_ := false;
     last_timestamp_ := 0;
     have_loopclosures_ := false;
     loop_closures_ := [];
     status_ := status_reset;
     status_file_ := [];
     shared_dsg_ := dsg_info g;
     private_dsg_ := dsg_info g;
     shared_places_copy_ := places_of g;
     unlabeled_place_nodes_ := ∅ |}.

(** A loop closure between the two agent poses of [graph_with_room]. *)
Definition candidate : LoopClosureResult :=
  {| from_node := agent 0; to_node := agent 1;
     to_T_from := located (xyz 0 1 0) |}.

(** A backend with one candidate queued and nothing else pending. *)
Definition backend_with_candidate (periodic : bool) : DsgBackend :=
  let s := backend (settings_with periodic true true) graph_with_room in
  with_shared_dsg_ (push_loop_closure candidate (shared_dsg_ s)) s.

(** A backend that accepted a loop closure in an earlier turn and has
    nothing pending now, places kept out of the solver. *)
Definition backend_after_loop_closure : DsgBackend :=
  with_have_loopclosures_ true
    (with_num_loop_closures_ 1
       (backend (settings_with true false true) graph_with_room)).

(** A backend whose private graph has a place that was just activated
    and belongs to no room. *)
Definition backend_with_new_place : DsgBackend :=
  let s := backend settings graph_with_room in
  with_private_dsg_ (set_latest_places {[place 2]} (private_dsg_ s)) s.

(** A graph with all layers and no node, and a backend over it whose
    solver still holds a temporary node from an earlier optimisation. *)
Definition empty_graph : DynamicSceneGraph :=
  {| layer_ids := all_layers; graph_nodes := ∅; dynamic_nodes := ∅;
     graph_mesh := None |}.

Definition backend_without_places : DsgBackend :=
  with_deformation_graph_ [addNewTempNode (place 0) (located (xyz 0 0 0)) false]
    (backend settings empty_graph).

(** The calls that take the three places of [graph_with_room] to the
    solver: three temporary nodes, valences at the two ends of the chain
    that have mesh connections, a between-factor for each link. *)
Definition expected_place_calls : list PgmoCall :=
  [ clearTemporaryStructures;
    addNewTempNode (place 0) (located (xyz 0 0 0)) false;
    addTempNodeValence (place 0) [7%N] 115;
    addNewTempNode (place 1) (located (xyz 2 0 0)) false;
    addNewTempNode (place 2) (located (xyz 4 2 0)) false;
    addTempNodeValence (place 2) [8%N; 9%N] 115;
    addNewTempBetween (place 0) (place 1)
      (relative (located (xyz 0 0 0)) (located (xyz 2 0 0)));
    addNewTempBetween (place 1) (place 2)
      (relative (located (xyz 2 0 0)) (located (xyz 4 2 0))) ].

(** A backend whose latest mesh is new and has no vertex. *)
Definition backend_with_empty_mesh : DsgBackend :=
  fullMeshCallback [] (backend settings graph_with_room).

End Demo.

(** * More of the concrete setting *)
Module Scenes.
#[local] Existing Instance Demo.geometry.
#[local] Existing Instance Demo.pgmo_types.
#[local] Existing Instance Demo.pgmo.
#[local] Existing Instance Demo.collaborators.

Definition loop_closure (a b : N) : PoseGraphEdge :=
  {| key_from := a; key_to := b; type := LOOPCLOSE; pose := Demo.xyz 0 0 1 |}.

(** A pose-graph message with an odometry edge and a loop closure. *)
Definition msg_with_loop_closure : PoseGraph :=
  {| header := Demo.header_at 40; nodes := [Demo.pose_node 4];
     edges := [Demo.odometry 3 4; loop_closure 4 0] |}.

(** A backend with everything pending at once: a mesh-graph batch, a
    pose-graph batch with a loop closure, a new mesh of two vertices and
    a candidate in the queue. *)
Definition busy_backend : DsgBackend :=
  fullMeshCallback [Demo.xyz 0 0 0; Demo.xyz 1 1 1]
    (poseGraphCallback msg_with_loop_closure
       (deformationGraphCallback Demo.msg3 (Demo.backend_with_candidate true))).

(** The graph with one room and a building node under [b], green, named
    by hand and left where the room used to be. *)
Definition graph_with_building (b : NodeId) : DynamicSceneGraph :=
  set_graph_nodes
    (<[b := {| layer := BUILDINGS;
               attributes :=
                 {| position := Demo.xyz 9 9 9;
                    color := {| red := 0; green := 255; blue := 0 |};
                    semantic_label := 7; name := to_string b;
                    pcl_mesh_connections := [] |};
               parent_ := None; children_ := ∅ |}]>
       (graph_nodes Demo.graph_with_room))
    Demo.graph_with_room.

(** The graph of [Demo.graph_with_room] with a second room, at
    (3, 4, 0). *)
Definition graph_with_two_rooms : DynamicSceneGraph :=
  set_graph_nodes
    (<[Demo.room 1 := {| layer := ROOMS;
                         attributes := Demo.at_position (Demo.xyz 3 4 0) [];
                         parent_ := None; children_ := ∅ |}]>
       (graph_nodes Demo.graph_with_room))
    Demo.graph_with_room.

(** The graph with two rooms and a building node under [b], green, named
    by hand and away from the rooms. *)
Definition two_rooms_with_building (b : NodeId) : DynamicSceneGraph :=
  set_graph_nodes
    (<[b := {| layer := BUILDINGS;
               attributes :=
                 {| position := Demo.xyz 9 9 9;
                    color := {| red := 0; green := 255; blue := 0 |};
                    semantic_label := 7; name := to_string b;
                    pcl_mesh_connections := [] |};
               parent_ := None; children_ := ∅ |}]>
       (graph_nodes graph_with_two_rooms))
    graph_with_two_rooms.

(** The graph with one room, built without a buildings layer. *)
Definition graph_without_buildings_layer : DynamicSceneGraph :=
  {| layer_ids := [OBJECTS; PLACES; ROOMS];
     graph_nodes := graph_nodes Demo.graph_with_room;
     dynamic_nodes := dynamic_nodes Demo.graph_with_room;
     graph_mesh := None |}.

(** The graph with one room and a place that goes under the identifier
    [b]. *)
Definition graph_with_place_under (b : NodeId) : DynamicSceneGraph :=
  set_graph_nodes
    (<[b := {| layer := PLACES;
               attributes := Demo.at_position (Demo.xyz 5 5 0) [];
               parent_ := None; children_ := ∅ |}]>
       (graph_nodes Demo.graph_with_room))
    Demo.graph_with_room.

(** The graph with one room as the batch finder leaves it, the room
    under [NodeSymbol('B', 1)]; and as the building step of the backend
    leaves it, the room under [NodeSymbol('B', 0)]. *)
Definition graph_after_findBuildings : DynamicSceneGraph :=
  default Demo.graph_with_room
    (findBuildings (building_color_ Demo.settings) Demo.graph_with_room).

Definition graph_after_updateBuildingNode : DynamicSceneGraph :=
  default Demo.graph_with_room
    (updateBuildingNode_graph (building_color_ Demo.settings) Demo.graph_with_room).

(** A base class that counts the loop-closure edges of the pose-graph
    batches it processes, the edges [logIncrementalLoopClosures] logs;
    the rest is as in [Demo.pgmo]. *)
Definition counting_pgmo : Pgmo :=
  {| deformMesh := λ _ mesh _ _ _ _, mesh;
     getGtsamValues := λ _, [];
     getGtsamTempValues := λ _, [];
     getGtsamFactors_size := λ calls, Z.of_nat (length calls);
     getGtsamValues_size := λ calls, Z.of_nat (length calls);
     trajectory_size := λ calls, Z.of_nat (length calls);
     mesh_graph_num_loop_closures := λ _ n, n;
     pose_graph_num_loop_closures :=
       λ msg n, size_t_add n (size_of (filter (λ edge, is_LOOPCLOSE edge = true)
                                         (edges msg))) |}.

(** A candidate whose second node is no agent node of
    [Demo.graph_with_room], and a backend with it in the queue. *)
Definition stray_candidate : LoopClosureResult :=
  {| from_node := Demo.agent 0; to_node := Demo.agent 7;
     to_T_from := Demo.located (Demo.xyz 0 1 0) |}.

Definition backend_with_stray_candidate : DsgBackend :=
  let s := Demo.backend Demo.settings Demo.graph_with_room in
  with_shared_dsg_ (push_loop_closure stray_candidate (shared_dsg_ s)) s.

End Scenes.

(** * Properties *)

(** ** Ingestion and draining *)

Section Ingestion.
Context `{Geometry} `{!PgmoTypes} `{!Pgmo} `{!DsgCollaborators}.

Lemma coalesced_snoc (msgs : list PoseGraph) (msg : PoseGraph) :
  coalesced (msgs ++ [msg]) =
  Some {| header := header msg;
          nodes := concat (nodes <$> msgs) ++ nodes msg;
          edges := concat (edges <$> msgs) ++ edges msg |}.
Proof.
  destruct msgs as [|first rest]; simpl.
  - by rewrite !app_nil_r.
  - rewrite List.last_last, !fmap_app, !concat_app. simpl.
    by rewrite !app_nil_r, !app_assoc.
Qed.

Lemma accumulate_coalesced (msgs : list PoseGraph) (msg : PoseGraph) :
  accumulate msg (coalesced msgs) = coalesced (msgs ++ [msg]).
Proof.
  rewrite coalesced_snoc. destruct msgs as [|first rest]; simpl.
  - by destruct msg.
  - unfold mergePoseGraphs. simpl. done.
Qed.

Lemma accumulate_all_coalesced (msgs : list PoseGraph) :
  accumulate_all msgs None = coalesced msgs.
Proof.
  induction msgs as [|msg msgs IH] using rev_ind; [done|].
  unfold accumulate_all in *. rewrite foldl_app. simpl. rewrite IH.
  apply accumulate_coalesced.
Qed.

Lemma accumulate_all_app (msgs1 msgs2 : list PoseGraph) (pending : option PoseGraph) :
  accumulate_all (msgs1 ++ msgs2) pending =
  accumulate_all msgs2 (accumulate_all msgs1 pending).
Proof. apply foldl_app. Qed.

(** Between two turns of the loop the callbacks only fill the two
    accumulators; the solver is not touched and nothing is drained. *)
Lemma run_between_turns (events : list Event) (s : DsgBackend) :
  Forall (λ e, is_backend_turn e = false) events →
  ∃ s1, run events s = Some (s1, [])
        ∧ deformation_graph_updates_ s1 =
          accumulate_all (mesh_graph_batches events) (deformation_graph_updates_ s)
        ∧ pose_graph_updates_ s1 =
          accumulate_all (pose_graph_batches events) (pose_graph_updates_ s)
        ∧ deformation_graph_ s1 = deformation_graph_ s.
Proof.
  intros Hevents. revert s.
  induction Hevents as [|e events He _ IH]; intros s; simpl.
  - by exists s.
  - destruct e as [msg|msg|msg|write|b]; simpl in *; try discriminate.
    + destruct (IH (fullMeshCallback msg s)) as (s1 & -> & ? & ? & ?). by exists s1.
    + destruct (IH (deformationGraphCallback msg s)) as (s1 & -> & ? & ? & ?).
      by exists s1.
    + destruct (IH (poseGraphCallback msg s)) as (s1 & -> & ? & ? & ?). by exists s1.
    + destruct (IH (with_shared_dsg_ (write (shared_dsg_ s)) s)) as (s1 & -> & ? & ? & ?).
      by exists s1.
Qed.

(** What the two drain blocks do to the accumulators and to the solver. *)
Lemma drain_updates_calls (b : bool) (s : DsgBackend) :
  deformation_graph_ (drain_updates b s).1 =
    deformation_graph_ s
    ++ option_list (processIncrementalMeshGraph <$> deformation_graph_updates_ s)
    ++ option_list (processIncrementalPoseGraph <$> pose_graph_updates_ s)
  ∧ deformation_graph_updates_ (drain_updates b s).1 = None
  ∧ pose_graph_updates_ (drain_updates b s).1 = None.
Proof.
  unfold drain_updates.
  destruct (deformation_graph_updates_ s) as [mesh_updates|] eqn:Hmesh;
    destruct (pose_graph_updates_ s) as [pose_updates|] eqn:Hpose; simpl;
    rewrite ?Hmesh, ?Hpose; simpl; rewrite ?Hmesh, ?Hpose, ?app_nil_r, <- ?app_assoc;
    done.
Qed.

(** C3.  The messages that arrive between two drains, on either topic
    and in any interleaving, are handed to the solver by the next drain
    as one batch per topic: the concatenation of the nodes and of the
    edges of all messages of the topic, in arrival order.  The drain
    leaves both accumulators empty, so a drain that follows at once
    hands the solver nothing. *)
Theorem drain_takes_the_concatenation (events : list Event) (b b' : bool)
    (s : DsgBackend) :
  Forall (λ e, is_backend_turn e = false) events →
  deformation_graph_updates_ s = None →
  pose_graph_updates_ s = None →
  ∃ s1, run events s = Some (s1, [])
    ∧ deformation_graph_updates_ s1 = coalesced (mesh_graph_batches events)
    ∧ pose_graph_updates_ s1 = coalesced (pose_graph_batches events)
    ∧ deformation_graph_ (drain_updates b s1).1 =
        deformation_graph_ s
        ++ option_list (processIncrementalMeshGraph
                          <$> coalesced (mesh_graph_batches events))
        ++ option_list (processIncrementalPoseGraph
                          <$> coalesced (pose_graph_batches events))
    ∧ deformation_graph_updates_ (drain_updates b s1).1 = None
    ∧ pose_graph_updates_ (drain_updates b s1).1 = None
    ∧ deformation_graph_ (drain_updates b' (drain_updates b s1).1).1 =
        deformation_graph_ (drain_updates b s1).1.
Proof.
  intros Hevents Hmesh Hpose.
  destruct (run_between_turns events s Hevents) as (s1 & Hrun & Hmesh1 & Hpose1 & Hcalls).
  rewrite Hmesh, accumulate_all_coalesced in Hmesh1.
  rewrite Hpose, accumulate_all_coalesced in Hpose1.
  exists s1.
  destruct (drain_updates_calls b s1) as (Hdrain & Hmesh2 & Hpose2).
  destruct (drain_updates_calls b' (drain_updates b s1).1) as (Hagain & _ & _).
  rewrite Hmesh2, Hpose2 in Hagain. simpl in Hagain. rewrite app_nil_r in Hagain.
  rewrite Hmesh1, Hpose1, Hcalls in Hdrain.
  by repeat split.
Qed.

(** C9.  Whatever the accumulator held before, once emptied it holds,
    after a sequence of messages, a batch under the header of the
    message that arrived last, with the nodes and the edges of all
    messages concatenated in arrival order.  This is so for both
    callbacks; the mesh-graph callback also keeps the stamp of the last
    message as the latest timestamp. *)
Theorem accumulated_header_is_the_last (msgs : list PoseGraph) (last_msg : PoseGraph)
    (s : DsgBackend) :
  let expected :=
    {| header := header last_msg;
       nodes := concat (nodes <$> msgs ++ [last_msg]);
       edges := concat (edges <$> msgs ++ [last_msg]) |} in
  let s_mesh :=
    foldl (λ s msg, deformationGraphCallback msg s)
      (with_deformation_graph_updates_ None s) (msgs ++ [last_msg]) in
  let s_pose :=
    foldl (λ s msg, poseGraphCallback msg s)
      (with_pose_graph_updates_ None s) (msgs ++ [last_msg]) in
  deformation_graph_updates_ s_mesh = Some expected
  ∧ last_timestamp_ s_mesh = stamp (header last_msg)
  ∧ pose_graph_updates_ s_pose = Some expected.
Proof.
  intros expected s_mesh s_pose.
  assert (Hexpected : coalesced (msgs ++ [last_msg]) = Some expected).
  { rewrite coalesced_snoc. unfold expected.
    rewrite !fmap_app, !concat_app. simpl. by rewrite !app_nil_r. }
  assert (Hmesh : ∀ l s0,
    deformation_graph_updates_ (foldl (λ s msg, deformationGraphCallback msg s) s0 l) =
    accumulate_all l (deformation_graph_updates_ s0)).
  { induction l as [|msg l IH]; intros s0; [done|]. simpl. by rewrite IH. }
  assert (Hpose : ∀ l s0,
    pose_graph_updates_ (foldl (λ s msg, poseGraphCallback msg s) s0 l) =
    accumulate_all l (pose_graph_updates_ s0)).
  { induction l as [|msg l IH]; intros s0; [done|]. simpl. by rewrite IH. }
  split; [|split].
  - unfold s_mesh. rewrite Hmesh. simpl. by rewrite accumulate_all_coalesced.
  - unfold s_mesh. by rewrite foldl_app.
  - unfold s_pose. rewrite Hpose. simpl. by rewrite accumulate_all_coalesced.
Qed.

End Ingestion.

Section IngestionExamples.
#[local] Existing Instance Demo.geometry.
#[local] Existing Instance Demo.pgmo_types.
#[local] Existing Instance Demo.pgmo.
#[local] Existing Instance Demo.collaborators.

(** Two pose-graph messages with a mesh-graph message and a mesh in
    between: the drain hands the solver the mesh-graph batch and one
    pose-graph batch that holds the nodes and the edges of both
    messages. *)
Lemma drain_takes_the_concatenation_witness :
  Forall (λ e, is_backend_turn e = false)
    [pose_graph_incremental Demo.msg1; mesh_graph_incremental Demo.msg3;
     full_mesh [Demo.xyz 0 0 0]; pose_graph_incremental Demo.msg2]
  ∧ deformation_graph_updates_ (Demo.backend Demo.settings Demo.graph_with_room) = None
  ∧ pose_graph_updates_ (Demo.backend Demo.settings Demo.graph_with_room) = None
  ∧ ∃ s1 : DsgBackend,
      run [pose_graph_incremental Demo.msg1; mesh_graph_incremental Demo.msg3;
           full_mesh [Demo.xyz 0 0 0]; pose_graph_incremental Demo.msg2]
        (Demo.backend Demo.settings Demo.graph_with_room) = Some (s1, [])
      ∧ deformation_graph_ (drain_updates true s1).1 =
          [ processIncrementalMeshGraph Demo.msg3;
            processIncrementalPoseGraph
              {| header := Demo.header_at 20;
                 nodes := [Demo.pose_node 0; Demo.pose_node 1; Demo.pose_node 2];
                 edges := [Demo.odometry 0 1; Demo.odometry 1 2; Demo.odometry 0 2] |} ]
      ∧ pose_graph_updates_ (drain_updates true s1).1 = None.
Proof.
  assert (Forall (λ e, is_backend_turn e = false)
            [pose_graph_incremental Demo.msg1; mesh_graph_incremental Demo.msg3;
             full_mesh [Demo.xyz 0 0 0]; pose_graph_incremental Demo.msg2]) as Hevents
    by (repeat constructor).
  split; [exact Hevents|]. split; [reflexivity|]. split; [reflexivity|].
  destruct (drain_takes_the_concatenation _ true false
              (Demo.backend Demo.settings Demo.graph_with_room)
              Hevents eq_refl eq_refl)
    as (s1 & Hrun & _ & _ & Hcalls & _ & Hpose & _).
  exists s1. split; [exact Hrun|]. split; [exact Hcalls|exact Hpose].
Defined.

End IngestionExamples.

(** ** The loop-closure queue *)

Section LoopClosures.
Context `{Geometry} `{!PgmoTypes} `{!Pgmo} `{!DsgCollaborators}.

Lemma to_size_t_add_l (a b : Z) : to_size_t (to_size_t a + b) = to_size_t (a + b).
Proof. unfold to_size_t. apply Zplus_mod_idemp_l. Qed.

Lemma to_size_t_small (a : Z) : 0 ≤ a < size_t_modulus → to_size_t a = a.
Proof. apply Z.mod_small. Qed.

Lemma to_size_t_range (a : Z) : 0 ≤ to_size_t a < size_t_modulus.
Proof. apply Z.mod_pos_bound. reflexivity. Qed.

(** Two backends with the same members are the same. *)
Lemma DsgBackend_ext (s s' : DsgBackend) :
  config s = config s' →
  deformation_graph_ s = deformation_graph_ s' →
  num_loop_closures_ s = num_loop_closures_ s' →
  deformation_graph_updates_ s = deformation_graph_updates_ s' →
  pose_graph_updates_ s = pose_graph_updates_ s' →
  latest_mesh_ s = latest_mesh_ s' →
  have_new_mesh_ s = have_new_mesh_ s' →
  last_timestamp_ s = last_timestamp_ s' →
  have_loopclosures_ s = have_loopclosures_ s' →
  loop_closures_ s = loop_closures_ s' →
  status_ s = status_ s' →
  status_file_ s = status_file_ s' →
  shared_dsg_ s = shared_dsg_ s' →
  private_dsg_ s = private_dsg_ s' →
  shared_places_copy_ s = shared_places_copy_ s' →
  unlabeled_place_nodes_ s = unlabeled_place_nodes_ s' →
  s = s'.
Proof. destruct s, s'. cbn. intros. by subst. Qed.

(** The loop over the queue succeeds exactly when every candidate
    resolves, and then leaves the closed form. *)
Lemma drain_loop_closures_closed_form (queue : list LoopClosureResult) (added : bool)
    (s : DsgBackend) :
  drain_loop_closures queue added s =
  new ← mapM (loop_closure_call (graph (shared_dsg_ s))) queue;
  Some (after_loop_closures queue new s,
        added || negb (bool_decide (queue = []))).
Proof.
  revert added s. induction queue as [|result rest IH]; intros added s.
  - simpl. by rewrite orb_false_r.
  - cbn [drain_loop_closures mapM]. unfold add_loop_closure, loop_closure_call.
    cbn [graph shared_dsg_ with_shared_dsg_ set_loop_closures].
    destruct (getDynamicNode (from_node result) (graph (shared_dsg_ s)))
      as [from_attrs|]; [|done].
    destruct (getDynamicNode (to_node result) (graph (shared_dsg_ s)))
      as [to_attrs|]; [|done].
    cbn [mbind option_bind]. rewrite IH.
    cbn [graph shared_dsg_ with_shared_dsg_ set_loop_closures with_have_loopclosures_
         with_num_loop_closures_ with_loop_closures_ call with_deformation_graph_].
    fold (loop_closure_call (graph (shared_dsg_ s))).
    destruct (mapM (loop_closure_call (graph (shared_dsg_ s))) rest) as [new|] eqn:Hnew;
      [|done].
    cbn [mbind option_bind mret option_ret]. f_equal. f_equal; [|by rewrite orb_true_r].
    destruct s as [c calls n dgu pgu lm hnm lt hlc lcs st sf sh pr spc unl].
    destruct sh as [g up lp q].
    destruct rest as [|result' rest'].
    + injection Hnew as <-. reflexivity.
    + apply DsgBackend_ext; cbn; try done.
      * by rewrite <- app_assoc.
      * unfold size_t_add. rewrite to_size_t_add_l. f_equal. lia.
      * by rewrite <- app_assoc.
Qed.

Lemma addInternalLCDToDeformationGraph_closed_form (s : DsgBackend) :
  addInternalLCDToDeformationGraph s =
  new ← mapM (loop_closure_call (graph (shared_dsg_ s))) (loop_closures (shared_dsg_ s));
  Some (after_loop_closures (loop_closures (shared_dsg_ s)) new s,
        negb (bool_decide (loop_closures (shared_dsg_ s) = []))).
Proof. apply drain_loop_closures_closed_form. Qed.

Lemma between_factors_app (calls1 calls2 : list PgmoCall) :
  between_factors (calls1 ++ calls2) = between_factors calls1 ++ between_factors calls2.
Proof. apply flat_map_app. Qed.

Lemma between_factors_cons (c : PgmoCall) (calls : list PgmoCall) :
  between_factors (c :: calls) = between_factors [c] ++ between_factors calls.
Proof. apply (between_factors_app [c]). Qed.

(** Each candidate that resolves gives one between-factor, with the
    measurement of the candidate. *)
Lemma between_factors_loop_closure_calls (g : DynamicSceneGraph)
    (queue : list LoopClosureResult) (new : list PgmoCall) :
  mapM (loop_closure_call g) queue = Some new →
  between_factors new = to_T_from <$> queue ∧ length new = length queue
  ∧ Forall (λ c, is_optimize c = false ∧ is_deformMesh c = false) new.
Proof.
  intros Hnew%mapM_Some.
  induction Hnew as [|result c rest new' Hc _ IH]; [done|].
  destruct IH as (IH1 & IH2 & IH3).
  unfold loop_closure_call in Hc.
  destruct (getDynamicNode (from_node result) g); [|done].
  destruct (getDynamicNode (to_node result) g); [|done].
  injection Hc as <-. repeat split.
  - cbn. by rewrite <- IH1.
  - cbn. by rewrite IH2.
  - by constructor.
Qed.

End LoopClosures.

(** ** One turn of the loop *)

Section Turn.
Context `{Geometry} `{!PgmoTypes} `{!Pgmo} `{!DsgCollaborators}.

Lemma keeps_loop_closures_refl (s : DsgBackend) : keeps_loop_closures s s.
Proof. by repeat split. Qed.

Lemma keeps_loop_closures_trans (s1 s2 s3 : DsgBackend) :
  keeps_loop_closures s1 s2 → keeps_loop_closures s2 s3 → keeps_loop_closures s1 s3.
Proof.
  intros (? & ? & ? & ? & ? & ?) (? & ? & ? & ? & ? & ?).
  repeat split; congruence.
Qed.

Lemma call_keeps (c : PgmoCall) (s : DsgBackend) :
  between_factors [c] = [] → keeps_loop_closures s (call c s).
Proof.
  intros Hc. repeat split; try done. cbn.
  by rewrite between_factors_app, Hc, app_nil_r.
Qed.

Lemma between_factors_place_node_calls (prefix : N) (mst_info : MinimumSpanningTreeInfo)
    (l : list (NodeId * SceneGraphNode)) :
  between_factors (flat_map (place_node_calls prefix mst_info) l) = [].
Proof.
  induction l as [|[id node] l IH]; [done|].
  cbn [flat_map]. rewrite between_factors_app, IH, app_nil_r.
  unfold place_node_calls. cbn.
  destruct (bool_decide _); [|done].
  by destruct (pcl_mesh_connections (attributes node)).
Qed.

Lemma between_factors_mst_edge_calls (places : SceneGraphLayer) (l : list Edge)
    (edge_calls : list PgmoCall) :
  mapM (mst_edge_call places) l = Some edge_calls →
  between_factors edge_calls = [].
Proof.
  intros Hcalls%mapM_Some.
  induction Hcalls as [|edge c rest calls' Hc _ IH]; [done|].
  unfold mst_edge_call in Hc.
  destruct (getPosition (source edge) places); [|done].
  destruct (getPosition (target edge) places); [|done].
  injection Hc as <-. exact IH.
Qed.

Lemma addPlacesToDeformationGraph_keeps (s s' : DsgBackend) :
  addPlacesToDeformationGraph s = Some s' → keeps_loop_closures s s'.
Proof.
  unfold addPlacesToDeformationGraph. case_bool_decide.
  - intros [= <-]. apply keeps_loop_closures_refl.
  - destruct (mapM _ _) as [edge_calls|] eqn:Hedges; [|done].
    intros [= <-]. repeat split; try done. cbn.
    rewrite between_factors_app, between_factors_cons, between_factors_app.
    rewrite between_factors_place_node_calls.
    rewrite (between_factors_mst_edge_calls _ _ _ Hedges). by rewrite app_nil_r.
Qed.

Lemma updateDsgMesh_keeps (s : DsgBackend) : keeps_loop_closures s (updateDsgMesh s).
Proof.
  unfold updateDsgMesh. destruct (latest_mesh_ s); [|apply keeps_loop_closures_refl].
  destruct (have_new_mesh_ s); simpl; [|apply keeps_loop_closures_refl].
  destruct (PgmoMeshMsgToPolygonMesh _) as [input_mesh stamps].
  destruct (_ =? 0); repeat split; try done. cbn.
  by rewrite between_factors_app, app_nil_r.
Qed.

Lemma callUpdateFunctions_keeps (v1 v2 : Values) (s : DsgBackend) :
  keeps_loop_closures s (callUpdateFunctions v1 v2 s).
Proof. by repeat split. Qed.

Lemma optimize_keeps (s s' : DsgBackend) :
  optimize s = Some s' → keeps_loop_closures s s'.
Proof.
  unfold optimize. intros Hopt.
  destruct (if add_places_to_deformation_graph_ (config s)
            then addPlacesToDeformationGraph s else Some s) as [s1|] eqn:Hplaces;
    [|done].
  cbn [mbind option_bind] in Hopt. injection Hopt as <-.
  assert (keeps_loop_closures s s1) as Hs1.
  { destruct (add_places_to_deformation_graph_ (config s)).
    - by apply addPlacesToDeformationGraph_keeps.
    - injection Hplaces as <-. apply keeps_loop_closures_refl. }
  apply (keeps_loop_closures_trans _ s1); [exact Hs1|].
  apply (keeps_loop_closures_trans _ (call optimize_call s1)).
  { by apply call_keeps. }
  apply (keeps_loop_closures_trans _ (updateDsgMesh (call optimize_call s1)));
    [apply updateDsgMesh_keeps|apply callUpdateFunctions_keeps].
Qed.

Lemma updatePrivateDsg_keeps (s : DsgBackend) : keeps_loop_closures s (updatePrivateDsg s).
Proof.
  unfold updatePrivateDsg. destruct (updated (shared_dsg_ s)); [|by repeat split].
  destruct (hasLayer PLACES (graph (shared_dsg_ s))); by repeat split.
Qed.

Lemma updatePrivateDsg_calls (s : DsgBackend) :
  deformation_graph_ (updatePrivateDsg s) = deformation_graph_ s.
Proof.
  unfold updatePrivateDsg. destruct (updated (shared_dsg_ s)); [|done].
  by destruct (hasLayer PLACES (graph (shared_dsg_ s))).
Qed.

Lemma private_dsg_critical_section_keeps (have_graph_updates : bool) (s s' : DsgBackend) :
  private_dsg_critical_section have_graph_updates s = Some s' →
  keeps_loop_closures s s'.
Proof.
  unfold private_dsg_critical_section. intros Hsection.
  pose proof (updatePrivateDsg_keeps s) as Hmerge.
  destruct (_ && _ && _).
  - destruct (optimize (updatePrivateDsg s)) as [s1|] eqn:Hopt; [|done].
    cbn in Hsection. injection Hsection as <-.
    apply optimize_keeps in Hopt.
    eapply keeps_loop_closures_trans; [exact Hmerge|].
    eapply keeps_loop_closures_trans; [exact Hopt|]. by repeat split.
  - destruct (call_update_periodically_ (config (updatePrivateDsg s)));
      cbn in Hsection; injection Hsection as <-.
    + eapply keeps_loop_closures_trans; [exact Hmerge|].
      eapply keeps_loop_closures_trans; [apply updateDsgMesh_keeps|].
      by repeat split.
    + eapply keeps_loop_closures_trans; [exact Hmerge|]. by repeat split.
Qed.

Lemma updateRoomsNodes_solver (s s' : DsgBackend) :
  updateRoomsNodes s = Some s' →
  keeps_loop_closures s s' ∧ deformation_graph_ s' = deformation_graph_ s.
Proof.
  unfold updateRoomsNodes. destruct (room_finder_ (config s)).
  - destruct (getNodesForRoomDetection _ s) as [active|]; [|done].
    cbn [mbind option_bind]. unfold storeUnlabeledPlaces.
    destruct (getLayer PLACES _) as [places|]; [|done].
    intros [= <-]. by repeat split.
  - intros [= <-]. by repeat split.
Qed.

Lemma updateBuildingNode_solver (s s' : DsgBackend) :
  updateBuildingNode s = Some s' →
  keeps_loop_closures s s' ∧ deformation_graph_ s' = deformation_graph_ s.
Proof.
  unfold updateBuildingNode.
  destruct (updateBuildingNode_graph _ _) as [g|]; [|done].
  intros [= <-]. by repeat split.
Qed.

(** A turn of the loop, taken apart: the candidates of the queue resolve
    to calls, the private-dsg section runs on the state they leave, and
    what follows leaves the solver side alone. *)
Lemma runPgmo_inv (b : bool) (s s' : DsgBackend) :
  runPgmo b s = Some s' →
  ∃ new s_section,
    mapM (loop_closure_call (graph (shared_dsg_ s))) (loop_closures (shared_dsg_ s))
      = Some new
    ∧ private_dsg_critical_section
        (drain_updates b (with_status_ status_reset s)).2
        (update_status (num_loop_closures_ s)
           (after_loop_closures (loop_closures (shared_dsg_ s)) new
              (drain_updates b (with_status_ status_reset s)).1))
      = Some s_section
    ∧ keeps_loop_closures s_section s'
    ∧ deformation_graph_ s' = deformation_graph_ s_section.
Proof.
  unfold runPgmo, pgmo_critical_section. intros Hturn.
  assert (Hshared : shared_dsg_ (drain_updates b (with_status_ status_reset s)).1
                    = shared_dsg_ s).
  { unfold drain_updates. simpl.
    destruct (deformation_graph_updates_ s); simpl;
      destruct (pose_graph_updates_ s); done. }
  destruct (drain_updates b (with_status_ status_reset s)) as [s1 hgu] eqn:Hdrain.
  simpl in Hshared.
  rewrite addInternalLCDToDeformationGraph_closed_form, Hshared in Hturn.
  destruct (mapM _ _) as [new|]; [|done].
  cbn [mbind option_bind num_loop_closures_ with_status_] in Hturn.
  destruct (private_dsg_critical_section _ _) as [s_section|] eqn:Hsection; [|done].
  cbn [mbind option_bind] in Hturn.
  destruct (updateRoomsNodes _) as [s_rooms|] eqn:Hrooms; [|done].
  cbn [mbind option_bind] in Hturn.
  apply updateRoomsNodes_solver in Hrooms as [Hrooms Hrooms_calls].
  apply updateBuildingNode_solver in Hturn as [Hbuilding Hbuilding_calls].
  exists new, s_section. split; [done|]. split; [done|]. split.
  - eapply keeps_loop_closures_trans; [|exact Hbuilding].
    eapply keeps_loop_closures_trans; [|exact Hrooms].
    destruct (hgu && _); by repeat split.
  - rewrite Hbuilding_calls, Hrooms_calls. by destruct (hgu && _).
Qed.

End Turn.

(** ** The loop-closure counter over a run *)

Section Counter.
Context `{Geometry} `{!PgmoTypes} `{!Pgmo} `{!DsgCollaborators}.

Lemma between_factors_option_list (f : PoseGraph → PgmoCall) (o : option PoseGraph) :
  (∀ msg, between_factors [f msg] = []) →
  between_factors (option_list (f <$> o)) = [].
Proof. intros Hf. destruct o; [apply Hf|done]. Qed.

Lemma drain_updates_keeps (b : bool) (s : DsgBackend) :
  base_keeps_num_loop_closures →
  keeps_loop_closures s (drain_updates b (with_status_ status_reset s)).1.
Proof.
  intros [Hmesh Hpose]. unfold drain_updates. simpl.
  destruct (deformation_graph_updates_ s) as [mesh_updates|]; simpl;
    destruct (pose_graph_updates_ s) as [pose_updates|]; simpl;
    repeat split; simpl; rewrite ?Hpose, ?Hmesh; try done;
    rewrite ?between_factors_app; simpl; by rewrite ?app_nil_r.
Qed.

Lemma update_status_keeps (prev : Z) (s : DsgBackend) :
  config (update_status prev s) = config s
  ∧ num_loop_closures_ (update_status prev s) = num_loop_closures_ s
  ∧ shared_dsg_ (update_status prev s) = shared_dsg_ s
  ∧ deformation_graph_ (update_status prev s) = deformation_graph_ s
  ∧ have_loopclosures_ (update_status prev s) =
      have_loopclosures_ s || (0 <? num_loop_closures_ s).
Proof.
  unfold update_status. destruct (0 <? num_loop_closures_ s); simpl.
  - by rewrite orb_true_r.
  - by rewrite orb_false_r.
Qed.

(** What a turn of the loop does to the counter, the queue and the
    between-factors of the solver. *)
Lemma runPgmo_loop_closures (b : bool) (s s' : DsgBackend) :
  base_keeps_num_loop_closures →
  runPgmo b s = Some s' →
  num_loop_closures_ s' =
    match loop_closures (shared_dsg_ s) with
    | [] => num_loop_closures_ s
    | queue => to_size_t (num_loop_closures_ s + Z.of_nat (length queue))
    end
  ∧ between_factors (deformation_graph_ s') =
      between_factors (deformation_graph_ s)
      ++ (to_T_from <$> loop_closures (shared_dsg_ s))
  ∧ loop_closures (shared_dsg_ s') = [].
Proof.
  intros Hbase Hturn.
  destruct (runPgmo_inv b s s' Hturn) as (new & s_section & Hnew & Hsection & Hrest & _).
  apply private_dsg_critical_section_keeps in Hsection.
  pose proof (keeps_loop_closures_trans _ _ _ Hsection Hrest)
    as (_ & Hnum & _ & Hqueue & _ & Hbetween).
  destruct (drain_updates_keeps b s Hbase) as (_ & Hnum1 & _ & Hqueue1 & _ & Hbetween1).
  destruct (update_status_keeps (num_loop_closures_ s)
              (after_loop_closures (loop_closures (shared_dsg_ s)) new
                 (drain_updates b (with_status_ status_reset s)).1))
    as (_ & Hnum3 & Hshared3 & Hcalls3 & _).
  rewrite Hnum, Hqueue, Hbetween, Hnum3, Hshared3, Hcalls3.
  destruct (between_factors_loop_closure_calls _ _ _ Hnew) as (Hposes & _ & _).
  destruct (loop_closures (shared_dsg_ s)) as [|result rest] eqn:Hq.
  - cbn [after_loop_closures fmap list_fmap].
    rewrite Hnum1, Hqueue1, Hbetween1, app_nil_r. done.
  - cbn [after_loop_closures num_loop_closures_ with_have_loopclosures_
         with_num_loop_closures_ deformation_graph_ with_loop_closures_
         with_deformation_graph_ shared_dsg_ with_shared_dsg_ loop_closures
         set_loop_closures].
    rewrite Hnum1, between_factors_app, Hbetween1, Hposes. done.
Qed.

(** The other events leave the counter and the solver alone. *)
Lemma step_callback (e : Event) (s s' : DsgBackend) :
  is_backend_turn e = false →
  step e s = Some s' →
  num_loop_closures_ s' = num_loop_closures_ s
  ∧ deformation_graph_ s' = deformation_graph_ s.
Proof. destruct e; try done; by intros _ [= <-]. Qed.

Lemma run_app (events1 events2 : list Event) (s : DsgBackend) :
  run (events1 ++ events2) s =
  '(s1, drained1) ← run events1 s;
  '(s2, drained2) ← run events2 s1;
  Some (s2, drained1 ++ drained2).
Proof.
  revert s. induction events1 as [|e events1 IH]; intros s.
  - simpl. destruct (run events2 s) as [[s2 drained2]|]; done.
  - simpl. destruct (step e s) as [s'|]; [|done]. simpl. rewrite IH.
    destruct (run events1 s') as [[s1 drained1]|]; [|done]. simpl.
    destruct (run events2 s1) as [[s2 drained2]|]; [|done]. simpl.
    by rewrite app_assoc.
Qed.

(** Over a run the counter follows the number of candidates drained, in
    [size_t] arithmetic, and the solver gets one between-factor for each
    of them, in order. *)
Lemma run_loop_closures (events : list Event) (s s' : DsgBackend)
    (drained : list LoopClosureResult) :
  base_keeps_num_loop_closures →
  0 ≤ num_loop_closures_ s < size_t_modulus →
  run events s = Some (s', drained) →
  num_loop_closures_ s' = to_size_t (num_loop_closures_ s + Z.of_nat (length drained))
  ∧ between_factors (deformation_graph_ s') =
      between_factors (deformation_graph_ s) ++ (to_T_from <$> drained).
Proof.
  intros Hbase. revert s drained.
  induction events as [|e events IH]; intros s drained Hrange Hrun.
  - injection Hrun as <- <-. simpl.
    rewrite Z.add_0_r, to_size_t_small, app_nil_r by done. done.
  - simpl in Hrun. destruct (step e s) as [s1|] eqn:Hstep; [|done].
    cbn [mbind option_bind] in Hrun.
    destruct (run events s1) as [[s2 drained2]|] eqn:Hrest; [|done].
    cbn in Hrun. injection Hrun as <- <-.
    destruct (is_backend_turn e) eqn:Hturn.
    + destruct e as [| | | |b]; try done. cbn [step drained_by] in *.
      destruct (runPgmo_loop_closures b s s1 Hbase Hstep) as (Hnum & Hbetween & _).
      assert (Hrange1 : 0 ≤ num_loop_closures_ s1 < size_t_modulus).
      { rewrite Hnum. destruct (loop_closures (shared_dsg_ s)); [done|].
        apply to_size_t_range. }
      destruct (IH s1 drained2 Hrange1 Hrest) as [Hnum2 Hbetween2].
      rewrite Hnum2, Hbetween2, Hbetween, Hnum, length_app, fmap_app, app_assoc.
      split; [|done].
      destruct (loop_closures (shared_dsg_ s)) as [|result rest].
      * done.
      * rewrite to_size_t_add_l. f_equal. lia.
    + destruct (step_callback e s s1 Hturn Hstep) as [Hnum Hcalls].
      assert (drained_by e s = []) as -> by (by destruct e).
      rewrite <- Hnum, <- Hcalls in *. simpl. by apply IH.
Qed.

(** As long as the base class leaves the counter alone: from a backend
    that has counted no loop closure yet, and below what [size_t] can
    count, the counter after a run is the number of candidates drained;
    it never decreases from one point of the run to a later one; each
    candidate drained gave a between-factor with its measurement, in
    the order of the queue; and a turn leaves the queue empty. *)
Lemma run_counts_drained (events : list Event) (s0 s : DsgBackend)
    (drained : list LoopClosureResult) :
  base_keeps_num_loop_closures →
  num_loop_closures_ s0 = 0 →
  run events s0 = Some (s, drained) →
  Z.of_nat (length drained) < size_t_modulus →
  num_loop_closures_ s = Z.of_nat (length drained)
  ∧ (∀ events1 events2 s1 drained1,
       events = events1 ++ events2 →
       run events1 s0 = Some (s1, drained1) →
       num_loop_closures_ s1 ≤ num_loop_closures_ s)
  ∧ between_factors (deformation_graph_ s) =
      between_factors (deformation_graph_ s0) ++ (to_T_from <$> drained)
  ∧ (∀ events1 b s1 drained1,
       events = events1 ++ [backend_turn b] →
       run events1 s0 = Some (s1, drained1) →
       loop_closures (shared_dsg_ s) = []
       ∧ drained = drained1 ++ loop_closures (shared_dsg_ s1)).
Proof.
  intros Hbase Hzero Hrun Hfew.
  assert (Hrange : 0 ≤ num_loop_closures_ s0 < size_t_modulus) by (by rewrite Hzero).
  destruct (run_loop_closures events s0 s drained Hbase Hrange Hrun) as [Hnum Hbetween].
  rewrite Hzero, Z.add_0_l, to_size_t_small in Hnum by lia.
  split; [done|]. split; [|split; [done|]].
  - intros events1 events2 s1 drained1 -> Hrun1.
    rewrite run_app, Hrun1 in Hrun. cbn [mbind option_bind] in Hrun.
    destruct (run events2 s1) as [[s2 drained2]|]; [|done].
    cbn in Hrun. injection Hrun as <- <-.
    destruct (run_loop_closures events1 s0 s1 drained1 Hbase Hrange Hrun1) as [Hnum1 _].
    rewrite length_app in Hfew, Hnum.
    rewrite Hzero, Z.add_0_l, to_size_t_small in Hnum1 by lia.
    rewrite Hnum1, Hnum. lia.
  - intros events1 b s1 drained1 -> Hrun1.
    rewrite run_app, Hrun1 in Hrun. cbn [mbind option_bind run step] in Hrun.
    destruct (runPgmo b s1) as [s2|] eqn:Hturn; [|done].
    cbn in Hrun. injection Hrun as <- <-.
    destruct (runPgmo_loop_closures b s1 s2 Hbase Hturn) as (_ & _ & Hqueue).
    by rewrite app_nil_r.
Qed.

End Counter.


(** ** When a turn works on the solver *)

Section SolverWork.
Context `{Geometry} `{!PgmoTypes} `{!Pgmo} `{!DsgCollaborators}.

Lemma calls_since_same (s s' : DsgBackend) :
  deformation_graph_ s' = deformation_graph_ s →
  calls_since (deformation_graph_ s) s' = [].
Proof. intros Hsame. unfold calls_since. rewrite Hsame. apply drop_all. Qed.

(** With nothing pending the drain blocks change nothing and leave the
    flag as it was found. *)
Lemma drain_updates_nothing_pending (b : bool) (s : DsgBackend) :
  deformation_graph_updates_ s = None →
  pose_graph_updates_ s = None →
  drain_updates b s = (s, b).
Proof. intros Hmesh Hpose. unfold drain_updates. by rewrite Hmesh, Hpose. Qed.

(** A mesh without points is taken off the backend and nothing else
    happens. *)
Lemma updateDsgMesh_empty (s : DsgBackend) :
  latest_mesh_is_empty s → updateDsgMesh s = with_have_new_mesh_ false s.
Proof.
  intros (latest_mesh & Hlatest & Hempty). unfold updateDsgMesh. rewrite Hlatest.
  destruct (have_new_mesh_ s) eqn:Hnew; cbn.
  - destruct (PgmoMeshMsgToPolygonMesh latest_mesh) as [input_mesh stamps].
    cbn in Hempty. unfold uint32_mul. by rewrite Hempty.
  - apply DsgBackend_ext; cbn; done.
Qed.

Lemma updatePrivateDsg_mesh (s : DsgBackend) :
  latest_mesh_ (updatePrivateDsg s) = latest_mesh_ s
  ∧ have_new_mesh_ (updatePrivateDsg s) = have_new_mesh_ s
  ∧ config (updatePrivateDsg s) = config s.
Proof.
  unfold updatePrivateDsg. destruct (updated (shared_dsg_ s)); [|done].
  by destruct (hasLayer PLACES (graph (shared_dsg_ s))).
Qed.

Lemma addPlacesToDeformationGraph_mesh (s s' : DsgBackend) :
  addPlacesToDeformationGraph s = Some s' →
  latest_mesh_ s' = latest_mesh_ s.
Proof.
  unfold addPlacesToDeformationGraph. case_bool_decide; [by intros [= <-]|].
  destruct (mapM _ _); [|done]. by intros [= <-].
Qed.

(** C2, as the code has it.  A turn of the loop for which no mesh-graph
    and no pose-graph message is pending, with an empty loop-closure
    queue and periodic updates switched off, makes no call on the
    solver: no optimize, no deformMesh, and the solver is as it was.
    This holds whenever the guard of the optimisation cannot pass on
    what such a turn knows: the has-updates flag, which the turn leaves
    unassigned, does not read true, or optimisation on loop closure is
    switched off, or no loop closure has been accepted yet. *)
Theorem idle_turn_leaves_the_solver_alone (b : bool) (s s' : DsgBackend) :
  deformation_graph_updates_ s = None →
  pose_graph_updates_ s = None →
  loop_closures (shared_dsg_ s) = [] →
  call_update_periodically_ (config s) = false →
  (b = false ∨ optimize_on_lc_ (config s) = false
   ∨ (have_loopclosures_ s = false ∧ num_loop_closures_ s ≤ 0)) →
  runPgmo b s = Some s' →
  deformation_graph_ s' = deformation_graph_ s
  ∧ optimize_ran s s' = false
  ∧ deformMesh_ran s s' = false.
Proof.
  intros Hmesh Hpose Hqueue Hperiodic Hguard Hturn.
  cut (deformation_graph_ s' = deformation_graph_ s).
  { intros Hsame. unfold optimize_ran, deformMesh_ran.
    by rewrite (calls_since_same _ _ Hsame). }
  destruct (runPgmo_inv b s s' Hturn) as (new & s_section & Hnew & Hsection & _ & ->).
  rewrite Hqueue in Hnew, Hsection. injection Hnew as <-.
  rewrite (drain_updates_nothing_pending b (with_status_ status_reset s))
    in Hsection by done.
  cbn [fst snd after_loop_closures] in Hsection.
  destruct (update_status_keeps (num_loop_closures_ s) (with_status_ status_reset s))
    as (Hconfig & _ & _ & Hcalls & Hflag).
  cbn [config num_loop_closures_ deformation_graph_ have_loopclosures_ with_status_]
    in Hconfig, Hcalls, Hflag.
  set (s3 := update_status (num_loop_closures_ s) (with_status_ status_reset s)) in *.
  unfold private_dsg_critical_section in Hsection.
  destruct (updatePrivateDsg_keeps s3) as (Hconfig4 & _ & Hflag4 & _).
  pose proof (updatePrivateDsg_calls s3) as Hcalls4.
  rewrite Hconfig4, Hflag4, Hconfig, Hflag, Hperiodic in Hsection.
  assert (b && optimize_on_lc_ (config s)
          && (have_loopclosures_ s || (0 <? num_loop_closures_ s)) = false) as Hoff.
  { destruct Hguard as [->|[->|[-> Hnum]]].
    - done.
    - by rewrite andb_false_r.
    - assert ((0 <? num_loop_closures_ s) = false) as -> by lia.
      by rewrite andb_false_r. }
  rewrite Hoff in Hsection. cbn in Hsection. injection Hsection as <-.
  cbn. by rewrite Hcalls4, Hcalls.
Qed.

(** C8, as the code has it.  When the latest mesh has no vertex, the
    mesh update takes it off the backend (it is no longer new) and does
    nothing else: deformMesh is not called, the mesh of the private
    graph stays, and no counter of the backend moves.  The turn goes on:
    the layer update functions run after it, on the periodic path and
    after an optimisation alike. *)
Theorem empty_mesh_is_dropped (s : DsgBackend) :
  latest_mesh_is_empty s →
  updateDsgMesh s = with_have_new_mesh_ false s
  ∧ deformMesh_ran s (updateDsgMesh s) = false
  ∧ graph_mesh (graph (private_dsg_ (updateDsgMesh s))) =
      graph_mesh (graph (private_dsg_ s))
  ∧ ¬ counted s (updateDsgMesh s)
  ∧ (call_update_periodically_ (config s) = true →
     ∃ s', private_dsg_critical_section false s = Some s'
           ∧ graph (private_dsg_ s') =
               graph (private_dsg_
                        (callUpdateFunctions Values_empty Values_empty
                           (with_have_new_mesh_ false (updatePrivateDsg s)))))
  ∧ (∀ s1,
       (if add_places_to_deformation_graph_ (config s)
        then addPlacesToDeformationGraph s else Some s) = Some s1 →
       optimize s =
       Some (callUpdateFunctions
               (getGtsamTempValues (deformation_graph_ s1 ++ [optimize_call]))
               (getGtsamValues (deformation_graph_ s1 ++ [optimize_call]))
               (with_have_new_mesh_ false (call optimize_call s1)))).
Proof.
  intros Hempty. pose proof (updateDsgMesh_empty s Hempty) as Hdrop.
  rewrite Hdrop. split; [done|]. split.
  { unfold deformMesh_ran. by rewrite calls_since_same. }
  split; [done|]. split.
  { unfold counted. cbn. intros [?|[?|?]]; done. }
  destruct Hempty as (latest_mesh & Hlatest & Hpoints). split.
  - intros Hperiodic. unfold private_dsg_critical_section.
    destruct (updatePrivateDsg_mesh s) as (Hlatest' & _ & Hconfig).
    rewrite Hconfig, Hperiodic. cbn [andb].
    rewrite (updateDsgMesh_empty (updatePrivateDsg s)).
    + eexists. split; [reflexivity|done].
    + exists latest_mesh. by rewrite Hlatest'.
  - intros s1 Hplaces. unfold optimize. rewrite Hplaces. cbn [mbind option_bind].
    rewrite (updateDsgMesh_empty (call optimize_call s1)); [done|].
    exists latest_mesh. split; [|done]. cbn.
    destruct (add_places_to_deformation_graph_ (config s)).
    + by rewrite (addPlacesToDeformationGraph_mesh _ _ Hplaces).
    + by injection Hplaces as <-.
Qed.

End SolverWork.

Section SolverWorkExamples.
#[local] Existing Instance Demo.geometry.
#[local] Existing Instance Demo.pgmo_types.
#[local] Existing Instance Demo.pgmo.
#[local] Existing Instance Demo.collaborators.

(** C1, where the code departs from it.  The guard of the optimisation
    reads a flag that only the two drain blocks assign; the value
    returned by the loop over the loop-closure queue is dropped, and
    without a drained message the flag is read unassigned.  First turn
    below: no message is pending, one candidate is queued, the flag
    reads false; the candidate goes to the solver as a between-factor,
    a loop closure is accepted and optimisation on loop closure is on,
    yet no optimisation runs.  Second turn: nothing is pending or
    queued, a loop closure was accepted before, the flag reads true; no
    factor is added, yet the optimisation runs. *)
Theorem optimize_guard_misses_the_queue :
  ∃ s1 s2 : DsgBackend,
    (runPgmo false (Demo.backend_with_candidate true) = Some s1
     ∧ calls_since [] s1 = [addNewBetween 1000 1001 (Demo.located (Demo.xyz 0 1 0))]
     ∧ factors_added (Demo.backend_with_candidate true) s1 = true
     ∧ optimize_on_lc_ (config s1) = true
     ∧ have_loopclosures_ s1 = true
     ∧ optimize_ran (Demo.backend_with_candidate true) s1 = false)
    ∧ (runPgmo true Demo.backend_after_loop_closure = Some s2
       ∧ calls_since [] s2 = [optimize_call]
       ∧ factors_added Demo.backend_after_loop_closure s2 = false
       ∧ optimize_ran Demo.backend_after_loop_closure s2 = true).
Proof.
  assert ((λ s1, (calls_since [] s1,
                  factors_added (Demo.backend_with_candidate true) s1,
                  optimize_on_lc_ (config s1), have_loopclosures_ s1,
                  optimize_ran (Demo.backend_with_candidate true) s1))
            <$> runPgmo false (Demo.backend_with_candidate true)
          = Some ([addNewBetween 1000 1001 (Demo.located (Demo.xyz 0 1 0))], true, true, true, false))
    as (s1 & Hturn1 & Hs1)%fmap_Some by (vm_compute; reflexivity).
  assert ((λ s2, (calls_since [] s2,
                  factors_added Demo.backend_after_loop_closure s2,
                  optimize_ran Demo.backend_after_loop_closure s2))
            <$> runPgmo true Demo.backend_after_loop_closure
          = Some ([optimize_call], false, true))
    as (s2 & Hturn2 & Hs2)%fmap_Some by (vm_compute; reflexivity).
  exists s1, s2. injection Hs1 as ? ? ? ? ?. injection Hs2 as ? ? ?.
  repeat split; solve [assumption | symmetry; assumption].
Qed.

(** C2 as stated fails: with no message pending and periodic updates
    off, a turn still takes a queued loop-closure candidate to the
    solver. *)
Lemma idle_turn_still_drains_the_queue :
  ∃ s' : DsgBackend,
    deformation_graph_updates_ (Demo.backend_with_candidate false) = None
    ∧ pose_graph_updates_ (Demo.backend_with_candidate false) = None
    ∧ call_update_periodically_ (config (Demo.backend_with_candidate false)) = false
    ∧ runPgmo false (Demo.backend_with_candidate false) = Some s'
    ∧ deformation_graph_ (Demo.backend_with_candidate false) = []
    ∧ deformation_graph_ s' = [addNewBetween 1000 1001 (Demo.located (Demo.xyz 0 1 0))].
Proof.
  assert (deformation_graph_ <$> runPgmo false (Demo.backend_with_candidate false)
          = Some [addNewBetween 1000 1001 (Demo.located (Demo.xyz 0 1 0))])
    as (s' & Hturn & Hs')%fmap_Some by (vm_compute; reflexivity).
  exists s'. repeat split; solve [assumption | symmetry; assumption | reflexivity].
Qed.

(** C8 as stated fails: the empty mesh is dropped but nothing counts
    it. *)
Lemma empty_mesh_is_not_counted :
  latest_mesh_is_empty Demo.backend_with_empty_mesh
  ∧ have_new_mesh_ Demo.backend_with_empty_mesh = true
  ∧ ¬ counted Demo.backend_with_empty_mesh (updateDsgMesh Demo.backend_with_empty_mesh).
Proof.
  split; [by exists []|]. split; [done|].
  intros [Hcount|[Hcount|Hcount]]; apply Hcount; vm_compute; reflexivity.
Qed.

(** A turn with nothing pending and periodic updates off, before any
    loop closure, whatever the unassigned flag reads. *)
Lemma idle_turn_leaves_the_solver_alone_witness :
  deformation_graph_updates_
    (Demo.backend (Demo.settings_with false true true) Demo.graph_with_room) = None
  ∧ loop_closures
      (shared_dsg_ (Demo.backend (Demo.settings_with false true true)
                      Demo.graph_with_room)) = []
  ∧ ∃ s' : DsgBackend,
      runPgmo true (Demo.backend (Demo.settings_with false true true)
                      Demo.graph_with_room) = Some s'
      ∧ deformation_graph_ s' = []
      ∧ optimize_ran (Demo.backend (Demo.settings_with false true true)
                        Demo.graph_with_room) s' = false.
Proof.
  split; [reflexivity|]. split; [reflexivity|].
  assert (is_Some (runPgmo true (Demo.backend (Demo.settings_with false true true)
                                   Demo.graph_with_room))) as [s' Hturn].
  { apply (bool_decide_unpack _). vm_compute. exact I. }
  exists s'. split; [exact Hturn|].
  destruct (idle_turn_leaves_the_solver_alone true
              (Demo.backend (Demo.settings_with false true true) Demo.graph_with_room)
              s' eq_refl eq_refl eq_refl eq_refl
              (or_intror (or_intror (conj eq_refl (Z.le_refl 0)))) Hturn)
    as (Hcalls & Hopt & _).
  split; [exact Hcalls|exact Hopt].
Defined.

(** The mesh update on a backend whose latest mesh has no vertex. *)
Lemma empty_mesh_is_dropped_witness :
  latest_mesh_is_empty Demo.backend_with_empty_mesh
  ∧ updateDsgMesh Demo.backend_with_empty_mesh =
      with_have_new_mesh_ false Demo.backend_with_empty_mesh
  ∧ deformMesh_ran Demo.backend_with_empty_mesh
      (updateDsgMesh Demo.backend_with_empty_mesh) = false.
Proof.
  assert (latest_mesh_is_empty Demo.backend_with_empty_mesh) as Hempty
    by (by exists []).
  split; [exact Hempty|].
  destruct (empty_mesh_is_dropped Demo.backend_with_empty_mesh Hempty)
    as (Hdrop & Hran & _).
  split; [exact Hdrop|exact Hran].
Defined.

End SolverWorkExamples.

(** ** Nodes in order *)

Section NodesInOrder.
Context `{Geometry} `{!PgmoTypes}.

Lemma omap_lookup_keys (m : gmap N SceneGraphNode) (l : list N) :
  (∀ id, id ∈ l → is_Some (m !! id)) →
  (omap (λ id, (id,.) <$> m !! id) l).*1 = l.
Proof.
  induction l as [|id l IH]; intros Hl; [done|].
  destruct (Hl id) as [n Hn]; [left|].
  cbn. rewrite Hn. cbn. f_equal. apply IH. intros id' Hid'. apply Hl. by right.
Qed.

Lemma sorted_keys_elem_of (m : gmap N SceneGraphNode) (id : N) :
  id ∈ merge_sort N.le (elements (dom m)) ↔ is_Some (m !! id).
Proof. by rewrite merge_sort_Permutation, elem_of_elements, elem_of_dom. Qed.

(** The loop over a layer visits the identifiers of the layer, each
    once and in ascending order. *)
Lemma nodes_in_order_keys (m : gmap N SceneGraphNode) :
  (nodes_in_order m).*1 = merge_sort N.le (elements (dom m)).
Proof.
  apply omap_lookup_keys. intros id. by rewrite sorted_keys_elem_of.
Qed.

Lemma nodes_in_order_NoDup (m : gmap N SceneGraphNode) :
  NoDup (nodes_in_order m).*1.
Proof.
  rewrite nodes_in_order_keys, merge_sort_Permutation. apply NoDup_elements.
Qed.

Lemma elem_of_nodes_in_order (m : gmap N SceneGraphNode) (id : N) (n : SceneGraphNode) :
  (id, n) ∈ nodes_in_order m ↔ m !! id = Some n.
Proof.
  unfold nodes_in_order. rewrite list_elem_of_omap. split.
  - intros (id' & _ & Hn). destruct (m !! id') as [n'|] eqn:Hid'; [|done].
    cbn in Hn. by injection Hn as -> ->.
  - intros Hn. exists id. split.
    + by rewrite sorted_keys_elem_of, Hn.
    + by rewrite Hn.
Qed.

Lemma nodes_in_order_length (m : gmap N SceneGraphNode) :
  length (nodes_in_order m) = size m.
Proof.
  rewrite <- (length_fmap fst), nodes_in_order_keys, merge_sort_Permutation.
  rewrite <- size_dom. done.
Qed.

Lemma nodes_in_order_nil (m : gmap N SceneGraphNode) :
  nodes_in_order m = [] ↔ m = ∅.
Proof.
  rewrite <- length_zero_iff_nil, nodes_in_order_length. apply map_size_empty_iff.
Qed.

(** Two layers with the same identifiers are visited in the same order,
    and what is read off the nodes agrees where the nodes agree on it. *)
Lemma nodes_in_order_ext {A} (f : SceneGraphNode → A) (m m' : gmap N SceneGraphNode) :
  (∀ id, f <$> m !! id = f <$> m' !! id) →
  (λ kv : N * SceneGraphNode, (kv.1, f kv.2)) <$> nodes_in_order m =
  (λ kv : N * SceneGraphNode, (kv.1, f kv.2)) <$> nodes_in_order m'.
Proof.
  intros Hf.
  assert (dom m = dom m') as Hdom.
  { apply set_eq. intros id. rewrite !elem_of_dom, <- !(fmap_is_Some f). by rewrite Hf. }
  unfold nodes_in_order. rewrite Hdom.
  induction (merge_sort N.le (elements (dom m'))) as [|id l IH]; [done|].
  cbn. specialize (Hf id).
  destruct (m !! id) as [n|], (m' !! id) as [n'|]; cbn in *; try done.
  injection Hf as Hf. by rewrite Hf, IH.
Qed.

End NodesInOrder.

(** ** Room detection *)

Section Rooms.
Context `{Geometry} `{!PgmoTypes} `{!Pgmo} `{!DsgCollaborators}.

(** The set [getNodesForRoomDetection] builds. *)
Lemma getNodesForRoomDetection_spec (latest : gset N) (s : DsgBackend)
    (active : gset N) :
  getNodesForRoomDetection latest s = Some active →
  ∃ rooms places,
    getLayer ROOMS (graph (private_dsg_ s)) = Some rooms
    ∧ getLayer PLACES (graph (private_dsg_ s)) = Some places
    ∧ ∀ id, id ∈ active ↔
        (∃ room_id room, rooms !! room_id = Some room ∧ id ∈ children_ room)
        ∨ id ∈ latest
        ∨ (id ∈ unlabeled_place_nodes_ s ∧ is_Some (places !! id)).
Proof.
  unfold getNodesForRoomDetection.
  destruct (getLayer ROOMS _) as [rooms|]; [|done].
  destruct (getLayer PLACES _) as [places|]; [|done].
  cbn. intros [= <-]. exists rooms, places. split; [done|]. split; [done|].
  intros id. rewrite !elem_of_union, elem_of_union_list, elem_of_filter.
  split.
  - intros [[Hlatest|(X & HX & Hid)]|Hunlabeled].
    + by right; left.
    + apply list_elem_of_fmap in HX as ([room_id room] & -> & Hroom).
      apply elem_of_nodes_in_order in Hroom. left. by exists room_id, room.
    + right; right. by destruct Hunlabeled.
  - intros [(room_id & room & Hroom & Hid)|[Hlatest|Hunlabeled]].
    + left; right. exists (children_ room). split; [|done].
      apply list_elem_of_fmap. exists (room_id, room). split; [done|].
      by apply elem_of_nodes_in_order.
    + by left; left.
    + right. by destruct Hunlabeled.
Qed.

(** Room detection goes through whenever the layers it reads exist. *)
Lemma updateRoomsNodes_total (s : DsgBackend) :
  hasLayer ROOMS (graph (private_dsg_ s)) = true →
  hasLayer PLACES (graph (private_dsg_ s)) = true →
  (∀ active, hasLayer PLACES (graph (findRooms (private_dsg_ s) active)) = true) →
  is_Some (updateRoomsNodes s).
Proof.
  intros Hrooms Hplaces Hafter. unfold updateRoomsNodes.
  destruct (room_finder_ (config s)); [|done].
  unfold getNodesForRoomDetection, getLayer. rewrite Hrooms, Hplaces. cbn.
  unfold storeUnlabeledPlaces, getLayer. cbn. by rewrite Hafter.
Qed.


End Rooms.

Section RoomsExamples.
#[local] Existing Instance Demo.geometry.
#[local] Existing Instance Demo.pgmo_types.
#[local] Existing Instance Demo.pgmo.
#[local] Existing Instance Demo.collaborators.


End RoomsExamples.

(** ** Places as temporary structures *)

Section Places.
Context `{Geometry} `{!PgmoTypes} `{!Pgmo} `{!DsgCollaborators}.

(** What the first loop of [addPlacesToDeformationGraph] hands over for
    one place: a temporary node, and a valence if the place is a
    connected leaf. *)
Lemma place_node_calls_one (prefix : N) (mst_info : MinimumSpanningTreeInfo)
    (kv : NodeId * SceneGraphNode) :
  temp_nodes (place_node_calls prefix mst_info kv) =
    [(kv.1, Pose3_at (position (attributes kv.2)))]
  ∧ temp_valences (place_node_calls prefix mst_info kv) =
      (if is_connected_leaf mst_info kv
       then [(kv.1, pcl_mesh_connections (attributes kv.2))] else [])
  ∧ temp_betweens (place_node_calls prefix mst_info kv) = []
  ∧ existsb is_clear (place_node_calls prefix mst_info kv) = false
  ∧ length (place_node_calls prefix mst_info kv) =
      (if is_connected_leaf mst_info kv then 2 else 1)%nat.
Proof.
  destruct kv as [id node]. unfold place_node_calls, is_connected_leaf. cbn.
  destruct (bool_decide (id ∈ leaves mst_info)); [|done].
  by destruct (pcl_mesh_connections (attributes node)).
Qed.

(** And for all places of the loop. *)
Lemma place_node_calls_readings (prefix : N) (mst_info : MinimumSpanningTreeInfo)
    (l : list (NodeId * SceneGraphNode)) :
  temp_nodes (flat_map (place_node_calls prefix mst_info) l) =
    (λ kv : N * SceneGraphNode, (kv.1, Pose3_at (position (attributes kv.2)))) <$> l
  ∧ temp_valences (flat_map (place_node_calls prefix mst_info) l) =
      (λ kv : N * SceneGraphNode, (kv.1, pcl_mesh_connections (attributes kv.2)))
        <$> filter (λ kv, is_connected_leaf mst_info kv = true) l
  ∧ temp_betweens (flat_map (place_node_calls prefix mst_info) l) = []
  ∧ existsb is_clear (flat_map (place_node_calls prefix mst_info) l) = false
  ∧ length (flat_map (place_node_calls prefix mst_info) l) =
      (length l
       + length (filter (λ kv, is_connected_leaf mst_info kv = true) l))%nat.
Proof.
  induction l as [|kv l (IH1 & IH2 & IH3 & IH4 & IH5)]; [done|].
  destruct (place_node_calls_one prefix mst_info kv) as (H1' & H2' & H3' & H4' & H5').
  cbn [flat_map]. unfold temp_nodes, temp_valences, temp_betweens in *.
  rewrite !flat_map_app, existsb_app, length_app.
  rewrite H1', H2', H3', H4', H5', IH1, IH2, IH3, IH4, IH5, filter_cons.
  destruct (is_connected_leaf mst_info kv) eqn:Hleaf.
  - rewrite decide_True by done. repeat split; try done. cbn. lia.
  - rewrite decide_False by done. repeat split; try done.
Qed.

(** What the second loop hands over: one temporary between-factor for
    each edge of the tree, from the positions of its ends. *)
Lemma mst_edge_calls_readings (places : SceneGraphLayer) (l : list Edge)
    (calls : list PgmoCall) :
  mapM (mst_edge_call places) l = Some calls →
  temp_nodes calls = []
  ∧ temp_valences calls = []
  ∧ Forall2
      (λ edge b,
         ∃ source_position target_position,
           getPosition (source edge) places = Some source_position
           ∧ getPosition (target edge) places = Some target_position
           ∧ b = (source edge, target edge,
                  Pose3_between (Pose3_at source_position) (Pose3_at target_position)))
      l (temp_betweens calls)
  ∧ existsb is_clear calls = false
  ∧ length calls = length (temp_betweens calls).
Proof.
  intros Hcalls%mapM_Some.
  induction Hcalls as [|edge c rest calls' Hc _ (IH1 & IH2 & IH3 & IH4 & IH5)].
  - repeat split; constructor.
  - unfold mst_edge_call in Hc.
    destruct (getPosition (source edge) places) as [source_position|] eqn:Hsource;
      [|done].
    destruct (getPosition (target edge) places) as [target_position|] eqn:Htarget;
      [|done].
    injection Hc as <-. cbn. repeat split; try done.
    + constructor; [|done]. by exists source_position, target_position.
    + by rewrite IH5.
Qed.

(** C6, as the code has it.  When the places layer kept by the backend
    has nodes, adding the places to the solver first clears the
    temporary structures, then adds one temporary node for each place
    node (at its position, in ascending order of identifier), a valence
    constraint for each place that is a leaf of the spanning tree and
    has mesh connections, and for no other, and one temporary
    between-factor for each edge of the tree, in the order of the tree;
    it makes no other call.  When the layer has no node the call
    returns at once: nothing is cleared and the backend is as before. *)
Theorem places_become_temporary_structures (s s' : DsgBackend) :
  addPlacesToDeformationGraph s = Some s' →
  (layer_nodes (shared_places_copy_ s) = ∅ → s' = s)
  ∧ (layer_nodes (shared_places_copy_ s) ≠ ∅ →
     ∃ rest,
       deformation_graph_ s' =
         deformation_graph_ s ++ clearTemporaryStructures :: rest
       ∧ calls_since (deformation_graph_ s) s' = clearTemporaryStructures :: rest
       ∧ existsb is_clear rest = false
       ∧ temp_nodes rest =
           (λ kv : N * SceneGraphNode, (kv.1, Pose3_at (position (attributes kv.2))))
             <$> nodes_in_order (layer_nodes (shared_places_copy_ s))
       ∧ temp_valences rest =
           (λ kv : N * SceneGraphNode, (kv.1, pcl_mesh_connections (attributes kv.2)))
             <$> filter
                   (λ kv, is_connected_leaf
                            (getMinimumSpanningEdges (shared_places_copy_ s)) kv = true)
                   (nodes_in_order (layer_nodes (shared_places_copy_ s)))
       ∧ Forall2
           (λ edge b,
              ∃ source_position target_position,
                getPosition (source edge) (shared_places_copy_ s) = Some source_position
                ∧ getPosition (target edge) (shared_places_copy_ s)
                  = Some target_position
                ∧ b = (source edge, target edge,
                       Pose3_between (Pose3_at source_position)
                         (Pose3_at target_position)))
           (mst_edges (getMinimumSpanningEdges (shared_places_copy_ s)))
           (temp_betweens rest)
       ∧ length rest =
           (length (temp_nodes rest) + length (temp_valences rest)
            + length (temp_betweens rest))%nat).
Proof.
  unfold addPlacesToDeformationGraph. intros Hadd.
  case_bool_decide as Hempty.
  - injection Hadd as <-. by split.
  - split; [done|]. intros _.
    destruct (mapM _ _) as [edge_calls|] eqn:Hedges; [|done].
    cbn in Hadd. injection Hadd as <-.
    eexists. split; [reflexivity|]. split.
    { unfold calls_since. cbn. by rewrite drop_app_length. }
    destruct (place_node_calls_readings (robot_vertex_prefix_ (config s))
                (getMinimumSpanningEdges (shared_places_copy_ s))
                (nodes_in_order (layer_nodes (shared_places_copy_ s))))
      as (Hn1 & Hn2 & Hn3 & Hn4 & Hn5).
    destruct (mst_edge_calls_readings _ _ _ Hedges) as (He1 & He2 & He3 & He4 & He5).
    unfold temp_nodes, temp_valences, temp_betweens in *.
    rewrite existsb_app, !flat_map_app, !length_app.
    rewrite Hn1, Hn2, Hn3, Hn4, He1, He2, He4, Hn5, He5, !app_nil_r, !length_fmap.
    repeat split; try done. cbn. lia.
Qed.

(** The call goes through as soon as the edges of the tree run between
    nodes of the layer. *)
Lemma addPlacesToDeformationGraph_total (s : DsgBackend) :
  Forall (λ edge,
            is_Some (layer_nodes (shared_places_copy_ s) !! source edge)
            ∧ is_Some (layer_nodes (shared_places_copy_ s) !! target edge))
    (mst_edges (getMinimumSpanningEdges (shared_places_copy_ s))) →
  is_Some (addPlacesToDeformationGraph s).
Proof.
  intros Hedges. unfold addPlacesToDeformationGraph. case_bool_decide; [done|].
  destruct (mapM _ _) as [edge_calls|] eqn:Hcalls; [done|].
  apply mapM_None in Hcalls. apply Exists_exists in Hcalls as (edge & Hedge & Hnone).
  rewrite Forall_forall in Hedges. destruct (Hedges edge Hedge) as [[sn Hs] [tn Ht]].
  unfold mst_edge_call, getPosition in Hnone. by rewrite Hs, Ht in Hnone.
Qed.

End Places.

Section PlacesExamples.
#[local] Existing Instance Demo.geometry.
#[local] Existing Instance Demo.pgmo_types.
#[local] Existing Instance Demo.pgmo.
#[local] Existing Instance Demo.collaborators.

(** C6 as stated fails: with no node in the places layer the temporary
    structures of an earlier optimisation are not cleared. *)
Lemma empty_places_layer_clears_nothing :
  addPlacesToDeformationGraph Demo.backend_without_places
    = Some Demo.backend_without_places
  ∧ deformation_graph_ Demo.backend_without_places
    = [addNewTempNode (Demo.place 0) (Demo.located (Demo.xyz 0 0 0)) false]
  ∧ calls_since (deformation_graph_ Demo.backend_without_places)
      Demo.backend_without_places = [].
Proof. repeat split; vm_compute; reflexivity. Qed.

(** The three places of the demo graph, chained: three temporary nodes,
    valences at the two ends of the chain (the place in the middle has
    no mesh connection and is no leaf), two between-factors. *)
Lemma places_become_temporary_structures_witness :
  ∃ s' : DsgBackend,
    addPlacesToDeformationGraph (Demo.backend Demo.settings Demo.graph_with_room)
      = Some s'
    ∧ deformation_graph_ s' = Demo.expected_place_calls
    ∧ ∃ rest, deformation_graph_ s' = clearTemporaryStructures :: rest
              ∧ existsb is_clear rest = false
              ∧ length (temp_nodes rest) = 3%nat.
Proof.
  assert (deformation_graph_
            <$> addPlacesToDeformationGraph
                  (Demo.backend Demo.settings Demo.graph_with_room)
          = Some Demo.expected_place_calls)
    as (s' & Hadd & Hcalls)%fmap_Some by (vm_compute; reflexivity).
  exists s'. split; [exact Hadd|].
  split; [by symmetry|].
  destruct (places_become_temporary_structures _ s' Hadd) as [_ Hfull].
  destruct Hfull as (rest & Hrest & _ & Hclear & Hnodes & _).
  { intros Hempty. apply (f_equal (λ m, m !! Demo.place 0)) in Hempty.
    vm_compute in Hempty. discriminate Hempty. }
  exists rest. split; [exact Hrest|]. split; [exact Hclear|].
  rewrite Hnodes, length_fmap, nodes_in_order_length. reflexivity.
Defined.

End PlacesExamples.

(** * Buildings *)

Section Buildings.
Context `{Geometry} `{!PgmoTypes} `{!Pgmo} `{!DsgCollaborators}.

Lemma getLayer_lookup (l : LayerId) (g : DynamicSceneGraph)
    (m : gmap N SceneGraphNode) (id : N) (n : SceneGraphNode) :
  getLayer l g = Some m →
  m !! id = Some n ↔ graph_nodes g !! id = Some n ∧ layer n = l.
Proof.
  unfold getLayer. destruct (hasLayer l g); [|done]. intros [= <-].
  by rewrite map_lookup_filter_Some.
Qed.

Lemma getLayer_Some (l : LayerId) (g : DynamicSceneGraph) :
  hasLayer l g = true →
  getLayer l g = Some (filter (λ kv, layer kv.2 = l) (graph_nodes g)).
Proof. intros Hl. unfold getLayer. by rewrite Hl. Qed.

(** One edge from a building node to a room that has no parent or hangs
    under that node already. *)
Lemma insertEdge_room (b r : NodeId) (g : DynamicSceneGraph) (bn rn : SceneGraphNode) :
  graph_nodes g !! b = Some bn → layer bn = BUILDINGS →
  graph_nodes g !! r = Some rn → layer rn = ROOMS →
  parent_ rn = None ∨ (parent_ rn = Some b ∧ r ∈ children_ bn) →
  layer_ids (insertEdge b r g) = layer_ids g
  ∧ (∀ id, id ≠ b → id ≠ r →
       graph_nodes (insertEdge b r g) !! id = graph_nodes g !! id)
  ∧ (∃ bn', graph_nodes (insertEdge b r g) !! b = Some bn'
            ∧ layer bn' = BUILDINGS ∧ attributes bn' = attributes bn
            ∧ parent_ bn' = parent_ bn
            ∧ children_ bn' = children_ bn ∪ {[r]})
  ∧ (∃ rn', graph_nodes (insertEdge b r g) !! r = Some rn'
            ∧ layer rn' = ROOMS ∧ attributes rn' = attributes rn
            ∧ children_ rn' = children_ rn ∧ parent_ rn' = Some b).
Proof.
  intros Hb Hbl Hr Hrl Hparent.
  assert (b ≠ r) as Hbr.
  { intros ->. rewrite Hb in Hr. injection Hr as ->. by rewrite Hbl in Hrl. }
  unfold insertEdge. rewrite Hb, Hr, Hrl, Hbl. cbn [layer_above].
  rewrite bool_decide_eq_true_2 by done.
  destruct Hparent as [Hnone|[Hsome Hchild]].
  - rewrite Hnone. cbn. split; [done|]. split; [|split].
    + intros id ? ?. by rewrite !lookup_insert_ne.
    + exists (add_child r bn). rewrite lookup_insert_ne, lookup_insert_eq by done.
      done.
    + exists (set_parent b rn). by rewrite lookup_insert_eq.
  - rewrite Hsome. split; [done|]. split; [done|]. split.
    + exists bn. repeat split; try done. symmetry. rewrite (comm_L (∪)).
      by apply subseteq_union_1_L, singleton_subseteq_l.
    + by exists rn.
Qed.

Lemma insert_room_edges_spec (b : NodeId) (rooms : list (NodeId * SceneGraphNode))
    (g : DynamicSceneGraph) (bn : SceneGraphNode) :
  NoDup rooms.*1 →
  graph_nodes g !! b = Some bn → layer bn = BUILDINGS →
  (∀ r, r ∈ rooms.*1 →
     ∃ rn, graph_nodes g !! r = Some rn ∧ layer rn = ROOMS
           ∧ (parent_ rn = None ∨ (parent_ rn = Some b ∧ r ∈ children_ bn))) →
  layer_ids (insert_room_edges b rooms g) = layer_ids g
  ∧ (∀ id, id ≠ b → id ∉ rooms.*1 →
       graph_nodes (insert_room_edges b rooms g) !! id = graph_nodes g !! id)
  ∧ (∃ bn', graph_nodes (insert_room_edges b rooms g) !! b = Some bn'
            ∧ layer bn' = BUILDINGS ∧ attributes bn' = attributes bn
            ∧ parent_ bn' = parent_ bn
            ∧ children_ bn' = children_ bn ∪ list_to_set rooms.*1)
  ∧ (∀ r, r ∈ rooms.*1 →
       ∃ rn rn', graph_nodes g !! r = Some rn
                 ∧ graph_nodes (insert_room_edges b rooms g) !! r = Some rn'
                 ∧ layer rn' = ROOMS ∧ attributes rn' = attributes rn
                 ∧ children_ rn' = children_ rn ∧ parent_ rn' = Some b).
Proof.
  revert g bn. induction rooms as [|[r n0] rooms IH]; intros g bn Hdup Hb Hbl Hrooms.
  - cbn. split; [done|]. split; [done|]. split.
    + exists bn. repeat split; try done. cbn. by rewrite (right_id_L ∅ (∪)).
    + intros r Hr. by apply elem_of_nil in Hr.
  - cbn [fmap list_fmap fst] in *. apply NoDup_cons in Hdup as [Hfresh Hdup].
    destruct (Hrooms r) as (rn & Hr & Hrl & Hparent); [left|].
    destruct (insertEdge_room b r g bn rn Hb Hbl Hr Hrl Hparent)
      as (Hlayers1 & Hother1 & (bn1 & Hb1 & Hbl1 & Hba1 & Hbp1 & Hbc1)
          & (rn1 & Hr1 & Hrl1 & Hra1 & Hrc1 & Hrp1)).
    assert (b ≠ r) as Hbr.
    { intros ->. rewrite Hb in Hr. injection Hr as ->. by rewrite Hbl in Hrl. }
    destruct (IH (insertEdge b r g) bn1 Hdup Hb1 Hbl1)
      as (Hlayers & Hother & (bn' & Hb' & Hbl' & Hba' & Hbp' & Hbc') & Hlinked).
    { intros r' Hr'. destruct (Hrooms r') as (rn' & Hr'' & Hrl' & Hparent'); [by right|].
      assert (r' ≠ r) by (by intros ->).
      assert (r' ≠ b).
      { intros ->. rewrite Hb in Hr''. injection Hr'' as ->. by rewrite Hbl in Hrl'. }
      exists rn'. rewrite Hother1 by done. split; [done|]. split; [done|].
      destruct Hparent' as [?|[? ?]]; [by left|]. right. split; [done|].
      rewrite Hbc1. by apply elem_of_union_l. }
    cbn [insert_room_edges foldl fst]. fold (insert_room_edges b rooms (insertEdge b r g)).
    split; [by rewrite Hlayers|]. split; [|split].
    + intros id Hidb Hid. apply not_elem_of_cons in Hid as [? ?].
      rewrite Hother by done. by apply Hother1.
    + exists bn'. rewrite Hba', Hbp', Hbc', Hbc1. repeat split; try done.
      cbn. by rewrite (assoc_L (∪)).
    + intros r' [->|Hr']%elem_of_cons.
      * exists rn, rn1. rewrite Hother by done. by rewrite <- Hra1, <- Hrc1.
      * destruct (Hlinked r' Hr') as (rn0 & rn' & Hrn0 & ? & ? & Hattr & Hchildren & ?).
        assert (r' ≠ r) by (by intros ->).
        assert (r' ≠ b).
        { intros ->. destruct (Hrooms b) as (x & Hx & Hxl & _); [by right|].
          rewrite Hb in Hx. injection Hx as ->. by rewrite Hbl in Hxl. }
        rewrite Hother1 in Hrn0 by done. by exists rn0, rn'.
Qed.

Lemma rooms_centroid_ext (m m' : gmap N SceneGraphNode) :
  (∀ id, (λ n, position (attributes n)) <$> m !! id =
         (λ n, position (attributes n)) <$> m' !! id) →
  rooms_centroid m = rooms_centroid m'.
Proof.
  intros Hsame.
  pose proof (nodes_in_order_ext (λ n, position (attributes n)) m m' Hsame) as Hlist.
  unfold rooms_centroid, size_of.
  rewrite <- (length_fmap (λ kv : N * SceneGraphNode, (kv.1, position (attributes kv.2)))
               (nodes_in_order m)).
  rewrite <- (length_fmap (λ kv : N * SceneGraphNode, (kv.1, position (attributes kv.2)))
               (nodes_in_order m')).
  rewrite Hlist. f_equal.
  transitivity (foldl (λ centroid (p : N * Vector3d), Vector3d_add centroid p.2)
                  Vector3d_Zero
                  ((λ kv : N * SceneGraphNode, (kv.1, position (attributes kv.2)))
                     <$> nodes_in_order m)).
  - by rewrite foldl_fmap.
  - by rewrite Hlist, foldl_fmap.
Qed.

(** The centroid the building step computes is the mean of the
    positions of the layer. *)
Lemma rooms_centroid_mean (rooms_layer : gmap N SceneGraphNode) :
  rooms_centroid rooms_layer = mean_position (positions_of rooms_layer).
Proof.
  unfold rooms_centroid, mean_position, positions_of, size_of.
  by rewrite foldl_fmap, length_fmap.
Qed.

Lemma removeNode_lookup (b id : NodeId) (g : DynamicSceneGraph) :
  graph_nodes (removeNode b g) !! id =
  if decide (b = id) then None else forget_node b <$> graph_nodes g !! id.
Proof.
  unfold removeNode. cbn. rewrite lookup_fmap, lookup_delete. by case_decide.
Qed.

Lemma hasNode_true (id : NodeId) (g : DynamicSceneGraph) :
  hasNode id g = true ↔ is_Some (graph_nodes g !! id).
Proof. unfold hasNode. apply bool_decide_eq_true. Qed.

Lemma hasNode_false (id : NodeId) (g : DynamicSceneGraph) :
  hasNode id g = false ↔ graph_nodes g !! id = None.
Proof.
  unfold hasNode. rewrite bool_decide_eq_false, <- eq_None_not_Some. done.
Qed.

(** The loop over the rooms, from a graph [g1] that differs from [g]
    in the building node only: afterwards every room hangs under the
    building node, and is otherwise as it was. *)
Lemma rooms_linked (b : NodeId) (g g1 : DynamicSceneGraph) (bn : SceneGraphNode) :
  hasLayer ROOMS g = true →
  hasLayer BUILDINGS g = true →
  (∀ bn0, graph_nodes g !! b = Some bn0 → layer bn0 = BUILDINGS) →
  graph_nodes g1 !! b = Some bn →
  layer bn = BUILDINGS →
  layer_ids g1 = layer_ids g →
  (∀ id, id ≠ b → graph_nodes g1 !! id = graph_nodes g !! id) →
  (∀ r rn, graph_nodes g !! r = Some rn → layer rn = ROOMS →
     parent_ rn = None ∨ (parent_ rn = Some b ∧ r ∈ children_ bn)) →
  ∃ bn' rooms',
    graph_nodes
      (insert_room_edges b
         (nodes_in_order (filter (λ kv, layer kv.2 = ROOMS) (graph_nodes g))) g1) !! b
      = Some bn'
    ∧ layer bn' = BUILDINGS
    ∧ attributes bn' = attributes bn
    ∧ getLayer ROOMS
        (insert_room_edges b
           (nodes_in_order (filter (λ kv, layer kv.2 = ROOMS) (graph_nodes g))) g1)
      = Some rooms'
    ∧ (∀ id, attributes <$> rooms' !! id =
             attributes <$> filter (λ kv, layer kv.2 = ROOMS) (graph_nodes g) !! id)
    ∧ rooms_are_children_of b
        (insert_room_edges b
           (nodes_in_order (filter (λ kv, layer kv.2 = ROOMS) (graph_nodes g))) g1)
    ∧ building_hierarchy b
        (insert_room_edges b
           (nodes_in_order (filter (λ kv, layer kv.2 = ROOMS) (graph_nodes g))) g1).
Proof.
  intros Hrooms Hbuildings Hid Hb Hbl Hlayers1 Hother1 Hhang1.
  set (rooms := filter (λ kv, layer kv.2 = ROOMS) (graph_nodes g)).
  assert (Hin : ∀ id n, rooms !! id = Some n ↔ graph_nodes g !! id = Some n ∧ layer n = ROOMS).
  { intros id n. unfold rooms. by rewrite map_lookup_filter_Some. }
  assert (Hroom_id : ∀ r rn, graph_nodes g !! r = Some rn → layer rn = ROOMS → r ≠ b).
  { intros r rn Hrn Hl ->. rewrite (Hid _ Hrn) in Hl. done. }
  destruct (insert_room_edges_spec b (nodes_in_order rooms) g1 bn
              (nodes_in_order_NoDup rooms) Hb Hbl)
    as (Hlayers & Hother & (bn' & Hb' & Hbl' & Hba' & _ & Hbc') & Hlinked).
  { intros r Hr. apply list_elem_of_fmap in Hr as ([r' rn] & -> & Hrn).
    apply elem_of_nodes_in_order, Hin in Hrn as [Hrn Hl]. cbn.
    exists rn. rewrite Hother1 by (by apply (Hroom_id r' rn)).
    split; [done|]. split; [done|]. by apply (Hhang1 r'). }
  set (g' := insert_room_edges b (nodes_in_order rooms) g1) in *.
  assert (Hkeys : ∀ r, r ∈ (nodes_in_order rooms).*1 ↔ is_Some (rooms !! r)).
  { intros r. by rewrite nodes_in_order_keys, sorted_keys_elem_of. }
  assert (Hrooms' : hasLayer ROOMS g' = true).
  { unfold hasLayer in *. by rewrite Hlayers, Hlayers1. }
  assert (Hafter : ∀ r rn', graph_nodes g' !! r = Some rn' → layer rn' = ROOMS →
            ∃ rn, rooms !! r = Some rn ∧ attributes rn' = attributes rn
                  ∧ parent_ rn' = Some b).
  { intros r rn' Hr' Hl'.
    assert (r ≠ b) by (intros ->; rewrite Hb' in Hr'; injection Hr' as <-;
                       by rewrite Hbl' in Hl').
    destruct (decide (r ∈ (nodes_in_order rooms).*1)) as [Hr|Hr].
    - destruct (Hlinked r Hr) as (rn & rn'' & Hrn & Hrn'' & _ & ? & _ & ?).
      rewrite Hr' in Hrn''. injection Hrn'' as <-.
      rewrite Hother1 in Hrn by done. exists rn. split; [|done].
      apply Hkeys in Hr as [x Hx]. pose proof Hx as Hx'. apply Hin in Hx' as [Hx' _].
      rewrite Hrn in Hx'. by injection Hx' as ->.
    - rewrite Hother, Hother1 in Hr' by done.
      exfalso. apply Hr, Hkeys. exists rn'. by apply Hin. }
  assert (Hchild : ∀ r rn', graph_nodes g' !! r = Some rn' → layer rn' = ROOMS →
            parent_ rn' = Some b
            ∧ ∃ bn0, graph_nodes g' !! b = Some bn0 ∧ r ∈ children_ bn0).
  { intros r rn' Hr' Hl'. destruct (Hafter r rn' Hr' Hl') as (rn & Hrn & _ & ?).
    split; [done|]. exists bn'. split; [done|]. rewrite Hbc'.
    apply elem_of_union_r, elem_of_list_to_set, Hkeys. eauto. }
  exists bn', (filter (λ kv, layer kv.2 = ROOMS) (graph_nodes g')).
  split; [done|]. split; [done|]. split; [done|].
  split; [by apply getLayer_Some|]. split; [|split; [exact Hchild|]].
  - intros id.
    destruct (filter (λ kv, layer kv.2 = ROOMS) (graph_nodes g') !! id)
      as [rn'|] eqn:Hrn'.
    + apply map_lookup_filter_Some in Hrn' as [Hrn' Hl'].
      destruct (Hafter id rn' Hrn' Hl') as (rn & -> & Hsame & _). cbn.
      f_equal. exact Hsame.
    + destruct (rooms !! id) as [rn|] eqn:Hrn; [|done]. exfalso.
      assert (id ∈ (nodes_in_order rooms).*1) as Hid' by (apply Hkeys; eauto).
      destruct (Hlinked id Hid') as (_ & rn' & _ & Hrn'' & Hl'' & _).
      apply map_lookup_filter_None in Hrn' as [Hrn'|Hrn'].
      * by rewrite Hrn'' in Hrn'.
      * by apply (Hrn' rn').
  - split; [unfold hasLayer in *; by rewrite Hlayers, Hlayers1|]. split.
    + intros bn'' Hbn''. rewrite Hb' in Hbn''. by injection Hbn'' as <-.
    + intros r rn' Hr' Hl'. right. by apply Hchild.
Qed.

(** The building step of the incremental backend, on a graph. *)
Lemma updateBuildingNode_graph_spec (building_color : NodeColor) (g : DynamicSceneGraph) :
  hasLayer ROOMS g = true →
  building_hierarchy building_node_id g →
  ∃ g' rooms rooms',
    updateBuildingNode_graph building_color g = Some g'
    ∧ getLayer ROOMS g = Some rooms
    ∧ getLayer ROOMS g' = Some rooms'
    ∧ (∀ id, attributes <$> rooms' !! id = attributes <$> rooms !! id)
    ∧ (hasNode building_node_id g' = true ↔ rooms' ≠ ∅)
    ∧ (∀ bn, graph_nodes g' !! building_node_id = Some bn →
         layer bn = BUILDINGS
         ∧ position (attributes bn) = rooms_centroid rooms')
    ∧ rooms_are_children_of building_node_id g'
    ∧ building_hierarchy building_node_id g'.
Proof.
  intros Hrooms (Hbuildings & Hid & Hhang).
  unfold updateBuildingNode_graph. rewrite (getLayer_Some ROOMS g Hrooms).
  cbn [mbind option_bind]. cbv zeta.
  set (b := building_node_id) in *.
  set (rooms := filter (λ kv, layer kv.2 = ROOMS) (graph_nodes g)).
  assert (Hin : ∀ id n, rooms !! id = Some n ↔ graph_nodes g !! id = Some n ∧ layer n = ROOMS).
  { intros id n. unfold rooms. by rewrite map_lookup_filter_Some. }
  destruct (size_of (nodes_in_order rooms) =? 0) eqn:Hsize.
  - (* no room *)
    assert (rooms = ∅) as Hempty.
    { apply nodes_in_order_nil. apply Z.eqb_eq in Hsize. unfold size_of in Hsize.
      apply length_zero_iff_nil. lia. }
    assert (Hnone : ∀ id n, graph_nodes g !! id = Some n → layer n ≠ ROOMS).
    { intros id n Hn Hl. assert (rooms !! id = Some n) as Hr by (by apply Hin).
      by rewrite Hempty in Hr. }
    set (g' := if hasNode b g then removeNode b g else g).
    assert (Hlayers : layer_ids g' = layer_ids g).
    { unfold g'. by destruct (hasNode b g). }
    assert (Hnone' : ∀ id n, graph_nodes g' !! id = Some n → layer n ≠ ROOMS).
    { intros id n. unfold g'. destruct (hasNode b g); [|by apply Hnone].
      rewrite removeNode_lookup. case_decide; [done|].
      destruct (graph_nodes g !! id) as [n0|] eqn:Hn0; [|done].
      cbn. intros [= <-]. cbn. by apply (Hnone id). }
    assert (Hgone : graph_nodes g' !! b = None).
    { unfold g'. destruct (hasNode b g) eqn:Hhas.
      - rewrite removeNode_lookup. by rewrite decide_True.
      - by apply hasNode_false. }
    assert (Hrooms' : hasLayer ROOMS g' = true).
    { unfold hasLayer in *. by rewrite Hlayers. }
    exists g', rooms, (filter (λ kv, layer kv.2 = ROOMS) (graph_nodes g')).
    assert (filter (λ kv, layer kv.2 = ROOMS) (graph_nodes g') = ∅) as Hempty'.
    { apply map_empty. intros id. apply map_lookup_filter_None. right.
      intros n Hn. by apply (Hnone' id). }
    split; [done|]. split; [done|]. split; [by apply getLayer_Some|].
    rewrite Hempty', Hempty. split; [done|]. split.
    { split; [|done]. intros Hhas%hasNode_true. rewrite Hgone in Hhas.
      by destruct Hhas. }
    split; [by rewrite Hgone|]. split.
    { intros r rn Hr Hl. by destruct (Hnone' r rn). }
    split; [unfold hasLayer in *; by rewrite Hlayers|]. split.
    { by rewrite Hgone. }
    intros r rn Hr Hl. by destruct (Hnone' r rn).
  - (* some rooms *)
    assert (rooms ≠ ∅) as Hsome.
    { intros Hempty. rewrite Hempty in Hsize. done. }
    set (centroid := rooms_centroid rooms).
    set (g1 := if negb (hasNode b g) then _ else _).
    assert (∃ bn, graph_nodes g1 !! b = Some bn ∧ layer bn = BUILDINGS
                  ∧ position (attributes bn) = centroid
                  ∧ layer_ids g1 = layer_ids g
                  ∧ (∀ id, id ≠ b → graph_nodes g1 !! id = graph_nodes g !! id)
                  ∧ (∀ r rn, graph_nodes g !! r = Some rn → layer rn = ROOMS →
                       parent_ rn = None ∨ (parent_ rn = Some b ∧ r ∈ children_ bn)))
      as (bn & Hb & Hbl & Hbp & Hlayers1 & Hother1 & Hhang1).
    { unfold g1. destruct (hasNode b g) eqn:Hhas; cbn [negb].
      - apply hasNode_true in Hhas as [bn0 Hbn0].
        exists (set_position centroid bn0). cbn. rewrite lookup_alter_eq, Hbn0. cbn.
        split; [done|]. split; [by apply Hid|]. split; [done|]. split; [done|]. split.
        + intros id ?. by rewrite lookup_alter_ne.
        + intros r rn Hr Hl. destruct (Hhang r rn Hr Hl) as [?|[? (bn & Hbn & ?)]];
            [by left|]. right. rewrite Hbn0 in Hbn. by injection Hbn as <-.
      - apply hasNode_false in Hhas. unfold emplaceNode.
        rewrite Hbuildings. unfold hasNode. rewrite bool_decide_eq_false_2; cbn.
        2:{ rewrite Hhas. by intros [? ?]. }
        eexists. rewrite lookup_insert_eq. split; [done|]. split; [done|].
        split; [done|]. split; [done|]. split.
        + intros id ?. by rewrite lookup_insert_ne.
        + intros r rn Hr Hl. destruct (Hhang r rn Hr Hl) as [?|[? (bn & Hbn & ?)]];
            [by left|]. by rewrite Hhas in Hbn. }
    destruct (rooms_linked b g g1 bn Hrooms Hbuildings Hid Hb Hbl Hlayers1 Hother1 Hhang1)
      as (bn' & rooms' & Hb' & Hbl' & Hba' & Hrooms' & Hattr & Hchildren & Hhierarchy).
    fold rooms in Hb', Hrooms', Hattr, Hchildren, Hhierarchy |- *.
    exists (insert_room_edges b (nodes_in_order rooms) g1), rooms, rooms'.
    split; [done|]. split; [done|]. split; [done|]. split; [exact Hattr|]. split.
    { split.
      - intros _ Hempty'. apply Hsome. apply map_empty. intros id.
        specialize (Hattr id). rewrite Hempty', lookup_empty in Hattr.
        by destruct (rooms !! id).
      - intros _. apply hasNode_true. by rewrite Hb'. }
    split; [|done].
    intros bn'' Hbn''. rewrite Hb' in Hbn''. injection Hbn'' as <-.
    split; [done|]. rewrite Hba', Hbp. unfold centroid. symmetry.
    apply rooms_centroid_ext. intros id. specialize (Hattr id).
    destruct (rooms' !! id), (rooms !! id); cbn in *; try done.
    injection Hattr as Hattr. f_equal. by apply (f_equal position) in Hattr.
Qed.

(** The batch building finder, on a graph. *)
Lemma findBuildings_spec (color : NodeColor) (g : DynamicSceneGraph) :
  hasLayer ROOMS g = true →
  building_hierarchy building_id g →
  ∃ g' rooms rooms' bn,
    findBuildings color g = Some g'
    ∧ getLayer ROOMS g = Some rooms
    ∧ getLayer ROOMS g' = Some rooms'
    ∧ (∀ id, attributes <$> rooms' !! id = attributes <$> rooms !! id)
    ∧ graph_nodes g' !! building_id = Some bn
    ∧ layer bn = BUILDINGS
    ∧ (graph_nodes g !! building_id = None →
       attributes bn =
         {| position :=
              Centroid_get
                ((λ kv : N * SceneGraphNode, position (attributes kv.2))
                   <$> nodes_in_order rooms);
            color := color;
            semantic_label := kBuildingSemanticLabel;
            name := to_string building_id;
            pcl_mesh_connections := [] |})
    ∧ rooms_are_children_of building_id g'
    ∧ building_hierarchy building_id g'.
Proof.
  intros Hrooms (Hbuildings & Hid & Hhang).
  unfold findBuildings. rewrite Hrooms, (getLayer_Some ROOMS g Hrooms).
  cbn [negb mbind option_bind]. cbv zeta.
  set (b := building_id) in *.
  set (rooms := filter (λ kv, layer kv.2 = ROOMS) (graph_nodes g)).
  set (g1 := emplaceNode BUILDINGS b _ g).
  assert (∃ bn, graph_nodes g1 !! b = Some bn ∧ layer bn = BUILDINGS
                ∧ (graph_nodes g !! b = None →
                   attributes bn =
                     {| position :=
                          Centroid_get
                            ((λ kv : N * SceneGraphNode, position (attributes kv.2))
                               <$> nodes_in_order rooms);
                        color := color;
                        semantic_label := kBuildingSemanticLabel;
                        name := to_string b;
                        pcl_mesh_connections := [] |})
                ∧ layer_ids g1 = layer_ids g
                ∧ (∀ id, id ≠ b → graph_nodes g1 !! id = graph_nodes g !! id)
                ∧ (∀ r rn, graph_nodes g !! r = Some rn → layer rn = ROOMS →
                     parent_ rn = None ∨ (parent_ rn = Some b ∧ r ∈ children_ bn)))
    as (bn & Hb & Hbl & Hnew & Hlayers1 & Hother1 & Hhang1).
  { unfold g1, emplaceNode. rewrite Hbuildings. cbn [andb].
    destruct (hasNode b g) eqn:Hhas; cbn [negb].
    - apply hasNode_true in Hhas as [bn0 Hbn0]. exists bn0.
      split; [done|]. split; [by apply Hid|]. split; [by rewrite Hbn0|].
      split; [done|]. split; [done|].
      intros r rn Hr Hl. destruct (Hhang r rn Hr Hl) as [?|[? (bn & Hbn & ?)]];
        [by left|]. right. rewrite Hbn0 in Hbn. by injection Hbn as <-.
    - apply hasNode_false in Hhas. eexists. cbn. rewrite lookup_insert_eq.
      split; [done|]. split; [done|]. split; [done|]. split; [done|]. split.
      + intros id ?. by rewrite lookup_insert_ne.
      + intros r rn Hr Hl. destruct (Hhang r rn Hr Hl) as [?|[? (bn & Hbn & ?)]];
          [by left|]. by rewrite Hhas in Hbn. }
  destruct (rooms_linked b g g1 bn Hrooms Hbuildings Hid Hb Hbl Hlayers1 Hother1 Hhang1)
    as (bn' & rooms' & Hb' & Hbl' & Hba' & Hrooms' & Hattr & Hchildren & Hhierarchy).
  fold rooms in Hb', Hrooms', Hattr, Hchildren, Hhierarchy |- *.
  exists (insert_room_edges b (nodes_in_order rooms) g1), rooms, rooms', bn'.
  split; [done|]. split; [done|]. split; [done|]. split; [exact Hattr|].
  split; [done|]. split; [done|]. split; [|done].
  intros Hfresh. rewrite Hba'. by apply Hnew.
Qed.
(** A check of [building_hierarchy] that can be run on a given graph. *)
Lemma building_hierarchy_checked (b : NodeId) (g : DynamicSceneGraph) :
  hasLayer BUILDINGS g = true →
  from_option (λ bn, bool_decide (layer bn = BUILDINGS)) true (graph_nodes g !! b) = true →
  map_Forall
    (λ r rn, layer rn = ROOMS →
       parent_ rn = None
       ∨ (parent_ rn = Some b ∧ r ∈ from_option children_ ∅ (graph_nodes g !! b)))
    (graph_nodes g) →
  building_hierarchy b g.
Proof.
  intros Hbuildings Hb Hall. split; [done|]. split.
  - intros bn Hbn. rewrite Hbn in Hb. cbn in Hb. by apply bool_decide_eq_true in Hb.
  - intros r rn Hr Hl. destruct (Hall r rn Hr Hl) as [?|[? Hchild]]; [by left|].
    right. split; [done|]. destruct (graph_nodes g !! b) as [bn|];
      [|by apply elem_of_empty in Hchild].
    by exists bn.
Qed.

(** Without a room the incremental step leaves no building node. *)
Lemma updateBuildingNode_graph_no_rooms (building_color : NodeColor)
    (g : DynamicSceneGraph) :
  getLayer ROOMS g = Some ∅ →
  ∃ g', updateBuildingNode_graph building_color g = Some g'
        ∧ hasNode building_node_id g' = false.
Proof.
  intros Hrooms. unfold updateBuildingNode_graph. rewrite Hrooms.
  cbn [mbind option_bind].
  replace (size_of (nodes_in_order (∅ : gmap N SceneGraphNode)) =? 0) with true
    by (symmetry; apply Z.eqb_eq; unfold size_of;
        by rewrite (proj2 (nodes_in_order_nil ∅) eq_refl)).
  destruct (hasNode building_node_id g) eqn:Hhas; eexists; (split; [done|]); [|done].
  apply not_true_is_false. intros [x Hx]%hasNode_true.
  rewrite removeNode_lookup, decide_True in Hx by done. done.
Qed.

(** C5. The building step of a turn, on a private graph that has a rooms
    and a buildings layer, whose building identifier names no node
    outside the buildings layer, and whose rooms have no parent other
    than the building node.  The step returns.  It leaves the rooms layer
    with the same rooms and the same attributes.  Afterwards the building
    node [NodeSymbol('B', 0)] is in the graph exactly when the rooms
    layer has a node; when it is there, it is a node of the buildings
    layer, its position is the mean of the positions of all rooms (their
    sum from zero in ascending order of identifier, divided by their
    number), and every room has it as parent and is among its children.
    The graph it leaves is again one the step of the next turn can start
    from. *)
Theorem building_node_follows_the_rooms (s : DsgBackend) :
  hasLayer ROOMS (graph (private_dsg_ s)) = true →
  building_hierarchy building_node_id (graph (private_dsg_ s)) →
  ∃ s' rooms rooms',
    updateBuildingNode s = Some s'
    ∧ getLayer ROOMS (graph (private_dsg_ s)) = Some rooms
    ∧ getLayer ROOMS (graph (private_dsg_ s')) = Some rooms'
    ∧ (∀ id, attributes <$> rooms' !! id = attributes <$> rooms !! id)
    ∧ (hasNode building_node_id (graph (private_dsg_ s')) = true ↔ rooms' ≠ ∅)
    ∧ (∀ bn, graph_nodes (graph (private_dsg_ s')) !! building_node_id = Some bn →
         layer bn = BUILDINGS
         ∧ position (attributes bn) = mean_position (positions_of rooms')
         ∧ rooms_are_children_of building_node_id (graph (private_dsg_ s')))
    ∧ hasLayer ROOMS (graph (private_dsg_ s')) = true
    ∧ building_hierarchy building_node_id (graph (private_dsg_ s')).
Proof.
  intros Hrooms Hhierarchy.
  destruct (updateBuildingNode_graph_spec (building_color_ (config s))
              (graph (private_dsg_ s)) Hrooms Hhierarchy)
    as (g' & rooms & rooms' & Hstep & Hbefore & Hafter & Hattr & Hiff & Hnode
        & Hchildren & Hhierarchy').
  unfold updateBuildingNode. rewrite Hstep. cbn [mbind option_bind].
  eexists _, rooms, rooms'. split; [reflexivity|]. cbn.
  split; [done|]. split; [done|]. split; [done|]. split; [done|]. split.
  - intros bn Hbn. destruct (Hnode bn Hbn) as [? Hposition]. split; [done|].
    split; [|done]. by rewrite Hposition, rooms_centroid_mean.
  - split; [|done]. unfold getLayer in Hafter.
    by destruct (hasLayer ROOMS g').
Qed.

(** C10. The batch building finder, on a graph that has a rooms and a
    buildings layer, where [NodeSymbol('B', 1)] names no node outside the
    buildings layer, and whose rooms have no parent other than
    [NodeSymbol('B', 1)].  It returns, and whatever the number of rooms,
    zero included, node [NodeSymbol('B', 1)] is then in the graph, in the
    buildings layer, and every room has it as parent and is among its
    children.  A node it created has the centroid the accumulator reports
    for the room positions, of no position at all when there is no room,
    with the colour given, the building label and the identifier as name.
    On a graph without rooms the step of the incremental backend, on the
    contrary, leaves no building node. *)
Theorem findBuildings_always_makes_a_building (color : NodeColor)
    (g : DynamicSceneGraph) :
  hasLayer ROOMS g = true →
  building_hierarchy building_id g →
  ∃ g' rooms bn,
    findBuildings color g = Some g'
    ∧ getLayer ROOMS g = Some rooms
    ∧ hasNode building_id g' = true
    ∧ graph_nodes g' !! building_id = Some bn
    ∧ layer bn = BUILDINGS
    ∧ rooms_are_children_of building_id g'
    ∧ (graph_nodes g !! building_id = None →
       attributes bn =
         {| position :=
              Centroid_get
                ((λ kv : N * SceneGraphNode, position (attributes kv.2))
                   <$> nodes_in_order rooms);
            color := color;
            semantic_label := kBuildingSemanticLabel;
            name := to_string building_id;
            pcl_mesh_connections := [] |})
    ∧ (rooms = ∅ →
       (graph_nodes g !! building_id = None →
        position (attributes bn) = Centroid_get [])
       ∧ ∃ g_incremental,
           updateBuildingNode_graph color g = Some g_incremental
           ∧ hasNode building_node_id g_incremental = false).
Proof.
  intros Hrooms Hhierarchy.
  destruct (findBuildings_spec color g Hrooms Hhierarchy)
    as (g' & rooms & rooms' & bn & Hfind & Hbefore & _ & _ & Hbn & Hlayer & Hfresh
        & Hchildren & _).
  exists g', rooms, bn. split; [done|]. split; [done|].
  split; [apply hasNode_true; by rewrite Hbn|].
  split; [done|]. split; [done|]. split; [done|]. split; [done|].
  intros ->. split.
  - intros Hnone. rewrite (Hfresh Hnone). cbn [position].
    by rewrite (proj2 (nodes_in_order_nil ∅) eq_refl).
  - by apply updateBuildingNode_graph_no_rooms.
Qed.

(** An edge to a node that has a parent changes nothing. *)
Lemma insert_room_edges_linked (b : NodeId) (rooms : list (NodeId * SceneGraphNode))
    (g : DynamicSceneGraph) :
  (∀ r, r ∈ rooms.*1 →
     ∃ rn, graph_nodes g !! r = Some rn ∧ is_Some (parent_ rn)) →
  insert_room_edges b rooms g = g.
Proof.
  induction rooms as [|[r n] rooms IH]; intros Hlinked; [done|].
  cbn [insert_room_edges foldl fst]. fold (insert_room_edges b rooms (insertEdge b r g)).
  assert (insertEdge b r g = g) as ->.
  { destruct (Hlinked r) as (rn & Hrn & [p Hp]); [by left|].
    unfold insertEdge. rewrite Hrn. destruct (graph_nodes g !! b); [|done].
    destruct (bool_decide _); [|done]. by rewrite Hp. }
  apply IH. intros r' Hr'. apply Hlinked. by right.
Qed.

(** The building step is idempotent.  Run again on the graph it leaves,
    it changes nothing: the building node stays where it is and no room
    is linked a second time. *)
Theorem building_step_is_idempotent (building_color : NodeColor)
    (g g' : DynamicSceneGraph) :
  hasLayer ROOMS g = true →
  building_hierarchy building_node_id g →
  updateBuildingNode_graph building_color g = Some g' →
  updateBuildingNode_graph building_color g' = Some g'.
Proof.
  intros Hrooms Hhierarchy Hstep.
  destruct (updateBuildingNode_graph_spec building_color g Hrooms Hhierarchy)
    as (g0 & rooms & rooms' & Hstep0 & _ & Hafter & _ & Hiff & Hnode & Hchildren & _).
  rewrite Hstep in Hstep0. injection Hstep0 as <-.
  unfold updateBuildingNode_graph. rewrite Hafter. cbn [mbind option_bind]. cbv zeta.
  destruct (size_of (nodes_in_order rooms') =? 0) eqn:Hsize.
  - assert (rooms' = ∅) as Hempty.
    { apply nodes_in_order_nil. apply Z.eqb_eq in Hsize. unfold size_of in Hsize.
      apply length_zero_iff_nil. lia. }
    destruct (hasNode building_node_id g') eqn:Hhas; [|done].
    by destruct (proj1 Hiff eq_refl).
  - assert (rooms' ≠ ∅) as Hsome.
    { intros Hempty. rewrite Hempty in Hsize. done. }
    apply Hiff in Hsome as Hhas. rewrite Hhas. cbn [negb].
    apply hasNode_true in Hhas as [bn Hbn].
    destruct (Hnode bn Hbn) as [_ Hposition].
    assert (alter (set_position (rooms_centroid rooms')) building_node_id (graph_nodes g')
            = graph_nodes g') as Hsame.
    { apply alter_id. intros bn' Hbn'. rewrite Hbn in Hbn'. injection Hbn' as <-.
      by rewrite <- Hposition. }
    rewrite Hsame. f_equal.
    apply insert_room_edges_linked. intros r Hr.
    apply list_elem_of_fmap in Hr as ([r' rn] & -> & Hrn).
    apply elem_of_nodes_in_order in Hrn. cbn.
    apply (getLayer_lookup ROOMS g' rooms' r' rn Hafter) in Hrn as [Hrn Hlayer].
    exists rn. split; [done|].
    destruct (Hchildren r' rn Hrn Hlayer) as [-> _]. by eexists.
Qed.

End Buildings.

Section BuildingsExamples.
#[local] Existing Instance Demo.geometry.
#[local] Existing Instance Demo.pgmo_types.
#[local] Existing Instance Demo.pgmo.
#[local] Existing Instance Demo.collaborators.

Lemma graph_with_room_hierarchy :
  building_hierarchy building_node_id Demo.graph_with_room.
Proof.
  apply building_hierarchy_checked; [reflexivity|reflexivity|].
  apply (bool_decide_unpack _). vm_compute. exact I.
Qed.

Lemma graph_without_rooms_hierarchy :
  building_hierarchy building_id Demo.graph_without_rooms.
Proof.
  apply building_hierarchy_checked; [reflexivity|reflexivity|].
  apply (bool_decide_unpack _). vm_compute. exact I.
Qed.

Lemma graph_with_two_rooms_hierarchy :
  building_hierarchy building_node_id Scenes.graph_with_two_rooms.
Proof.
  apply building_hierarchy_checked; [reflexivity|reflexivity|].
  apply (bool_decide_unpack _). vm_compute. exact I.
Qed.

(** The building step on a graph with two rooms, at (1, 0, 0) and at
    (3, 4, 0), and no building yet: the building node is made, at the
    two positions summed from zero and divided by two, and both rooms
    hang under it. *)
Lemma building_node_follows_the_rooms_witness :
  hasLayer ROOMS
    (graph (private_dsg_ (Demo.backend Demo.settings Scenes.graph_with_two_rooms)))
    = true
  ∧ building_hierarchy building_node_id
      (graph (private_dsg_ (Demo.backend Demo.settings Scenes.graph_with_two_rooms)))
  ∧ ∃ s' bn rn,
      updateBuildingNode (Demo.backend Demo.settings Scenes.graph_with_two_rooms)
        = Some s'
      ∧ graph_nodes (graph (private_dsg_ s')) !! building_node_id = Some bn
      ∧ position (attributes bn)
        = Demo.vec_quotient
            (Demo.vec_sum (Demo.vec_sum (Demo.xyz 0 0 0) (Demo.xyz 1 0 0))
               (Demo.xyz 3 4 0)) 2
      ∧ graph_nodes (graph (private_dsg_ s')) !! Demo.room 1 = Some rn
      ∧ parent_ rn = Some building_node_id
      ∧ Demo.room 1 ∈ children_ bn.
Proof.
  split; [reflexivity|]. split; [exact graph_with_two_rooms_hierarchy|].
  destruct (building_node_follows_the_rooms
              (Demo.backend Demo.settings Scenes.graph_with_two_rooms)
              eq_refl graph_with_two_rooms_hierarchy)
    as (s' & rooms & rooms' & Hstep & _ & Hafter & _ & Hiff & Hnode & _).
  assert ((λ s', positions_of <$> getLayer ROOMS (graph (private_dsg_ s')))
            <$> updateBuildingNode
                  (Demo.backend Demo.settings Scenes.graph_with_two_rooms)
          = Some (Some [Demo.xyz 1 0 0; Demo.xyz 3 4 0]))
    as (s'' & Hstep' & Hpositions)%fmap_Some by (vm_compute; reflexivity).
  rewrite Hstep in Hstep'. injection Hstep' as <-.
  rewrite Hafter in Hpositions. injection Hpositions as Hpositions.
  assert (rooms' ≠ ∅) as Hsome.
  { intros ->. discriminate Hpositions. }
  apply Hiff, hasNode_true in Hsome as [bn Hbn].
  destruct (Hnode bn Hbn) as (_ & Hposition & Hchildren).
  rewrite <- Hpositions in Hposition.
  assert ((λ s', layer <$> graph_nodes (graph (private_dsg_ s')) !! Demo.room 1)
            <$> updateBuildingNode
                  (Demo.backend Demo.settings Scenes.graph_with_two_rooms)
          = Some (Some ROOMS))
    as (s'' & Hstep' & Hroom)%fmap_Some by (vm_compute; reflexivity).
  rewrite Hstep in Hstep'. injection Hstep' as <-.
  symmetry in Hroom. apply fmap_Some in Hroom as (rn & Hrn & Hlayer).
  destruct (Hchildren (Demo.room 1) rn Hrn (eq_sym Hlayer))
    as (Hparent & bn' & Hbn' & Hin).
  rewrite Hbn in Hbn'. injection Hbn' as <-.
  exists s', bn, rn. split; [exact Hstep|]. split; [exact Hbn|].
  split; [exact Hposition|]. split; [exact Hrn|].
  split; [exact Hparent|exact Hin].
Defined.

(** The batch finder on a graph with a place and no room: the building
    node is made all the same, at the centroid of no point. *)
Lemma findBuildings_always_makes_a_building_witness :
  hasLayer ROOMS Demo.graph_without_rooms = true
  ∧ building_hierarchy building_id Demo.graph_without_rooms
  ∧ getLayer ROOMS Demo.graph_without_rooms = Some ∅
  ∧ ∃ g' bn,
      findBuildings (building_color_ Demo.settings) Demo.graph_without_rooms = Some g'
      ∧ graph_nodes g' !! building_id = Some bn
      ∧ layer bn = BUILDINGS
      ∧ position (attributes bn) = Centroid_get []
      ∧ ∃ g_incremental,
          updateBuildingNode_graph (building_color_ Demo.settings)
            Demo.graph_without_rooms = Some g_incremental
          ∧ hasNode building_node_id g_incremental = false.
Proof.
  split; [reflexivity|]. split; [exact graph_without_rooms_hierarchy|].
  assert (getLayer ROOMS Demo.graph_without_rooms = Some ∅) as Hnone
    by (vm_compute; reflexivity).
  split; [exact Hnone|].
  destruct (findBuildings_always_makes_a_building (building_color_ Demo.settings)
              Demo.graph_without_rooms eq_refl graph_without_rooms_hierarchy)
    as (g' & rooms & bn & Hfind & Hrooms & _ & Hbn & Hlayer & _ & _ & Hempty).
  rewrite Hnone in Hrooms. injection Hrooms as <-.
  destruct (Hempty eq_refl) as (Hcentroid & Hincremental).
  exists g', bn. split; [exact Hfind|]. split; [exact Hbn|]. split; [exact Hlayer|].
  split; [apply Hcentroid; vm_compute; reflexivity|exact Hincremental].
Defined.

(** C5 as stated fails outside these conditions.  On a private graph
    built without a buildings layer the step returns with no building
    node, though there is a room.  Where the building identifier names a
    place, the step moves that place and no room becomes a child of it.
    Where the room hangs under another building node, as the batch
    finder leaves it, the step makes the building node and the room
    stays where it hangs. *)
Lemma building_step_outside_the_hierarchy :
  (∃ s' rooms',
     updateBuildingNode
       (Demo.backend Demo.settings Scenes.graph_without_buildings_layer) = Some s'
     ∧ getLayer ROOMS (graph (private_dsg_ s')) = Some rooms'
     ∧ rooms' ≠ ∅
     ∧ hasNode building_node_id (graph (private_dsg_ s')) = false)
  ∧ (∃ s' bn rn,
       updateBuildingNode
         (Demo.backend Demo.settings (Scenes.graph_with_place_under building_node_id))
         = Some s'
       ∧ graph_nodes (graph (private_dsg_ s')) !! building_node_id = Some bn
       ∧ layer bn = PLACES
       ∧ graph_nodes (graph (private_dsg_ s')) !! Demo.room 0 = Some rn
       ∧ layer rn = ROOMS
       ∧ parent_ rn = None)
  ∧ (∃ s' bn rn,
       updateBuildingNode
         (Demo.backend Demo.settings Scenes.graph_after_findBuildings) = Some s'
       ∧ graph_nodes (graph (private_dsg_ s')) !! building_node_id = Some bn
       ∧ layer bn = BUILDINGS
       ∧ children_ bn = ∅
       ∧ graph_nodes (graph (private_dsg_ s')) !! Demo.room 0 = Some rn
       ∧ layer rn = ROOMS
       ∧ parent_ rn = Some building_id).
Proof.
  split; [|split].
  - assert ((λ s', (positions_of <$> getLayer ROOMS (graph (private_dsg_ s')),
                    hasNode building_node_id (graph (private_dsg_ s'))))
              <$> updateBuildingNode
                    (Demo.backend Demo.settings Scenes.graph_without_buildings_layer)
            = Some (Some [Demo.xyz 1 0 0], false))
      as (s' & Hstep & Hlook)%fmap_Some by (vm_compute; reflexivity).
    injection Hlook as Hrooms Hnode. symmetry in Hrooms.
    apply fmap_Some in Hrooms as (rooms' & Hrooms & Hpositions).
    exists s', rooms'. split; [exact Hstep|]. split; [exact Hrooms|].
    split; [|by symmetry]. intros ->. discriminate Hpositions.
  - assert ((λ s', (layer <$> graph_nodes (graph (private_dsg_ s')) !! building_node_id,
                    (λ rn, (layer rn, parent_ rn))
                      <$> graph_nodes (graph (private_dsg_ s')) !! Demo.room 0))
              <$> updateBuildingNode
                    (Demo.backend Demo.settings
                       (Scenes.graph_with_place_under building_node_id))
            = Some (Some PLACES, Some (ROOMS, None)))
      as (s' & Hstep & Hlook)%fmap_Some by (vm_compute; reflexivity).
    injection Hlook as Hbuilding Hroom. symmetry in Hbuilding, Hroom.
    apply fmap_Some in Hbuilding as (bn & Hbn & Hlayer).
    apply fmap_Some in Hroom as (rn & Hrn & Hpair). injection Hpair as Hrl Hrp.
    exists s', bn, rn. by repeat split.
  - assert ((λ s', ((λ bn, (layer bn, children_ bn))
                      <$> graph_nodes (graph (private_dsg_ s')) !! building_node_id,
                    (λ rn, (layer rn, parent_ rn))
                      <$> graph_nodes (graph (private_dsg_ s')) !! Demo.room 0))
              <$> updateBuildingNode
                    (Demo.backend Demo.settings Scenes.graph_after_findBuildings)
            = Some (Some (BUILDINGS, ∅), Some (ROOMS, Some building_id)))
      as (s' & Hstep & Hlook)%fmap_Some by (vm_compute; reflexivity).
    injection Hlook as Hbuilding Hroom. symmetry in Hbuilding, Hroom.
    apply fmap_Some in Hbuilding as (bn & Hbn & Hpair). injection Hpair as Hbl Hbc.
    apply fmap_Some in Hroom as (rn & Hrn & Hpair). injection Hpair as Hrl Hrp.
    exists s', bn, rn. by repeat split.
Qed.

(** C10 as stated fails outside these conditions, on graphs whose rooms
    layer exists.  On a graph built without a buildings layer the finder
    returns with no building node.  Where its identifier names a place,
    it makes no building node and no room becomes a child of the place.
    Where the room hangs under the building node of the incremental
    backend, it makes its building node and the room stays where it
    hangs. *)
Lemma findBuildings_outside_the_hierarchy :
  (hasLayer ROOMS Scenes.graph_without_buildings_layer = true
   ∧ ∃ g',
       findBuildings (building_color_ Demo.settings)
         Scenes.graph_without_buildings_layer = Some g'
       ∧ hasNode building_id g' = false)
  ∧ (hasLayer ROOMS (Scenes.graph_with_place_under building_id) = true
     ∧ ∃ g' bn rn,
         findBuildings (building_color_ Demo.settings)
           (Scenes.graph_with_place_under building_id) = Some g'
         ∧ graph_nodes g' !! building_id = Some bn
         ∧ layer bn = PLACES
         ∧ graph_nodes g' !! Demo.room 0 = Some rn
         ∧ layer rn = ROOMS
         ∧ parent_ rn = None)
  ∧ (hasLayer ROOMS Scenes.graph_after_updateBuildingNode = true
     ∧ ∃ g' bn rn,
         findBuildings (building_color_ Demo.settings)
           Scenes.graph_after_updateBuildingNode = Some g'
         ∧ graph_nodes g' !! building_id = Some bn
         ∧ layer bn = BUILDINGS
         ∧ children_ bn = ∅
         ∧ graph_nodes g' !! Demo.room 0 = Some rn
         ∧ layer rn = ROOMS
         ∧ parent_ rn = Some building_node_id).
Proof.
  split; [|split]; (split; [vm_compute; reflexivity|]).
  - assert (hasNode building_id
              <$> findBuildings (building_color_ Demo.settings)
                    Scenes.graph_without_buildings_layer
            = Some false)
      as (g' & Hfind & Hnode)%fmap_Some by (vm_compute; reflexivity).
    exists g'. by split.
  - assert ((λ g', (layer <$> graph_nodes g' !! building_id,
                    (λ rn, (layer rn, parent_ rn)) <$> graph_nodes g' !! Demo.room 0))
              <$> findBuildings (building_color_ Demo.settings)
                    (Scenes.graph_with_place_under building_id)
            = Some (Some PLACES, Some (ROOMS, None)))
      as (g' & Hfind & Hlook)%fmap_Some by (vm_compute; reflexivity).
    injection Hlook as Hbuilding Hroom. symmetry in Hbuilding, Hroom.
    apply fmap_Some in Hbuilding as (bn & Hbn & Hlayer).
    apply fmap_Some in Hroom as (rn & Hrn & Hpair). injection Hpair as Hrl Hrp.
    exists g', bn, rn. by repeat split.
  - assert ((λ g', ((λ bn, (layer bn, children_ bn)) <$> graph_nodes g' !! building_id,
                    (λ rn, (layer rn, parent_ rn)) <$> graph_nodes g' !! Demo.room 0))
              <$> findBuildings (building_color_ Demo.settings)
                    Scenes.graph_after_updateBuildingNode
            = Some (Some (BUILDINGS, ∅), Some (ROOMS, Some building_node_id)))
      as (g' & Hfind & Hlook)%fmap_Some by (vm_compute; reflexivity).
    injection Hlook as Hbuilding Hroom. symmetry in Hbuilding, Hroom.
    apply fmap_Some in Hbuilding as (bn & Hbn & Hpair). injection Hpair as Hbl Hbc.
    apply fmap_Some in Hroom as (rn & Hrn & Hpair). injection Hpair as Hrl Hrp.
    exists g', bn, rn. by repeat split.
Qed.

(** The building step twice on the graph with one room. *)
Lemma building_step_is_idempotent_witness :
  ∃ g' : DynamicSceneGraph,
    updateBuildingNode_graph (building_color_ Demo.settings) Demo.graph_with_room
      = Some g'
    ∧ hasNode building_node_id g' = true
    ∧ updateBuildingNode_graph (building_color_ Demo.settings) g' = Some g'.
Proof.
  assert (hasNode building_node_id
            <$> updateBuildingNode_graph (building_color_ Demo.settings)
                  Demo.graph_with_room
          = Some true)
    as (g' & Hstep & Hnode)%fmap_Some by (vm_compute; reflexivity).
  exists g'. split; [exact Hstep|]. split; [by symmetry|].
  exact (building_step_is_idempotent (building_color_ Demo.settings)
           Demo.graph_with_room g' eq_refl graph_with_room_hierarchy Hstep).
Defined.

End BuildingsExamples.

(** * The trigger of the optimisation *)

Section Trigger.
Context `{Geometry} `{!PgmoTypes} `{!Pgmo} `{!DsgCollaborators}.

Lemma calls_since_app (before calls : list PgmoCall) (s : DsgBackend) :
  deformation_graph_ s = before ++ calls → calls_since before s = calls.
Proof. unfold calls_since. intros ->. by rewrite drop_app_length. Qed.

Lemma place_node_calls_no_optimize (prefix : N) (mst_info : MinimumSpanningTreeInfo)
    (l : list (NodeId * SceneGraphNode)) :
  existsb is_optimize (flat_map (place_node_calls prefix mst_info) l) = false.
Proof.
  induction l as [|[id node] l IH]; [done|].
  cbn [flat_map]. rewrite existsb_app, IH, orb_false_r.
  unfold place_node_calls. cbn.
  destruct (bool_decide _); [|done].
  by destruct (pcl_mesh_connections (attributes node)).
Qed.

Lemma mst_edge_calls_no_optimize (places : SceneGraphLayer) (l : list Edge)
    (edge_calls : list PgmoCall) :
  mapM (mst_edge_call places) l = Some edge_calls →
  existsb is_optimize edge_calls = false.
Proof.
  intros Hcalls%mapM_Some.
  induction Hcalls as [|edge c rest calls' Hc _ IH]; [done|].
  unfold mst_edge_call in Hc.
  destruct (getPosition (source edge) places); [|done].
  destruct (getPosition (target edge) places); [|done].
  injection Hc as <-. exact IH.
Qed.

Lemma addPlacesToDeformationGraph_calls (s s' : DsgBackend) :
  addPlacesToDeformationGraph s = Some s' →
  ∃ calls, deformation_graph_ s' = deformation_graph_ s ++ calls
           ∧ existsb is_optimize calls = false.
Proof.
  unfold addPlacesToDeformationGraph. case_bool_decide.
  - intros [= <-]. exists []. by rewrite app_nil_r.
  - destruct (mapM _ _) as [edge_calls|] eqn:Hedges; [|done].
    intros [= <-]. eexists. split; [reflexivity|].
    cbn [existsb is_optimize orb]. rewrite existsb_app.
    by rewrite place_node_calls_no_optimize, (mst_edge_calls_no_optimize _ _ _ Hedges).
Qed.

Lemma updateDsgMesh_calls (s : DsgBackend) :
  ∃ calls, deformation_graph_ (updateDsgMesh s) = deformation_graph_ s ++ calls
           ∧ existsb is_optimize calls = false.
Proof.
  unfold updateDsgMesh. destruct (latest_mesh_ s);
    [|exists []; by rewrite app_nil_r].
  destruct (have_new_mesh_ s); cbn [negb]; [|exists []; by rewrite app_nil_r].
  destruct (PgmoMeshMsgToPolygonMesh _) as [input_mesh stamps].
  destruct (_ =? 0).
  - exists []. by rewrite app_nil_r.
  - eexists. split; [reflexivity|done].
Qed.

Lemma optimize_calls (s s' : DsgBackend) :
  optimize s = Some s' →
  ∃ before after,
    deformation_graph_ s' = deformation_graph_ s ++ before ++ optimize_call :: after
    ∧ existsb is_optimize before = false
    ∧ existsb is_optimize after = false.
Proof.
  unfold optimize. intros Hopt.
  destruct (if add_places_to_deformation_graph_ (config s)
            then addPlacesToDeformationGraph s else Some s) as [s1|] eqn:Hplaces;
    [|done].
  cbn [mbind option_bind] in Hopt. injection Hopt as <-.
  assert (∃ calls, deformation_graph_ s1 = deformation_graph_ s ++ calls
                   ∧ existsb is_optimize calls = false)
    as (before & Hbefore & Hnone).
  { destruct (add_places_to_deformation_graph_ (config s)).
    - by apply addPlacesToDeformationGraph_calls.
    - injection Hplaces as <-. exists []. by rewrite app_nil_r. }
  destruct (updateDsgMesh_calls (call optimize_call s1)) as (after & Hafter & Hnone').
  exists before, after. split; [|done].
  etransitivity; [exact Hafter|].
  etransitivity;
    [apply (f_equal (λ l, (l ++ [optimize_call]) ++ after)); exact Hbefore|].
  by rewrite <- !app_assoc.
Qed.

Lemma private_dsg_critical_section_calls (have_graph_updates : bool)
    (s s' : DsgBackend) :
  private_dsg_critical_section have_graph_updates s = Some s' →
  ∃ before after,
    deformation_graph_ s' =
      deformation_graph_ s ++ before
      ++ (if have_graph_updates && optimize_on_lc_ (config s) && have_loopclosures_ s
          then [optimize_call] else [])
      ++ after
    ∧ existsb is_optimize before = false
    ∧ existsb is_optimize after = false.
Proof.
  unfold private_dsg_critical_section. intros Hsection.
  destruct (updatePrivateDsg_keeps s) as (Hconfig & _ & Hflag & _).
  pose proof (updatePrivateDsg_calls s) as Hcalls.
  rewrite Hconfig, Hflag in Hsection.
  destruct (_ && _ && _).
  - destruct (optimize (updatePrivateDsg s)) as [s1|] eqn:Hopt; [|done].
    cbn in Hsection. injection Hsection as <-.
    destruct (optimize_calls _ _ Hopt) as (before & after & Hs1 & ? & ?).
    exists before, after. cbn. by rewrite Hs1, Hcalls.
  - destruct (call_update_periodically_ (config s));
      cbn in Hsection; injection Hsection as <-.
    + destruct (updateDsgMesh_calls (updatePrivateDsg s)) as (after & Hafter & ?).
      exists [], after. cbn. by rewrite Hafter, Hcalls.
    + exists [], []. cbn. by rewrite Hcalls, app_nil_r.
Qed.

Lemma option_list_no_optimize (f : PoseGraph → PgmoCall) (updates : option PoseGraph) :
  (∀ msg, is_optimize (f msg) = false) →
  existsb is_optimize (option_list (f <$> updates)) = false.
Proof. intros Hf. destruct updates as [msg|]; [|done]. cbn. by rewrite Hf. Qed.

(** What triggers the optimisation.  In a turn of the loop that returns,
    the full optimisation runs exactly when the guard of [runPgmo]
    passes on what the turn holds by then: the has-updates flag reads
    true (a message batch was drained, or the flag was left unassigned
    and reads true), optimisation on loop closure is on, and a loop
    closure is on record (accepted before, queued for this turn, or
    counted).  It runs once at most: the calls of the turn are those
    before, the optimisation if the guard passes, and those after, with
    no optimisation among the former or the latter. *)
Theorem optimize_runs_on_its_guard (b : bool) (s s' : DsgBackend) :
  runPgmo b s = Some s' →
  ∃ before after,
    calls_since (deformation_graph_ s) s'
      = before ++ (if optimize_guard b s then [optimize_call] else []) ++ after
    ∧ existsb is_optimize before = false
    ∧ existsb is_optimize after = false
    ∧ optimize_ran s s' = optimize_guard b s.
Proof.
  intros Hturn.
  destruct (runPgmo_inv b s s' Hturn) as (new & s_section & Hnew & Hsection & _ & Hsame).
  destruct (private_dsg_critical_section_calls _ _ _ Hsection)
    as (before & after & Hcalls & Hbefore & Hafter).
  destruct (update_status_keeps (num_loop_closures_ s)
              (after_loop_closures (loop_closures (shared_dsg_ s)) new
                 (drain_updates b (with_status_ status_reset s)).1))
    as (Hconfig3 & Hnum3 & _ & Hcalls3 & Hflag3).
  rewrite Hconfig3, Hflag3, Hcalls3 in Hcalls.
  destruct (drain_updates_calls b (with_status_ status_reset s)) as (Hdrain & _ & _).
  destruct (between_factors_loop_closure_calls _ _ _ Hnew) as (_ & _ & Hnone).
  set (s1 := (drain_updates b (with_status_ status_reset s)).1) in *.
  set (hgu := (drain_updates b (with_status_ status_reset s)).2) in *.
  assert (config s1 = config s ∧ have_loopclosures_ s1 = have_loopclosures_ s)
    as [Hconfig1 Hflag1].
  { unfold s1, drain_updates. cbn.
    destruct (deformation_graph_updates_ s); cbn;
      destruct (pose_graph_updates_ s); done. }
  set (mesh_calls :=
         option_list (processIncrementalMeshGraph
                        <$> deformation_graph_updates_ (with_status_ status_reset s))
         ++ option_list (processIncrementalPoseGraph
                           <$> pose_graph_updates_ (with_status_ status_reset s))) in *.
  assert (existsb is_optimize mesh_calls = false) as Hmesh.
  { unfold mesh_calls. rewrite existsb_app.
    by rewrite !option_list_no_optimize. }
  assert (existsb is_optimize new = false) as Hnew'.
  { clear - Hnone. induction Hnone as [|c l [Hc _] _ IH]; [done|].
    cbn. by rewrite Hc, IH. }
  assert (∃ queue_calls,
            deformation_graph_ (after_loop_closures (loop_closures (shared_dsg_ s)) new s1)
              = deformation_graph_ s ++ mesh_calls ++ queue_calls
            ∧ existsb is_optimize queue_calls = false
            ∧ config (after_loop_closures (loop_closures (shared_dsg_ s)) new s1)
              = config s
            ∧ (have_loopclosures_
                 (after_loop_closures (loop_closures (shared_dsg_ s)) new s1)
               || (0 <? num_loop_closures_
                          (after_loop_closures (loop_closures (shared_dsg_ s)) new s1)))
              = have_loopclosures_ s
                || negb (bool_decide (loop_closures (shared_dsg_ s) = []))
                || (0 <? num_loop_closures_ s1))
    as (queue_calls & Hqueue & Hnoneq & Hconfig2 & Hflag2).
  { destruct (loop_closures (shared_dsg_ s)) as [|result rest].
    - exists []. cbn [after_loop_closures]. rewrite Hdrain, Hconfig1, Hflag1.
      cbn [deformation_graph_ with_status_]. fold mesh_calls.
      rewrite app_nil_r. split; [done|]. split; [done|]. split; [done|].
      by rewrite orb_false_r.
    - exists new. cbn [after_loop_closures]. cbn. rewrite Hdrain.
      cbn [deformation_graph_ with_status_]. fold mesh_calls.
      rewrite <- app_assoc. split; [done|]. split; [done|]. split; [done|].
      by rewrite orb_true_r. }
  rewrite Hconfig2, Hflag2, Hqueue in Hcalls.
  fold (optimize_guard b s) in Hcalls.
  exists (mesh_calls ++ queue_calls ++ before), after.
  assert (calls_since (deformation_graph_ s) s'
          = (mesh_calls ++ queue_calls ++ before)
            ++ (if optimize_guard b s then [optimize_call] else []) ++ after) as Hsince.
  { apply calls_since_app. rewrite Hsame, Hcalls. by rewrite <- !app_assoc. }
  split; [exact Hsince|]. split.
  { by rewrite !existsb_app, Hmesh, Hnoneq, Hbefore. }
  split; [done|].
  unfold optimize_ran. rewrite Hsince, !existsb_app, Hmesh, Hnoneq, Hbefore, Hafter.
  cbn. destruct (optimize_guard b s); by rewrite ?orb_false_r.
Qed.
End Trigger.

Section TriggerExamples.
#[local] Existing Instance Demo.geometry.
#[local] Existing Instance Demo.pgmo_types.
#[local] Existing Instance Demo.pgmo.
#[local] Existing Instance Demo.collaborators.

(** A turn after a pose-graph message, with a loop closure accepted
    before: the guard passes and the optimisation runs. *)
Lemma optimize_runs_on_its_guard_witness :
  ∃ s' : DsgBackend,
    runPgmo false (poseGraphCallback Demo.msg1 Demo.backend_after_loop_closure)
      = Some s'
    ∧ optimize_guard false
        (poseGraphCallback Demo.msg1 Demo.backend_after_loop_closure) = true
    ∧ optimize_ran (poseGraphCallback Demo.msg1 Demo.backend_after_loop_closure) s'
      = true.
Proof.
  assert (is_Some (runPgmo false
                     (poseGraphCallback Demo.msg1 Demo.backend_after_loop_closure)))
    as [s' Hturn].
  { apply (bool_decide_unpack _). vm_compute. exact I. }
  assert (optimize_guard false
            (poseGraphCallback Demo.msg1 Demo.backend_after_loop_closure) = true)
    as Hguard by (vm_compute; reflexivity).
  exists s'. split; [exact Hturn|]. split; [exact Hguard|].
  destruct (optimize_runs_on_its_guard false
              (poseGraphCallback Demo.msg1 Demo.backend_after_loop_closure) s' Hturn)
    as (before & after & _ & _ & _ & Hran).
  etransitivity; [exact Hran|exact Hguard].
Defined.

End TriggerExamples.

(** * The books of a turn *)

Section Status.
Context `{Geometry} `{!PgmoTypes} `{!Pgmo} `{!DsgCollaborators}.

Lemma keeps_bookkeeping_refl (s : DsgBackend) : keeps_bookkeeping s s.
Proof. by repeat split. Qed.

Lemma keeps_bookkeeping_trans (s1 s2 s3 : DsgBackend) :
  keeps_bookkeeping s1 s2 → keeps_bookkeeping s2 s3 → keeps_bookkeeping s1 s3.
Proof.
  intros (? & ? & ? & ? & ? & ? & ?) (? & ? & ? & ? & ? & ? & ?).
  repeat split; congruence.
Qed.

Lemma updateDsgMesh_bookkeeping (s : DsgBackend) :
  keeps_bookkeeping s (updateDsgMesh s).
Proof.
  unfold updateDsgMesh. destruct (latest_mesh_ s); [|apply keeps_bookkeeping_refl].
  destruct (have_new_mesh_ s); simpl; [|apply keeps_bookkeeping_refl].
  destruct (PgmoMeshMsgToPolygonMesh _) as [input_mesh stamps].
  destruct (_ =? 0); by repeat split.
Qed.

Lemma addPlacesToDeformationGraph_bookkeeping (s s' : DsgBackend) :
  addPlacesToDeformationGraph s = Some s' → keeps_bookkeeping s s'.
Proof.
  unfold addPlacesToDeformationGraph. case_bool_decide.
  - intros [= <-]. apply keeps_bookkeeping_refl.
  - destruct (mapM _ _) as [edge_calls|]; [|done].
    intros [= <-]. by repeat split.
Qed.

Lemma optimize_bookkeeping (s s' : DsgBackend) :
  optimize s = Some s' → keeps_bookkeeping s s'.
Proof.
  unfold optimize. intros Hopt.
  destruct (if add_places_to_deformation_graph_ (config s)
            then addPlacesToDeformationGraph s else Some s) as [s1|] eqn:Hplaces;
    [|done].
  cbn [mbind option_bind] in Hopt. injection Hopt as <-.
  assert (keeps_bookkeeping s s1) as Hs1.
  { destruct (add_places_to_deformation_graph_ (config s)).
    - by apply addPlacesToDeformationGraph_bookkeeping.
    - injection Hplaces as <-. apply keeps_bookkeeping_refl. }
  apply (keeps_bookkeeping_trans _ s1); [exact Hs1|].
  apply (keeps_bookkeeping_trans _ (call optimize_call s1)); [by repeat split|].
  apply (keeps_bookkeeping_trans _ (updateDsgMesh (call optimize_call s1)));
    [apply updateDsgMesh_bookkeeping|by repeat split].
Qed.

Lemma updatePrivateDsg_bookkeeping (s : DsgBackend) :
  keeps_bookkeeping s (updatePrivateDsg s).
Proof.
  unfold updatePrivateDsg. destruct (updated (shared_dsg_ s)); [|by repeat split].
  destruct (hasLayer PLACES (graph (shared_dsg_ s))); by repeat split.
Qed.

Lemma private_dsg_critical_section_bookkeeping (have_graph_updates : bool)
    (s s' : DsgBackend) :
  private_dsg_critical_section have_graph_updates s = Some s' →
  keeps_bookkeeping s s'.
Proof.
  unfold private_dsg_critical_section. intros Hsection.
  pose proof (updatePrivateDsg_bookkeeping s) as Hmerge.
  destruct (_ && _ && _).
  - destruct (optimize (updatePrivateDsg s)) as [s1|] eqn:Hopt; [|done].
    cbn in Hsection. injection Hsection as <-.
    apply optimize_bookkeeping in Hopt.
    eapply keeps_bookkeeping_trans; [exact Hmerge|].
    eapply keeps_bookkeeping_trans; [exact Hopt|]. by repeat split.
  - destruct (call_update_periodically_ (config (updatePrivateDsg s)));
      cbn in Hsection; injection Hsection as <-.
    + eapply keeps_bookkeeping_trans; [exact Hmerge|].
      eapply keeps_bookkeeping_trans; [apply updateDsgMesh_bookkeeping|].
      by repeat split.
    + eapply keeps_bookkeeping_trans; [exact Hmerge|]. by repeat split.
Qed.

Lemma updateRoomsNodes_bookkeeping (s s' : DsgBackend) :
  updateRoomsNodes s = Some s' → keeps_bookkeeping s s'.
Proof.
  unfold updateRoomsNodes. destruct (room_finder_ (config s)).
  - destruct (getNodesForRoomDetection _ s) as [active|]; [|done].
    cbn [mbind option_bind]. unfold storeUnlabeledPlaces.
    destruct (getLayer PLACES _) as [places|]; [|done].
    intros [= <-]. by repeat split.
  - intros [= <-]. by repeat split.
Qed.

Lemma updateBuildingNode_bookkeeping (s s' : DsgBackend) :
  updateBuildingNode s = Some s' → keeps_bookkeeping s s'.
Proof.
  unfold updateBuildingNode.
  destruct (updateBuildingNode_graph _ _) as [g|]; [|done].
  intros [= <-]. by repeat split.
Qed.

Lemma keeps_inputs_trans (s1 s2 s3 : DsgBackend) :
  keeps_inputs s1 s2 → keeps_inputs s2 s3 → keeps_inputs s1 s3.
Proof. intros (? & ? & ? & ?) (? & ? & ? & ?). repeat split; congruence. Qed.

Lemma updateRoomsNodes_inputs (s s' : DsgBackend) :
  updateRoomsNodes s = Some s' → keeps_inputs s s'.
Proof.
  unfold updateRoomsNodes. destruct (room_finder_ (config s)).
  - destruct (getNodesForRoomDetection _ s) as [active|]; [|done].
    cbn [mbind option_bind]. unfold storeUnlabeledPlaces.
    destruct (getLayer PLACES _) as [places|]; [|done].
    intros [= <-]. by repeat split.
  - intros [= <-]. by repeat split.
Qed.

Lemma updateBuildingNode_inputs (s s' : DsgBackend) :
  updateBuildingNode s = Some s' → keeps_inputs s s'.
Proof.
  unfold updateBuildingNode.
  destruct (updateBuildingNode_graph _ _) as [g|]; [|done].
  intros [= <-]. by repeat split.
Qed.

(** A turn of the loop, stage by stage. *)
Lemma runPgmo_stages (b : bool) (s s' : DsgBackend) :
  runPgmo b s = Some s' →
  ∃ new s_section s_logged,
    mapM (loop_closure_call (graph (shared_dsg_ s))) (loop_closures (shared_dsg_ s))
      = Some new
    ∧ private_dsg_critical_section
        (drain_updates b (with_status_ status_reset s)).2
        (update_status (num_loop_closures_ s)
           (after_loop_closures (loop_closures (shared_dsg_ s)) new
              (drain_updates b (with_status_ status_reset s)).1))
      = Some s_section
    ∧ s_logged =
        (if (drain_updates b (with_status_ status_reset s)).2 && pgmo_log_ (config s)
         then logStatus s_section else s_section)
    ∧ keeps_bookkeeping s_logged s'
    ∧ keeps_loop_closures s_section s'
    ∧ keeps_inputs s_section s'.
Proof.
  intros Hturn.
  destruct (runPgmo_inv b s s' Hturn) as (new & s_section & Hnew & Hsection & Hkeeps & _).
  exists new, s_section. eexists. split; [exact Hnew|]. split; [exact Hsection|].
  split; [reflexivity|]. cut (keeps_bookkeeping
         (if (drain_updates b (with_status_ status_reset s)).2 && pgmo_log_ (config s)
          then logStatus s_section else s_section) s' ∧ keeps_inputs s_section s').
  { intros [? ?]. split; [done|]. by split. }
  unfold runPgmo, pgmo_critical_section in Hturn.
  assert (Hshared : shared_dsg_ (drain_updates b (with_status_ status_reset s)).1
                    = shared_dsg_ s).
  { unfold drain_updates. simpl.
    destruct (deformation_graph_updates_ s); simpl;
      destruct (pose_graph_updates_ s); done. }
  assert (Hconfig : config (drain_updates b (with_status_ status_reset s)).1 = config s).
  { unfold drain_updates. simpl.
    destruct (deformation_graph_updates_ s); simpl;
      destruct (pose_graph_updates_ s); done. }
  destruct (drain_updates b (with_status_ status_reset s)) as [s1 hgu] eqn:Hdrain.
  cbn [fst snd] in *.
  rewrite addInternalLCDToDeformationGraph_closed_form, Hshared, Hnew in Hturn.
  cbn [mbind option_bind num_loop_closures_ with_status_] in Hturn.
  rewrite Hsection in Hturn. cbn [mbind option_bind] in Hturn.
  assert (config s_section = config s) as Hconfig4.
  { destruct (private_dsg_critical_section_bookkeeping _ _ _ Hsection)
      as (_ & _ & _ & _ & _ & _ & ->).
    destruct (update_status_keeps (num_loop_closures_ s)
                (after_loop_closures (loop_closures (shared_dsg_ s)) new s1))
      as (-> & _).
    rewrite <- Hconfig. by destruct (loop_closures (shared_dsg_ s)). }
  rewrite Hconfig4 in Hturn.
  destruct (updateRoomsNodes _) as [s_rooms|] eqn:Hrooms; [|done].
  cbn [mbind option_bind] in Hturn.
  split.
  - eapply keeps_bookkeeping_trans.
    + by apply updateRoomsNodes_bookkeeping.
    + by apply updateBuildingNode_bookkeeping.
  - apply (keeps_inputs_trans _ s_rooms); [|by apply updateBuildingNode_inputs].
    apply updateRoomsNodes_inputs in Hrooms as (? & ? & ? & ?).
    destruct (hgu && pgmo_log_ (config s)); by repeat split.
Qed.

Lemma logged_edges (prefix : N) (l : list PoseGraphEdge) :
  flat_map
    (λ edge,
       match type edge with
       | LOOPCLOSE =>
           [ {| lc_from := NodeSymbol prefix (key_from edge);
                lc_to := NodeSymbol prefix (key_to edge);
                lc_to_T_from := RosToGtsam (pose edge);
                lc_dsg := false |} ]
       | _ => []
       end) l
  = edge_log prefix <$> filter (λ edge, is_LOOPCLOSE edge = true) l.
Proof.
  induction l as [|edge l IH]; [done|].
  cbn [flat_map]. rewrite IH, filter_cons.
  case_decide as Hlc; unfold is_LOOPCLOSE in Hlc; by destruct (type edge).
Qed.

Lemma drain_updates_flag (b : bool) (s : DsgBackend) :
  (drain_updates b s).2 = flag_after_drain b s.
Proof.
  unfold drain_updates, flag_after_drain.
  destruct (deformation_graph_updates_ s); simpl;
    by destruct (pose_graph_updates_ s).
Qed.

(** What the two drain blocks leave behind, member by member. *)
Lemma drain_updates_members (b : bool) (s : DsgBackend) :
  config (drain_updates b s).1 = config s
  ∧ shared_dsg_ (drain_updates b s).1 = shared_dsg_ s
  ∧ have_loopclosures_ (drain_updates b s).1 = have_loopclosures_ s
  ∧ status_file_ (drain_updates b s).1 = status_file_ s
  ∧ loop_closures_ (drain_updates b s).1 =
      loop_closures_ s
      ++ (edge_log (robot_prefix_ (config s))
            <$> filter (λ edge, is_LOOPCLOSE edge = true)
                  (pending_edges (pose_graph_updates_ s)))
  ∧ status_ (drain_updates b s).1 =
      (let st :=
         match deformation_graph_updates_ s with
         | Some updates =>
             add_new_factors (size_of (edges updates))
               (set_new_graph_factors (size_of (edges updates)) (status_ s))
         | None => status_ s
         end in
       match pose_graph_updates_ s with
       | Some updates => add_new_factors (size_of (edges updates)) st
       | None => st
       end).
Proof.
  unfold drain_updates.
  destruct (deformation_graph_updates_ s) as [mesh_updates|] eqn:Hmesh; simpl;
    destruct (pose_graph_updates_ s) as [pose_updates|] eqn:Hpose; simpl;
    rewrite ?Hpose; simpl; rewrite ?logged_edges, ?app_nil_r; done.
Qed.

Lemma after_loop_closures_members (queue : list LoopClosureResult)
    (new : list PgmoCall) (s : DsgBackend) :
  config (after_loop_closures queue new s) = config s
  ∧ status_ (after_loop_closures queue new s) = status_ s
  ∧ status_file_ (after_loop_closures queue new s) = status_file_ s
  ∧ loop_closures_ (after_loop_closures queue new s) =
      loop_closures_ s ++ (loop_closure_log <$> queue)
  ∧ have_loopclosures_ (after_loop_closures queue new s) =
      have_loopclosures_ s || negb (bool_decide (queue = [])).
Proof.
  destruct queue as [|result rest]; cbn [after_loop_closures].
  - cbn. by rewrite app_nil_r, orb_false_r.
  - cbn. by rewrite orb_true_r.
Qed.

Lemma update_status_members (prev : Z) (s : DsgBackend) :
  loop_closures_ (update_status prev s) = loop_closures_ s
  ∧ status_file_ (update_status prev s) = status_file_ s
  ∧ status_ (update_status prev s) =
      set_totals (trajectory_size (deformation_graph_ s))
        (getGtsamFactors_size (deformation_graph_ s))
        (getGtsamValues_size (deformation_graph_ s))
        (if 0 <? num_loop_closures_ s
         then set_loop_closure_counts (num_loop_closures_ s)
                (size_t_sub (num_loop_closures_ s) prev) (status_ s)
         else status_ s).
Proof. unfold update_status. by destruct (0 <? num_loop_closures_ s). Qed.

(** What a turn leaves in the members it keeps books in, in terms of
    the state it started from and the calls the queue resolved to. *)
Lemma runPgmo_books (b : bool) (s s' : DsgBackend) :
  runPgmo b s = Some s' →
  ∃ new,
    mapM (loop_closure_call (graph (shared_dsg_ s))) (loop_closures (shared_dsg_ s))
      = Some new
    ∧ config s' = config s
    ∧ loop_closures_ s' =
        loop_closures_ s
        ++ (edge_log (robot_prefix_ (config s))
              <$> filter (λ edge, is_LOOPCLOSE edge = true)
                    (pending_edges (pose_graph_updates_ s)))
        ++ (loop_closure_log <$> loop_closures (shared_dsg_ s))
    ∧ have_loopclosures_ s' =
        have_loopclosures_ s
        || negb (bool_decide (loop_closures (shared_dsg_ s) = []))
        || (0 <? num_loop_closures_ s')
    ∧ status_ s' =
        set_totals
          (trajectory_size (deformation_graph_ s ++ pgmo_section_calls s new))
          (getGtsamFactors_size (deformation_graph_ s ++ pgmo_section_calls s new))
          (getGtsamValues_size (deformation_graph_ s ++ pgmo_section_calls s new))
          (if 0 <? num_loop_closures_ s'
           then set_loop_closure_counts (num_loop_closures_ s')
                  (size_t_sub (num_loop_closures_ s') (num_loop_closures_ s))
                  (status_ (drain_updates b (with_status_ status_reset s)).1)
           else status_ (drain_updates b (with_status_ status_reset s)).1)
    ∧ status_file_ s' =
        status_file_ s
        ++ (if flag_after_drain b s && pgmo_log_ (config s) then [status_ s'] else []).
Proof.
  intros Hturn.
  destruct (runPgmo_stages b s s' Hturn)
    as (new & s_section & s_logged & Hnew & Hsection & Hlogged & Hbooks & Hkeeps & _).
  exists new. split; [exact Hnew|].
  destruct Hbooks as (Hlog & Hstatus & Hfile & _ & _ & _ & Hconfig).
  destruct Hkeeps as (_ & Hnum & Hflag & _).
  destruct (private_dsg_critical_section_bookkeeping _ _ _ Hsection)
    as (Hlog4 & Hstatus4 & Hfile4 & _ & _ & _ & Hconfig4).
  destruct (private_dsg_critical_section_keeps _ _ _ Hsection)
    as (_ & Hnum4 & Hflag4 & _).
  set (s1 := (drain_updates b (with_status_ status_reset s)).1) in *.
  set (s2 := after_loop_closures (loop_closures (shared_dsg_ s)) new s1) in *.
  destruct (update_status_members (num_loop_closures_ s) s2)
    as (Hlog3 & Hfile3 & Hstatus3).
  destruct (update_status_keeps (num_loop_closures_ s) s2)
    as (Hconfig3 & Hnum3 & _ & _ & Hflag3).
  destruct (after_loop_closures_members (loop_closures (shared_dsg_ s)) new s1)
    as (Hconfig2 & Hstatus2 & Hfile2 & Hlog2 & Hflag2).
  fold s2 in Hconfig2, Hstatus2, Hfile2, Hlog2, Hflag2.
  destruct (drain_updates_members b (with_status_ status_reset s))
    as (Hconfig1 & _ & Hflag1 & Hfile1 & Hlog1 & _).
  fold s1 in Hconfig1, Hflag1, Hfile1, Hlog1.
  cbn [config have_loopclosures_ status_file_ loop_closures_ pose_graph_updates_
       with_status_] in Hconfig1, Hflag1, Hfile1, Hlog1.
  assert (deformation_graph_ s2 = deformation_graph_ s ++ pgmo_section_calls s new)
    as Hcalls.
  { destruct (drain_updates_calls b (with_status_ status_reset s)) as (Hdrain & _ & _).
    fold s1 in Hdrain.
    cbn [deformation_graph_ deformation_graph_updates_ pose_graph_updates_ with_status_]
      in Hdrain.
    unfold pgmo_section_calls, s2.
    destruct (between_factors_loop_closure_calls _ _ _ Hnew) as (_ & Hlen & _).
    destruct (loop_closures (shared_dsg_ s)) as [|result rest].
    - destruct new; [|done]. cbn [after_loop_closures]. rewrite Hdrain.
      by rewrite !app_nil_r.
    - cbn [after_loop_closures]. cbn. rewrite Hdrain. by rewrite <- !app_assoc. }
  assert (num_loop_closures_ s' = num_loop_closures_ s2) as Hnum'
    by (by rewrite Hnum, Hnum4, Hnum3).
  assert (status_ s_logged = status_ s_section
          ∧ loop_closures_ s_logged = loop_closures_ s_section
          ∧ config s_logged = config s_section
          ∧ status_file_ s_logged =
              status_file_ s_section
              ++ (if flag_after_drain b s && pgmo_log_ (config s)
                  then [status_ s_section] else []))
    as (Hstatus5 & Hlog5 & Hconfig5 & Hfile5).
  { rewrite Hlogged, drain_updates_flag.
    replace (flag_after_drain b (with_status_ status_reset s))
      with (flag_after_drain b s) by done.
    destruct (flag_after_drain b s && pgmo_log_ (config s)); cbn;
      by rewrite ?app_nil_r. }
  split. { by rewrite Hconfig, Hconfig5, Hconfig4, Hconfig3, Hconfig2, Hconfig1. }
  split. { by rewrite Hlog, Hlog5, Hlog4, Hlog3, Hlog2, Hlog1, <- app_assoc. }
  split. { by rewrite Hflag, Hflag4, Hflag3, Hflag2, Hflag1, Hnum'. }
  split.
  { rewrite Hstatus, Hstatus5, Hstatus4, Hstatus3, Hcalls, Hstatus2, Hnum'. done. }
  rewrite Hfile, Hfile5, Hfile4, Hfile3, Hfile2, Hfile1.
  by rewrite Hstatus, Hstatus5.
Qed.

(** The log of loop closures of a turn.  A turn that returns appends to
    [loop_closures_], in this order, one entry for each loop-closure edge
    of the pose-graph batch it drained, under the robot prefix and marked
    as not from the scene graph ([false]), then one entry for each
    candidate it took off the queue, marked as from the scene graph. *)
Theorem turn_logs_loop_closures (b : bool) (s s' : DsgBackend) :
  runPgmo b s = Some s' →
  loop_closures_ s' =
    loop_closures_ s
    ++ (edge_log (robot_prefix_ (config s))
          <$> filter (λ edge, is_LOOPCLOSE edge = true)
                (pending_edges (pose_graph_updates_ s)))
    ++ (loop_closure_log <$> loop_closures (shared_dsg_ s)).
Proof.
  intros Hturn. by destruct (runPgmo_books b s s' Hturn) as (new & _ & _ & Hlog & _).
Qed.

(** The status of a turn.  [reset()] comes first, so what a turn that
    returns leaves in [status_] is about this turn alone: the edges of the
    mesh-graph batch drained, the edges of both batches (as a [size_t]
    sum), the loop-closure counter and its growth over the turn when the
    counter is positive (both 0 otherwise), and the sizes of the solver
    read right after the pgmo critical section, that is before the
    optimisation of the same turn.  The status file gets this status as
    one more row when the has-updates flag reads true and logging is on,
    and stays as it is otherwise. *)
Theorem turn_status (b : bool) (s s' : DsgBackend) :
  runPgmo b s = Some s' →
  ∃ new,
    mapM (loop_closure_call (graph (shared_dsg_ s))) (loop_closures (shared_dsg_ s))
      = Some new
    ∧ new_graph_factors_ (status_ s') =
        size_of (pending_edges (deformation_graph_updates_ s))
    ∧ new_factors_ (status_ s') =
        to_size_t (size_of (pending_edges (deformation_graph_updates_ s))
                   + size_of (pending_edges (pose_graph_updates_ s)))
    ∧ total_loop_closures_ (status_ s') =
        (if 0 <? num_loop_closures_ s' then num_loop_closures_ s' else 0)
    ∧ new_loop_closures_ (status_ s') =
        (if 0 <? num_loop_closures_ s'
         then size_t_sub (num_loop_closures_ s') (num_loop_closures_ s) else 0)
    ∧ trajectory_len_ (status_ s') =
        trajectory_size (deformation_graph_ s ++ pgmo_section_calls s new)
    ∧ total_factors_ (status_ s') =
        getGtsamFactors_size (deformation_graph_ s ++ pgmo_section_calls s new)
    ∧ total_values_ (status_ s') =
        getGtsamValues_size (deformation_graph_ s ++ pgmo_section_calls s new)
    ∧ status_file_ s' =
        status_file_ s
        ++ (if flag_after_drain b s && pgmo_log_ (config s) then [status_ s'] else []).
Proof.
  intros Hturn.
  destruct (runPgmo_books b s s' Hturn) as (new & Hnew & _ & _ & _ & Hstatus & Hfile).
  exists new. split; [exact Hnew|].
  destruct (drain_updates_members b (with_status_ status_reset s))
    as (_ & _ & _ & _ & _ & Hdrain).
  cbn [deformation_graph_updates_ pose_graph_updates_ status_ with_status_] in Hdrain.
  assert (total_loop_closures_ (status_ (drain_updates b (with_status_ status_reset s)).1) = 0
          ∧ new_loop_closures_ (status_ (drain_updates b (with_status_ status_reset s)).1) = 0
          ∧ new_graph_factors_ (status_ (drain_updates b (with_status_ status_reset s)).1)
            = size_of (pending_edges (deformation_graph_updates_ s))
          ∧ new_factors_ (status_ (drain_updates b (with_status_ status_reset s)).1)
            = to_size_t (size_of (pending_edges (deformation_graph_updates_ s))
                         + size_of (pending_edges (pose_graph_updates_ s))))
    as (Htotal & Hnew_lc & Hgraph & Hfactors).
  { rewrite Hdrain.
    destruct (deformation_graph_updates_ s) as [mesh_updates|];
      destruct (pose_graph_updates_ s) as [pose_updates|]; cbn;
      repeat split; unfold size_t_add;
      rewrite ?to_size_t_add_l, ?Z.add_0_l, ?Z.add_0_r; done. }
  repeat (split; [rewrite Hstatus; destruct (0 <? num_loop_closures_ s'); cbn; done|]).
  exact Hfile.
Qed.

Lemma filter_dsg_edge_log (prefix : N) (l : list PoseGraphEdge) :
  filter (λ entry, lc_dsg entry = true) (edge_log prefix <$> l) = [].
Proof.
  induction l as [|edge l IH]; [done|].
  cbn [fmap list_fmap]. by rewrite filter_cons_False.
Qed.

Lemma filter_dsg_candidates (queue : list LoopClosureResult) :
  filter (λ entry, lc_dsg entry = true) (loop_closure_log <$> queue)
  = loop_closure_log <$> queue.
Proof.
  induction queue as [|result l IH]; [done|].
  cbn [fmap list_fmap]. rewrite filter_cons_True by done. by f_equal.
Qed.

Lemma step_books (e : Event) (s s' : DsgBackend) :
  step e s = Some s' →
  config s' = config s
  ∧ filter (λ entry, lc_dsg entry = true) (loop_closures_ s') =
      filter (λ entry, lc_dsg entry = true) (loop_closures_ s)
      ++ (loop_closure_log <$> drained_by e s)
  ∧ status_file_ s `prefix_of` status_file_ s'
  ∧ (have_loopclosures_ s = true ∨ drained_by e s ≠ [] →
     have_loopclosures_ s' = true).
Proof.
  destruct e as [msg|msg|msg|write|b]; cbn [step drained_by].
  1-4: intros [= <-]; cbn; rewrite app_nil_r; repeat split; try done;
       by intros [?|?].
  intros Hturn.
  destruct (runPgmo_books b s s' Hturn) as (new & _ & Hconfig & Hlog & Hflag & _ & Hfile).
  split; [exact Hconfig|]. split; [|split].
  - by rewrite Hlog, !filter_app, filter_dsg_edge_log, filter_dsg_candidates.
  - rewrite Hfile. by apply prefix_app_r.
  - rewrite Hflag. intros [->|Hqueue]; [done|].
    rewrite bool_decide_eq_false_2 by done. cbn. by rewrite orb_true_r.
Qed.

(** What a run never loses.  Over any run of callbacks, front-end writes
    and turns of the loop that returns: the settings stay; the entries of
    [loop_closures_] marked as from the scene graph are, in order, those
    that were there and one for each candidate drained; the status file
    only grows; and the has-loop-closures flag, once set or once a
    candidate was drained, stays set. *)
Theorem run_keeps_its_books (events : list Event) (s0 s : DsgBackend)
    (drained : list LoopClosureResult) :
  run events s0 = Some (s, drained) →
  config s = config s0
  ∧ filter (λ entry, lc_dsg entry = true) (loop_closures_ s) =
      filter (λ entry, lc_dsg entry = true) (loop_closures_ s0)
      ++ (loop_closure_log <$> drained)
  ∧ status_file_ s0 `prefix_of` status_file_ s
  ∧ (have_loopclosures_ s0 = true ∨ drained ≠ [] → have_loopclosures_ s = true).
Proof.
  revert s0 drained. induction events as [|e events IH]; intros s0 drained Hrun.
  - injection Hrun as <- <-. rewrite app_nil_r. repeat split; try done.
    by intros [?|?].
  - cbn [run] in Hrun. destruct (step e s0) as [s1|] eqn:Hstep; [|done].
    cbn [mbind option_bind] in Hrun.
    destruct (run events s1) as [[s2 drained2]|] eqn:Hrest; [|done].
    cbn in Hrun. injection Hrun as <- <-.
    destruct (step_books e s0 s1 Hstep) as (Hconfig1 & Hlog1 & Hfile1 & Hflag1).
    destruct (IH s1 drained2 Hrest) as (Hconfig2 & Hlog2 & Hfile2 & Hflag2).
    split; [by rewrite Hconfig2|]. split; [|split].
    + by rewrite Hlog2, Hlog1, fmap_app, app_assoc.
    + by etransitivity.
    + intros [Hset|Hdrained].
      * apply Hflag2. left. apply Hflag1. by left.
      * apply Hflag2. destruct (drained_by e s0) as [|result l] eqn:Hfirst.
        -- right. by rewrite app_nil_l in Hdrained.
        -- left. apply Hflag1. right. done.
Qed.

End Status.

(** * The mesh update *)

Section Mesh.
Context `{Geometry} `{!PgmoTypes} `{!Pgmo} `{!DsgCollaborators}.

Lemma fullMeshCallback_last (msgs : list KimeraPgmoMesh) (last_msg : KimeraPgmoMesh)
    (s : DsgBackend) :
  foldl (λ s msg, fullMeshCallback msg s) s (msgs ++ [last_msg])
  = fullMeshCallback last_msg (foldl (λ s msg, fullMeshCallback msg s) s msgs).
Proof. by rewrite foldl_app. Qed.

Lemma fullMeshCallback_solver (msgs : list KimeraPgmoMesh) (s : DsgBackend) :
  deformation_graph_ (foldl (λ s msg, fullMeshCallback msg s) s msgs)
    = deformation_graph_ s
  ∧ config (foldl (λ s msg, fullMeshCallback msg s) s msgs) = config s
  ∧ private_dsg_ (foldl (λ s msg, fullMeshCallback msg s) s msgs) = private_dsg_ s.
Proof.
  revert s. induction msgs as [|msg msgs IH]; intros s; [done|].
  cbn [foldl]. destruct (IH (fullMeshCallback msg s)) as (-> & -> & ->). done.
Qed.

Lemma updateDsgMesh_not_new (s : DsgBackend) :
  latest_mesh_ s = None ∨ have_new_mesh_ s = false → updateDsgMesh s = s.
Proof.
  unfold updateDsgMesh. intros [->|Hold]; [done|].
  rewrite Hold. by destruct (latest_mesh_ s).
Qed.

Lemma updateDsgMesh_flag (s : DsgBackend) :
  latest_mesh_ (updateDsgMesh s) = latest_mesh_ s
  ∧ (latest_mesh_ s = None ∨ have_new_mesh_ (updateDsgMesh s) = false).
Proof.
  unfold updateDsgMesh. destruct (latest_mesh_ s) as [latest_mesh|] eqn:Hlatest;
    [|by split; [|left]].
  destruct (have_new_mesh_ s) eqn:Hnew; cbn [negb]; [|by split; [|right]].
  destruct (PgmoMeshMsgToPolygonMesh latest_mesh) as [input_mesh stamps].
  destruct (_ =? 0); by split; [|right].
Qed.

Lemma updateDsgMesh_idempotent (s : DsgBackend) :
  updateDsgMesh (updateDsgMesh s) = updateDsgMesh s.
Proof.
  apply updateDsgMesh_not_new. destruct (updateDsgMesh_flag s) as [Hsame [Hnone|Hold]].
  - left. by rewrite Hsame.
  - by right.
Qed.

(** The mesh update on a mesh that is new. *)
Lemma updateDsgMesh_new (latest_mesh : KimeraPgmoMesh) (s : DsgBackend) :
  latest_mesh_ s = Some latest_mesh →
  have_new_mesh_ s = true →
  have_new_mesh_ (updateDsgMesh s) = false
  ∧ (uint32_mul (cloud_height (PgmoMeshMsgToPolygonMesh latest_mesh).1)
       (cloud_width (PgmoMeshMsgToPolygonMesh latest_mesh).1) = 0 →
     deformation_graph_ (updateDsgMesh s) = deformation_graph_ s
     ∧ private_dsg_ (updateDsgMesh s) = private_dsg_ s)
  ∧ (uint32_mul (cloud_height (PgmoMeshMsgToPolygonMesh latest_mesh).1)
       (cloud_width (PgmoMeshMsgToPolygonMesh latest_mesh).1) ≠ 0 →
     deformation_graph_ (updateDsgMesh s) =
       deformation_graph_ s
       ++ [deformMesh_call (PgmoMeshMsgToPolygonMesh latest_mesh).1
             (PgmoMeshMsgToPolygonMesh latest_mesh).2
             (robot_vertex_prefix_ (config s)) (num_interp_pts_ (config s))
             (interp_horizon_ (config s))]
     ∧ graph_mesh (graph (private_dsg_ (updateDsgMesh s))) =
         Some (deformMesh (deformation_graph_ s)
                 (PgmoMeshMsgToPolygonMesh latest_mesh).1
                 (PgmoMeshMsgToPolygonMesh latest_mesh).2
                 (robot_vertex_prefix_ (config s)) (num_interp_pts_ (config s))
                 (interp_horizon_ (config s)))
     ∧ updated (private_dsg_ (updateDsgMesh s)) = true).
Proof.
  intros Hlatest Hnew. unfold updateDsgMesh. rewrite Hlatest, Hnew. cbn [negb].
  destruct (PgmoMeshMsgToPolygonMesh latest_mesh) as [input_mesh stamps]. cbn [fst snd].
  cbn [config with_have_new_mesh_].
  destruct (uint32_mul (cloud_height input_mesh) (cloud_width input_mesh) =? 0)
    eqn:Hpoints.
  - apply Z.eqb_eq in Hpoints. split; [done|]. split; [done|]. by intros [].
  - apply Z.eqb_neq in Hpoints. split; [done|]. split; [by intros ?|]. done.
Qed.

(** A mesh is deformed once.  Of the meshes that arrived since the last
    mesh update only the last one counts.  The update clears the new-mesh
    flag in any case; when the cloud of that mesh has a number of points
    that is not 0 as a 32-bit product of height and width, it makes one
    call of deformMesh, with the vertex prefix, the number of
    interpolation points and the horizon of the settings, stores the
    mesh returned in the private graph and marks the graph updated;
    otherwise it makes no call.  A second update without a new mesh
    changes nothing. *)
Theorem latest_mesh_is_deformed_once (msgs : list KimeraPgmoMesh)
    (last_msg : KimeraPgmoMesh) (s : DsgBackend) :
  let s1 := foldl (λ s msg, fullMeshCallback msg s) s (msgs ++ [last_msg]) in
  let input_mesh := (PgmoMeshMsgToPolygonMesh last_msg).1 in
  let stamps := (PgmoMeshMsgToPolygonMesh last_msg).2 in
  have_new_mesh_ (updateDsgMesh s1) = false
  ∧ latest_mesh_ (updateDsgMesh s1) = Some last_msg
  ∧ (uint32_mul (cloud_height input_mesh) (cloud_width input_mesh) = 0 →
     calls_since (deformation_graph_ s) (updateDsgMesh s1) = []
     ∧ private_dsg_ (updateDsgMesh s1) = private_dsg_ s)
  ∧ (uint32_mul (cloud_height input_mesh) (cloud_width input_mesh) ≠ 0 →
     calls_since (deformation_graph_ s) (updateDsgMesh s1) =
       [deformMesh_call input_mesh stamps (robot_vertex_prefix_ (config s))
          (num_interp_pts_ (config s)) (interp_horizon_ (config s))]
     ∧ graph_mesh (graph (private_dsg_ (updateDsgMesh s1))) =
         Some (deformMesh (deformation_graph_ s) input_mesh stamps
                 (robot_vertex_prefix_ (config s)) (num_interp_pts_ (config s))
                 (interp_horizon_ (config s)))
     ∧ updated (private_dsg_ (updateDsgMesh s1)) = true)
  ∧ updateDsgMesh (updateDsgMesh s1) = updateDsgMesh s1.
Proof.
  intros s1 input_mesh stamps. unfold s1. rewrite fullMeshCallback_last.
  destruct (fullMeshCallback_solver msgs s) as (Hcalls & Hconfig & Hprivate).
  set (s0 := foldl (λ s msg, fullMeshCallback msg s) s msgs) in *.
  destruct (updateDsgMesh_new last_msg (fullMeshCallback last_msg s0) eq_refl eq_refl)
    as (Hflag & Hempty & Hfull).
  fold input_mesh stamps in Hempty, Hfull.
  cbn [config deformation_graph_ private_dsg_ fullMeshCallback with_have_new_mesh_
       with_latest_mesh_] in Hempty, Hfull.
  rewrite ?Hcalls, ?Hprivate in Hempty. rewrite ?Hcalls, ?Hconfig in Hfull.
  split; [exact Hflag|]. split.
  { by destruct (updateDsgMesh_flag (fullMeshCallback last_msg s0)) as [-> _]. }
  split.
  { intros Hpoints. destruct (Hempty Hpoints) as [Hsame ?]. split; [|done].
    by apply calls_since_same. }
  split.
  { intros Hpoints. destruct (Hfull Hpoints) as (Hcall & ? & ?). split; [|done].
    unfold calls_since. by rewrite Hcall, drop_app_length. }
  apply updateDsgMesh_idempotent.
Qed.

End Mesh.

(** * Merging the front end's graph *)

Section Merge.
Context `{Geometry} `{!PgmoTypes} `{!Pgmo} `{!DsgCollaborators}.

(** A layer once the nodes of a list were removed from it one by one. *)
Lemma layer_removeNode_list (removed : list NodeId) (l : SceneGraphLayer) :
  (∀ id, layer_nodes (foldl layer_removeNode l removed) !! id =
         if bool_decide (id ∈ removed) then None else layer_nodes l !! id)
  ∧ (∀ e, e ∈ layer_edges (foldl layer_removeNode l removed) ↔
          e ∈ layer_edges l ∧ (e.1 ∉ removed) ∧ (e.2 ∉ removed)).
Proof.
  revert l. induction removed as [|r removed IH]; intros l.
  - split; [done|]. intros e. cbn. rewrite !elem_of_nil. tauto.
  - cbn [foldl]. destruct (IH (layer_removeNode l r)) as [IHnodes IHedges]. split.
    + intros id. rewrite IHnodes. cbn [layer_nodes layer_removeNode].
      case_bool_decide as Hin.
      * rewrite bool_decide_eq_true_2; [done|]. by right.
      * destruct (decide (id = r)) as [->|Hne].
        -- rewrite bool_decide_eq_true_2 by left. apply lookup_delete_eq.
        -- rewrite bool_decide_eq_false_2.
           ++ by apply lookup_delete_ne.
           ++ intros [?|?]%elem_of_cons; done.
    + intros e. rewrite IHedges. cbn [layer_edges layer_removeNode].
      rewrite list_elem_of_filter, !not_elem_of_cons. tauto.
Qed.

(** Merging the front end's graph.  Without a write of the front end
    since the last merge nothing happens.  After a write, the private
    graph is the merge of the shared graph into it, the newly active
    places are those of the front end, and the flag of the shared state
    is cleared while its graph and its queue stay.  When the shared graph
    has a places layer, no node the front end reports as removed is left
    in the copy of the places the backend keeps, and no edge of the copy
    touches such a node; when it has none, the copy stays.  The solver is
    not touched, and a second merge right after changes nothing. *)
Theorem updatePrivateDsg_merges_once (s : DsgBackend) :
  (updated (shared_dsg_ s) = false → updatePrivateDsg s = s)
  ∧ (updated (shared_dsg_ s) = true →
     graph (private_dsg_ (updatePrivateDsg s)) =
       mergeGraph (graph (private_dsg_ s)) (graph (shared_dsg_ s))
     ∧ latest_places (private_dsg_ (updatePrivateDsg s)) = latest_places (shared_dsg_ s)
     ∧ updated (private_dsg_ (updatePrivateDsg s)) = updated (private_dsg_ s)
     ∧ (hasLayer PLACES (graph (shared_dsg_ s)) = true →
        ∀ id, id ∈ getRemovedNodes (graph (shared_dsg_ s)) →
          layer_nodes (shared_places_copy_ (updatePrivateDsg s)) !! id = None
          ∧ ∀ e, e ∈ layer_edges (shared_places_copy_ (updatePrivateDsg s)) →
              e.1 ≠ id ∧ e.2 ≠ id)
     ∧ (hasLayer PLACES (graph (shared_dsg_ s)) = false →
        shared_places_copy_ (updatePrivateDsg s) = shared_places_copy_ s))
  ∧ updated (shared_dsg_ (updatePrivateDsg s)) = false
  ∧ graph (shared_dsg_ (updatePrivateDsg s)) = graph (shared_dsg_ s)
  ∧ loop_closures (shared_dsg_ (updatePrivateDsg s)) = loop_closures (shared_dsg_ s)
  ∧ latest_places (shared_dsg_ (updatePrivateDsg s)) = latest_places (shared_dsg_ s)
  ∧ deformation_graph_ (updatePrivateDsg s) = deformation_graph_ s
  ∧ updatePrivateDsg (updatePrivateDsg s) = updatePrivateDsg s.
Proof.
  assert (Hidle : ∀ s0, updated (shared_dsg_ s0) = false → updatePrivateDsg s0 = s0).
  { intros s0 Hflag. unfold updatePrivateDsg. by rewrite Hflag. }
  assert (Hflag : updated (shared_dsg_ (updatePrivateDsg s)) = false).
  { unfold updatePrivateDsg. destruct (updated (shared_dsg_ s)) eqn:Hupdated; [|done].
    by destruct (hasLayer PLACES (graph (shared_dsg_ s))). }
  split; [apply Hidle|]. split.
  { intros Hupdated. unfold updatePrivateDsg. rewrite Hupdated.
    destruct (hasLayer PLACES (graph (shared_dsg_ s))) eqn:Hplaces; cbn.
    - split; [done|]. split; [done|]. split; [done|]. split; [|done].
      intros _ id Hid.
      destruct (layer_removeNode_list (getRemovedNodes (graph (shared_dsg_ s)))
                  (mergeLayer (shared_places_copy_ s) (graph (shared_dsg_ s))))
        as [Hnodes Hedges].
      split.
      + rewrite Hnodes. by rewrite bool_decide_eq_true_2.
      + intros e He. apply Hedges in He as (_ & Hsource & Htarget).
        split; intros Heq; [apply Hsource|apply Htarget]; by rewrite Heq.
    - by repeat split. }
  split; [exact Hflag|].
  split. { unfold updatePrivateDsg. destruct (updated (shared_dsg_ s)); [|done].
           by destruct (hasLayer PLACES (graph (shared_dsg_ s))). }
  split. { unfold updatePrivateDsg. destruct (updated (shared_dsg_ s)); [|done].
           by destruct (hasLayer PLACES (graph (shared_dsg_ s))). }
  split. { unfold updatePrivateDsg. destruct (updated (shared_dsg_ s)); [|done].
           by destruct (hasLayer PLACES (graph (shared_dsg_ s))). }
  split; [apply updatePrivateDsg_calls|].
  by apply Hidle.
Qed.

End Merge.

(** * When the solver steps throw *)

Section Throws.
Context `{Geometry} `{!PgmoTypes} `{!Pgmo} `{!DsgCollaborators}.

Lemma loop_closure_call_None (g : DynamicSceneGraph) (result : LoopClosureResult) :
  loop_closure_call g result = None ↔
  getDynamicNode (from_node result) g = None ∨ getDynamicNode (to_node result) g = None.
Proof.
  unfold loop_closure_call.
  destruct (getDynamicNode (from_node result) g), (getDynamicNode (to_node result) g);
    cbn; split; try done; try (by left); try (by right); by intros [?|?].
Qed.

Lemma mst_edge_call_None (places : SceneGraphLayer) (edge : Edge) :
  mst_edge_call places edge = None ↔
  layer_nodes places !! source edge = None ∨ layer_nodes places !! target edge = None.
Proof.
  unfold mst_edge_call, getPosition.
  destruct (layer_nodes places !! source edge), (layer_nodes places !! target edge);
    cbn; split; try done; try (by left); try (by right); by intros [?|?].
Qed.

(** What makes the two solver steps throw.  The loop over the
    loop-closure queue throws exactly when a queued candidate names an
    agent node, at either end, that is not a dynamic node of the shared
    graph; the turn of the loop it is part of then ends there.  Adding
    the places throws exactly when the places copy has nodes and an edge
    of its spanning tree has an end that is not a node of the copy. *)
Theorem solver_steps_throw_on_missing_nodes (s : DsgBackend) :
  (addInternalLCDToDeformationGraph s = None ↔
   ∃ result, result ∈ loop_closures (shared_dsg_ s)
     ∧ (getDynamicNode (from_node result) (graph (shared_dsg_ s)) = None
        ∨ getDynamicNode (to_node result) (graph (shared_dsg_ s)) = None))
  ∧ (addInternalLCDToDeformationGraph s = None → ∀ b, runPgmo b s = None)
  ∧ (addPlacesToDeformationGraph s = None ↔
     layer_nodes (shared_places_copy_ s) ≠ ∅
     ∧ ∃ edge, edge ∈ mst_edges (getMinimumSpanningEdges (shared_places_copy_ s))
         ∧ (layer_nodes (shared_places_copy_ s) !! source edge = None
            ∨ layer_nodes (shared_places_copy_ s) !! target edge = None)).
Proof.
  assert (Hqueue : addInternalLCDToDeformationGraph s = None ↔
    mapM (loop_closure_call (graph (shared_dsg_ s))) (loop_closures (shared_dsg_ s))
      = None).
  { rewrite addInternalLCDToDeformationGraph_closed_form.
    by destruct (mapM _ _). }
  split; [|split].
  - rewrite Hqueue, mapM_None, Exists_exists.
    by setoid_rewrite loop_closure_call_None.
  - intros Hnone%Hqueue b. unfold runPgmo, pgmo_critical_section.
    assert (Hshared : shared_dsg_ (drain_updates b (with_status_ status_reset s)).1
                      = shared_dsg_ s).
    { unfold drain_updates. simpl.
      destruct (deformation_graph_updates_ s); simpl;
        destruct (pose_graph_updates_ s); done. }
    destruct (drain_updates b (with_status_ status_reset s)) as [s1 hgu].
    cbn [fst] in Hshared.
    by rewrite addInternalLCDToDeformationGraph_closed_form, Hshared, Hnone.
  - clear Hqueue. unfold addPlacesToDeformationGraph. case_bool_decide as Hempty.
    + split; [done|]. by intros [? _].
    + destruct (mapM _ _) as [edge_calls|] eqn:Hcalls.
      * split; [done|]. intros (_ & edge & Hedge & Hmissing).
        apply mst_edge_call_None in Hmissing.
        apply mapM_Some in Hcalls.
        exfalso. clear -Hcalls Hedge Hmissing.
        induction Hcalls as [|e c l l' Hc _ IH]; [by apply elem_of_nil in Hedge|].
        apply elem_of_cons in Hedge as [->|Hedge]; [by rewrite Hmissing in Hc|].
        by apply IH.
      * split; [|done]. intros _. split; [done|].
        apply mapM_None, Exists_exists in Hcalls as (edge & Hedge & Hnone).
        exists edge. split; [done|]. by apply mst_edge_call_None.
Qed.

End Throws.

(** * The attributes of the building node *)

Section BuildingLooks.
Context `{Geometry} `{!PgmoTypes} `{!Pgmo} `{!DsgCollaborators}.

(** A building node that is there is moved and nothing else.  After the
    building step, on a graph with a rooms and a buildings layer whose
    rooms have no parent other than the building node, a building node
    that was in the graph before has its colour, label, name and mesh
    connections as before and sits at the mean of the positions of the
    rooms (their sum from zero in ascending order of identifier, divided
    by their number); one that the step made sits there too and has the
    colour of the settings, the building label and its label as name. *)
Theorem building_node_is_only_moved (building_color : NodeColor)
    (g g' : DynamicSceneGraph) (bn' : SceneGraphNode) :
  hasLayer ROOMS g = true →
  building_hierarchy building_node_id g →
  updateBuildingNode_graph building_color g = Some g' →
  graph_nodes g' !! building_node_id = Some bn' →
  ∃ rooms,
    getLayer ROOMS g = Some rooms
    ∧ rooms ≠ ∅
    ∧ attributes bn' =
        match graph_nodes g !! building_node_id with
        | Some bn =>
            {| position := mean_position (positions_of rooms);
               color := color (attributes bn);
               semantic_label := semantic_label (attributes bn);
               name := name (attributes bn);
               pcl_mesh_connections := pcl_mesh_connections (attributes bn) |}
        | None =>
            {| position := mean_position (positions_of rooms);
               color := building_color;
               semantic_label := kBuildingSemanticLabel;
               name := getLabel building_node_id;
               pcl_mesh_connections := [] |}
        end.
Proof.
  intros Hrooms Hhierarchy Hstep Hbn'.
  pose proof Hhierarchy as (Hbuildings & Hid & Hhang).
  destruct (updateBuildingNode_graph_spec building_color g Hrooms Hhierarchy)
    as (g0 & rooms & rooms' & Hstep0 & Hbefore & Hafter & Hattr & Hiff & _).
  rewrite Hstep in Hstep0. injection Hstep0 as <-.
  assert (rooms ≠ ∅) as Hsome.
  { intros ->. assert (rooms' ≠ ∅) as Hsome'.
    { apply Hiff, hasNode_true. by rewrite Hbn'. }
    apply Hsome'. apply map_empty. intros id. specialize (Hattr id).
    rewrite lookup_empty in Hattr. by destruct (rooms' !! id). }
  exists rooms. split; [done|]. split; [done|].
  unfold updateBuildingNode_graph in Hstep. rewrite Hbefore in Hstep.
  cbn [mbind option_bind] in Hstep. cbv zeta in Hstep.
  rewrite (getLayer_Some ROOMS g Hrooms) in Hbefore. injection Hbefore as <-.
  set (rooms := filter (λ kv, layer kv.2 = ROOMS) (graph_nodes g)) in *.
  destruct (size_of (nodes_in_order rooms) =? 0) eqn:Hsize.
  { exfalso. apply Hsome. apply nodes_in_order_nil. apply Z.eqb_eq in Hsize.
    unfold size_of in Hsize. apply length_zero_iff_nil. lia. }
  set (b := building_node_id) in *.
  injection Hstep as Hstep. rewrite <- rooms_centroid_mean.
  destruct (hasNode b g) eqn:Hhas; cbn [negb] in Hstep.
  - apply hasNode_true in Hhas as [bn0 Hbn0]. rewrite Hbn0.
    destruct (rooms_linked b g
                (set_graph_nodes
                   (alter (set_position (rooms_centroid rooms)) b (graph_nodes g)) g)
                (set_position (rooms_centroid rooms) bn0) Hrooms Hbuildings Hid)
      as (bn1 & _ & Hbn1 & _ & Hlooks & _).
    + cbn. by rewrite lookup_alter_eq, Hbn0.
    + cbn. by apply Hid.
    + done.
    + intros id ?. cbn. by rewrite lookup_alter_ne.
    + intros r rn Hr Hl. destruct (Hhang r rn Hr Hl) as [?|[? (bn & Hbn & ?)]];
        [by left|]. right. rewrite Hbn0 in Hbn. by injection Hbn as <-.
    + fold rooms in Hbn1. rewrite Hstep, Hbn' in Hbn1. injection Hbn1 as <-.
      by rewrite Hlooks.
  - apply hasNode_false in Hhas. rewrite Hhas.
    unfold emplaceNode in Hstep. rewrite Hbuildings in Hstep.
    unfold hasNode in Hstep. rewrite bool_decide_eq_false_2 in Hstep.
    2:{ rewrite Hhas. by intros [? ?]. }
    cbn [andb negb] in Hstep.
    set (fresh := {| layer := BUILDINGS;
                     attributes :=
                       {| position := rooms_centroid rooms;
                          color := building_color;
                          semantic_label := kBuildingSemanticLabel;
                          name := getLabel b;
                          pcl_mesh_connections := [] |};
                     parent_ := None; children_ := ∅ |}) in *.
    destruct (rooms_linked b g (set_graph_nodes (<[b := fresh]> (graph_nodes g)) g)
                fresh Hrooms Hbuildings Hid)
      as (bn1 & _ & Hbn1 & _ & Hlooks & _).
    + cbn. apply lookup_insert_eq.
    + done.
    + done.
    + intros id ?. cbn. by rewrite lookup_insert_ne.
    + intros r rn Hr Hl. destruct (Hhang r rn Hr Hl) as [?|[? (bn & Hbn & ?)]];
        [by left|]. by rewrite Hhas in Hbn.
    + fold rooms in Hbn1. rewrite Hstep, Hbn' in Hbn1. injection Hbn1 as <-.
      by rewrite Hlooks.
Qed.

(** The batch finder does not touch a building node that is there.  On a
    graph with a rooms and a buildings layer whose rooms have no parent
    other than [NodeSymbol('B', 1)], a node under that identifier keeps
    every attribute, its position included, whatever the rooms and the
    colour asked for; and running the finder again on the graph it
    leaves, with any colour, changes nothing. *)
Theorem findBuildings_keeps_the_building (color color' : NodeColor)
    (g g' : DynamicSceneGraph) :
  hasLayer ROOMS g = true →
  building_hierarchy building_id g →
  findBuildings color g = Some g' →
  (∀ bn, graph_nodes g !! building_id = Some bn →
     ∃ bn', graph_nodes g' !! building_id = Some bn'
            ∧ attributes bn' = attributes bn)
  ∧ findBuildings color' g' = Some g'.
Proof.
  intros Hrooms Hhierarchy Hfind.
  pose proof Hhierarchy as (Hbuildings & Hid & Hhang).
  destruct (findBuildings_spec color g Hrooms Hhierarchy)
    as (g0 & rooms & rooms' & bn1 & Hfind0 & Hbefore & Hafter & _ & Hbn1 & _ & _
        & Hchildren & _).
  rewrite Hfind in Hfind0. injection Hfind0 as <-.
  split.
  - intros bn Hbn. unfold findBuildings in Hfind. rewrite Hrooms, Hbefore in Hfind.
    cbn [negb mbind option_bind] in Hfind. cbv zeta in Hfind.
    injection Hfind as Hfind.
    rewrite (getLayer_Some ROOMS g Hrooms) in Hbefore. injection Hbefore as <-.
    unfold emplaceNode in Hfind. rewrite Hbuildings in Hfind.
    unfold hasNode in Hfind. rewrite bool_decide_eq_true_2 in Hfind by (by rewrite Hbn).
    cbn [andb negb] in Hfind.
    destruct (rooms_linked building_id g g bn Hrooms Hbuildings Hid Hbn)
      as (bn2 & _ & Hbn2 & _ & Hlooks & _).
    + by apply Hid.
    + done.
    + done.
    + intros r rn Hr Hl. destruct (Hhang r rn Hr Hl) as [?|[? (bn0 & Hbn0 & ?)]];
        [by left|]. right. rewrite Hbn in Hbn0. by injection Hbn0 as <-.
    + rewrite Hfind in Hbn2. by exists bn2.
  - assert (hasLayer ROOMS g' = true) as Hrooms'.
    { unfold getLayer in Hafter. by destruct (hasLayer ROOMS g'). }
    unfold findBuildings. rewrite Hrooms', Hafter.
    cbn [negb mbind option_bind]. cbv zeta. f_equal.
    unfold emplaceNode, hasNode.
    rewrite (bool_decide_eq_true_2 (is_Some (graph_nodes g' !! building_id)))
      by (by rewrite Hbn1).
    rewrite andb_false_r.
    apply insert_room_edges_linked. intros r Hr.
    apply list_elem_of_fmap in Hr as ([r' rn] & -> & Hrn).
    apply elem_of_nodes_in_order in Hrn. cbn.
    apply (getLayer_lookup ROOMS g' rooms' r' rn Hafter) in Hrn as [Hrn Hlayer].
    exists rn. split; [done|].
    destruct (Hchildren r' rn Hrn Hlayer) as [-> _]. by eexists.
Qed.

End BuildingLooks.

(** * Parameters given as text *)

Section Parsers.

(** Every character is one of the 256. *)
Lemma ascii_enumerated (c : Ascii.ascii) :
  c ∈ Ascii.ascii_of_nat <$> List.seq 0%nat 256%nat.
Proof.
  rewrite <- (Ascii.ascii_nat_embedding c). apply list_elem_of_fmap_2.
  apply elem_of_seq. pose proof (Ascii.nat_ascii_bounded c). lia.
Qed.

(** The small and the capital form of a letter are the characters that
    [toupper] sends to the same one. *)
Lemma same_up_to_case_toupper (a b : Ascii.ascii) :
  same_up_to_case a b = Ascii.eqb (toupper a) (toupper b).
Proof.
  assert (Forall (λ a, Forall (λ b, same_up_to_case a b
                                     = Ascii.eqb (toupper a) (toupper b))
                         (Ascii.ascii_of_nat <$> List.seq 0%nat 256%nat))
            (Ascii.ascii_of_nat <$> List.seq 0%nat 256%nat)) as Hall.
  { apply (bool_decide_unpack _). vm_compute. exact I. }
  rewrite Forall_forall in Hall. specialize (Hall a (ascii_enumerated a)).
  rewrite Forall_forall in Hall. exact (Hall b (ascii_enumerated b)).
Qed.

Lemma equal_ignoring_case_to_upper (s t : String.string) :
  equal_ignoring_case s t = String.eqb (to_upper s) (to_upper t).
Proof.
  revert t. induction s as [|a s IH]; intros [|b t]; try reflexivity.
  cbn [equal_ignoring_case to_upper String.eqb].
  rewrite same_up_to_case_toupper, IH.
  by destruct (Ascii.eqb (toupper a) (toupper b)).
Qed.

(** The three parsers of textual parameters ignore the case of letters:
    two texts that differ in the case of their letters at most parse
    alike.  Each recognises its keywords, written in any mix of small
    and capital letters, and nothing else, and falls back on a default
    for any other text: no clustering for the room mode, [UPDATE] for
    the verbosity, [LM] for the solver.  A room mode that is not set is
    [MODULARITY]. *)
Theorem parameters_parse_whatever_the_case (text text' : String.string) :
  equal_ignoring_case text text' = true →
  parseRoomClusterMode (Some text) = parseRoomClusterMode (Some text')
  ∧ parseVerbosityFromString text = parseVerbosityFromString text'
  ∧ parseSolverFromString text = parseSolverFromString text'
  ∧ parseRoomClusterMode None = MODULARITY
  ∧ (parseRoomClusterMode (Some text) = SPECTRAL
     ↔ equal_ignoring_case text "SPECTRAL"%string = true)
  ∧ (parseRoomClusterMode (Some text) = MODULARITY
     ↔ equal_ignoring_case text "MODULARITY"%string = true)
  ∧ (parseRoomClusterMode (Some text) = NONE
     ↔ equal_ignoring_case text "SPECTRAL"%string = false
       ∧ equal_ignoring_case text "MODULARITY"%string = false)
  ∧ (parseVerbosityFromString text = QUIET
     ↔ equal_ignoring_case text "QUIET"%string = true)
  ∧ (parseVerbosityFromString text = VERBOSE
     ↔ equal_ignoring_case text "VERBOSE"%string = true)
  ∧ (parseVerbosityFromString text = UPDATE
     ↔ equal_ignoring_case text "QUIET"%string = false
       ∧ equal_ignoring_case text "VERBOSE"%string = false)
  ∧ (parseSolverFromString text = GN ↔ equal_ignoring_case text "GN"%string = true)
  ∧ (parseSolverFromString text = LM ↔ equal_ignoring_case text "GN"%string = false).
Proof.
  intros Hsame. rewrite equal_ignoring_case_to_upper in Hsame.
  apply String.eqb_eq in Hsame.
  rewrite !equal_ignoring_case_to_upper.
  unfold parseRoomClusterMode, parseVerbosityFromString, parseSolverFromString.
  cbv zeta. rewrite <- Hsame.
  change (to_upper "SPECTRAL"%string) with "SPECTRAL"%string.
  change (to_upper "MODULARITY"%string) with "MODULARITY"%string.
  change (to_upper "QUIET"%string) with "QUIET"%string.
  change (to_upper "VERBOSE"%string) with "VERBOSE"%string.
  change (to_upper "GN"%string) with "GN"%string.
  split; [done|]. split; [done|]. split; [done|]. split; [reflexivity|].
  destruct (String.eqb_spec (to_upper text) "SPECTRAL"%string) as [->|?];
    [by repeat split; try done; intros []|].
  destruct (String.eqb_spec (to_upper text) "MODULARITY"%string) as [->|?];
    [by repeat split; try done; intros []|].
  destruct (String.eqb_spec (to_upper text) "NONE"%string) as [->|?];
    [by repeat split; try done; intros []|].
  destruct (String.eqb_spec (to_upper text) "UPDATE"%string) as [->|?];
    [by repeat split; try done; intros []|].
  destruct (String.eqb_spec (to_upper text) "QUIET"%string) as [->|?];
    [by repeat split; try done; intros []|].
  destruct (String.eqb_spec (to_upper text) "VERBOSE"%string) as [->|?];
    [by repeat split; try done; intros []|].
  destruct (String.eqb_spec (to_upper text) "LM"%string) as [->|?];
    [by repeat split; try done; intros []|].
  destruct (String.eqb_spec (to_upper text) "GN"%string) as [?|?];
    by repeat split; try done; intros [].
Qed.

End Parsers.

Section ParsersExamples.
Local Open Scope string_scope.

(** Keywords in small, capital and mixed letters, and a text that is no
    keyword: ["spectral"] and ["SpEcTrAl"] both give the spectral mode,
    ["Quiet"] the quiet verbosity, ["gn"] the Gauss-Newton solver, and
    ["gauss"] falls back on [LM]. *)
Lemma parameters_parse_whatever_the_case_witness :
  equal_ignoring_case "spectral" "SpEcTrAl" = true
  ∧ parseRoomClusterMode (Some "spectral") = SPECTRAL
  ∧ parseRoomClusterMode (Some "SpEcTrAl") = SPECTRAL
  ∧ parseVerbosityFromString "Quiet" = QUIET
  ∧ parseSolverFromString "gn" = GN
  ∧ parseSolverFromString "gauss" = LM.
Proof.
  split; [reflexivity|].
  destruct (parameters_parse_whatever_the_case "spectral" "SpEcTrAl" eq_refl)
    as (Hmode & _ & _ & _ & Hspectral & _).
  destruct (parameters_parse_whatever_the_case "Quiet" "QUIET" eq_refl)
    as (_ & _ & _ & _ & _ & _ & _ & Hquiet & _).
  destruct (parameters_parse_whatever_the_case "gn" "GN" eq_refl)
    as (_ & _ & _ & _ & _ & _ & _ & _ & _ & _ & Hgn & _).
  destruct (parameters_parse_whatever_the_case "gauss" "Gauss" eq_refl)
    as (_ & _ & _ & _ & _ & _ & _ & _ & _ & _ & _ & Hlm).
  split; [exact (proj2 Hspectral eq_refl)|].
  split; [rewrite <- Hmode; exact (proj2 Hspectral eq_refl)|].
  split; [exact (proj2 Hquiet eq_refl)|].
  split; [exact (proj2 Hgn eq_refl)|exact (proj2 Hlm eq_refl)].
Defined.

End ParsersExamples.

(** * The visualizer *)

Section VisualizerProperties.
Context `{Geometry} `{!PgmoTypes} `{!Pgmo} `{!DsgCollaborators}.

Lemma serve_requests (requests : list VisualizerRequest) (v : VisualizerState) :
  visualizer_show_frontend_ (foldl (λ v request, serve request v) v requests)
    = side_asked (visualizer_show_frontend_ v) requests
  ∧ visualizer_ (foldl (λ v request, serve request v) v requests) = visualizer_ v
  ∧ (visualizer_should_reset_ v = true →
     visualizer_should_reset_ (foldl (λ v request, serve request v) v requests) = true)
  ∧ (visualizer_should_reset_ (foldl (λ v request, serve request v) v requests) = false →
     side_asked (visualizer_show_frontend_ v) requests = visualizer_show_frontend_ v
     ∧ Forall (λ request, asks_frontend request = visualizer_show_frontend_ v) requests).
Proof.
  revert v. induction requests as [|request requests IH]; intros v; [done|].
  cbn [foldl]. destruct (IH (serve request v)) as (Hshow & Hcalls & Hset & Hclear).
  unfold side_asked in *. cbn [foldl].
  assert (visualizer_show_frontend_ (serve request v) = asks_frontend request) as Hside
    by (by destruct request).
  rewrite Hside in Hshow, Hclear.
  split; [exact Hshow|]. split; [by rewrite Hcalls; destruct request|]. split.
  - intros Hreset. apply Hset. destruct request; cbn; rewrite Hreset;
      by destruct (visualizer_show_frontend_ v).
  - intros Hreset. destruct (Hclear Hreset) as [Hlast Hall].
    assert (visualizer_should_reset_ (serve request v) = false) as Hfirst.
    { destruct (visualizer_should_reset_ (serve request v)) eqn:Hr; [|done].
      by rewrite (Hset eq_refl) in Hreset. }
    assert (asks_frontend request = visualizer_show_frontend_ v) as Hsame.
    { destruct request; cbn in Hfirst |- *;
        by destruct (visualizer_show_frontend_ v). }
    rewrite <- Hsame. split; [done|]. by constructor.
Qed.

Lemma graph_held_snoc (calls : list VisualizerCall) (c : VisualizerCall) :
  graph_held (calls ++ [c]) =
  match c with setGraph side => Some side | _ => graph_held calls end.
Proof.
  unfold graph_held. rewrite omap_app. destruct c; cbn; rewrite ?app_nil_r; [|done..].
  apply last_snoc.
Qed.

(** One turn of the visualizer, from a state in which the graph held is
    the side shown unless a reset is due. *)
Lemma runVisualizer_turn (requests : list VisualizerRequest) (v : VisualizerState)
    (s : DsgBackend) :
  visualizer_should_reset_ v = true
  ∨ graph_held (visualizer_ v) = Some (side_shown (visualizer_show_frontend_ v)) →
  visualizer_show_frontend_ (runVisualizer requests (v, s)).1
    = side_asked (visualizer_show_frontend_ v) requests
  ∧ visualizer_should_reset_ (runVisualizer requests (v, s)).1 = false
  ∧ graph_held (visualizer_ (runVisualizer requests (v, s)).1)
    = Some (side_shown (side_asked (visualizer_show_frontend_ v) requests))
  ∧ updated (private_dsg_ (runVisualizer requests (v, s)).2) = false.
Proof.
  intros Hinv. unfold runVisualizer.
  destruct (serve_requests requests v) as (Hshow & Hcalls & Hset & Hclear).
  set (v1 := foldl (λ v request, serve request v) v requests) in *.
  destruct (visualizer_should_reset_ v1) eqn:Hreset.
  - destruct (updated (private_dsg_ s)) eqn:Hupdated; cbn;
      rewrite ?graph_held_snoc, ?Hshow; by repeat split.
  - destruct (Hclear eq_refl) as [Hlast _].
    destruct Hinv as [Hdue|Hheld]; [discriminate (Hset Hdue)|].
    destruct (updated (private_dsg_ s)) eqn:Hupdated; cbn;
      rewrite ?graph_held_snoc, ?Hreset, ?Hshow, ?Hcalls, ?Hlast; by repeat split.
Qed.

(** The visualizer shows the side asked for.  After [startVisualizer]
    and any number of turns of the visualizer loop, each serving the
    requests that wait for it, at the end of a turn no reset is due, the
    graph the visualizer holds is the one of the side asked for last
    (the one of the parameter when nothing was asked), and the updated
    flag of the private graph is cleared.  A turn that finds no reset
    due and is asked only for the side on show makes no call of
    setGraph. *)
Theorem visualizer_shows_the_side_asked_for (show_frontend_dsg : option bool)
    (turns : list (list VisualizerRequest)) (last_turn : list VisualizerRequest)
    (s : DsgBackend) :
  let vs := foldl (λ vs requests, runVisualizer requests vs)
              (startVisualizer show_frontend_dsg, s) (turns ++ [last_turn]) in
  visualizer_should_reset_ vs.1 = false
  ∧ visualizer_show_frontend_ vs.1 =
      side_asked (default false show_frontend_dsg) (concat (turns ++ [last_turn]))
  ∧ graph_held (visualizer_ vs.1) = Some (side_shown (visualizer_show_frontend_ vs.1))
  ∧ updated (private_dsg_ vs.2) = false
  ∧ ∀ next_turn,
      Forall (λ request, asks_frontend request = visualizer_show_frontend_ vs.1)
        next_turn →
      visualizer_ (runVisualizer next_turn vs).1 = visualizer_ vs.1 ++ [redraw].
Proof.
  assert (Hrun : ∀ turns v s0,
    visualizer_should_reset_ v = true
    ∨ graph_held (visualizer_ v) = Some (side_shown (visualizer_show_frontend_ v)) →
    let vs := foldl (λ vs requests, runVisualizer requests vs) (v, s0) turns in
    visualizer_show_frontend_ vs.1
      = side_asked (visualizer_show_frontend_ v) (concat turns)
    ∧ (visualizer_should_reset_ vs.1 = true
       ∨ graph_held (visualizer_ vs.1) = Some (side_shown (visualizer_show_frontend_ vs.1)))
    ∧ (turns ≠ [] →
       visualizer_should_reset_ vs.1 = false ∧ updated (private_dsg_ vs.2) = false)).
  { clear. intros turns. induction turns as [|requests turns IH]; intros v s0 Hinv.
    - cbn. by repeat split.
    - cbn [foldl concat].
      destruct (runVisualizer_turn requests v s0 Hinv) as (Hshow & Hreset & Hheld & Hflag).
      destruct (runVisualizer requests (v, s0)) as [v1 s1] eqn:Hturn. cbn [fst snd] in *.
      destruct (IH v1 s1) as (Hshow' & Hinv' & Hlast).
      { right. by rewrite Hheld, Hshow. }
      split; [|split; [exact Hinv'|]].
      + rewrite Hshow', Hshow. unfold side_asked. by rewrite foldl_app.
      + intros _. destruct turns as [|requests' turns']; [by cbn|].
        by apply Hlast. }
  intros vs.
  destruct (Hrun (turns ++ [last_turn]) (startVisualizer show_frontend_dsg) s)
    as (Hshow & Hinv & Hlast); [by left|].
  fold vs in Hshow, Hinv, Hlast.
  destruct Hlast as [Hreset Hflag]; [by destruct turns|].
  destruct Hinv as [Hdue|Hheld]; [by rewrite Hdue in Hreset|].
  split; [exact Hreset|]. split; [exact Hshow|]. split; [exact Hheld|].
  split; [exact Hflag|].
  intros next_turn Hsame. destruct vs as [v s1]. cbn [fst snd] in *.
  unfold runVisualizer.
  assert (foldl (λ v request, serve request v) v next_turn = v) as ->.
  { clear -Hsame Hreset. induction Hsame as [|request l Hr _ IH]; [done|].
    cbn [foldl]. assert (serve request v = v) as ->; [|exact IH].
    destruct v as [show reset calls]. cbn in *. subst.
    by destruct request; cbn in *; subst. }
  rewrite Hreset, Hflag. done.
Qed.

End VisualizerProperties.

(** * The calls of a turn *)

Section TraceProperties.
Context `{Geometry} `{!PgmoTypes} `{!Pgmo} `{!DsgCollaborators}.

Lemma updateDsgMesh_trace (s : DsgBackend) :
  deformation_graph_ (updateDsgMesh s) = deformation_graph_ s ++ mesh_update_calls s.
Proof.
  unfold updateDsgMesh, mesh_update_calls.
  destruct (latest_mesh_ s) as [latest_mesh|]; [|by rewrite app_nil_r].
  destruct (have_new_mesh_ s); cbn [negb andb]; [|by rewrite app_nil_r].
  destruct (PgmoMeshMsgToPolygonMesh latest_mesh) as [input_mesh stamps]. cbn [fst snd].
  cbn [config with_have_new_mesh_].
  destruct (_ =? 0); cbn [negb]; [by rewrite app_nil_r|done].
Qed.

Lemma mesh_update_calls_same (s s' : DsgBackend) :
  latest_mesh_ s' = latest_mesh_ s →
  have_new_mesh_ s' = have_new_mesh_ s →
  config s' = config s →
  mesh_update_calls s' = mesh_update_calls s.
Proof. unfold mesh_update_calls. by intros -> -> ->. Qed.

Lemma addPlacesToDeformationGraph_trace (s s' : DsgBackend) :
  addPlacesToDeformationGraph s = Some s' →
  ∃ temp,
    temporary_calls (robot_vertex_prefix_ (config s)) (shared_places_copy_ s) = Some temp
    ∧ deformation_graph_ s' = deformation_graph_ s ++ temp
    ∧ latest_mesh_ s' = latest_mesh_ s
    ∧ have_new_mesh_ s' = have_new_mesh_ s
    ∧ config s' = config s.
Proof.
  unfold addPlacesToDeformationGraph, temporary_calls. case_bool_decide.
  - intros [= <-]. exists []. by rewrite app_nil_r.
  - destruct (mapM _ _) as [edge_calls|]; [|done].
    intros [= <-]. eexists. split; [reflexivity|done].
Qed.

Lemma optimize_trace (s s' : DsgBackend) :
  optimize s = Some s' →
  ∃ temp,
    (if add_places_to_deformation_graph_ (config s)
     then temporary_calls (robot_vertex_prefix_ (config s)) (shared_places_copy_ s)
     else Some []) = Some temp
    ∧ deformation_graph_ s' =
        deformation_graph_ s ++ temp ++ [optimize_call] ++ mesh_update_calls s.
Proof.
  unfold optimize. intros Hopt.
  destruct (if add_places_to_deformation_graph_ (config s)
            then addPlacesToDeformationGraph s else Some s) as [s1|] eqn:Hplaces;
    [|done].
  cbn [mbind option_bind] in Hopt. injection Hopt as <-.
  assert (∃ temp,
            (if add_places_to_deformation_graph_ (config s)
             then temporary_calls (robot_vertex_prefix_ (config s))
                    (shared_places_copy_ s)
             else Some []) = Some temp
            ∧ deformation_graph_ s1 = deformation_graph_ s ++ temp
            ∧ latest_mesh_ s1 = latest_mesh_ s
            ∧ have_new_mesh_ s1 = have_new_mesh_ s
            ∧ config s1 = config s) as (temp & Htemp & Hcalls & Hmesh & Hnew & Hconfig).
  { destruct (add_places_to_deformation_graph_ (config s)).
    - destruct (addPlacesToDeformationGraph_trace _ _ Hplaces)
        as (temp & ? & ? & ? & ? & ?).
      by exists temp.
    - injection Hplaces as <-. exists []. by rewrite app_nil_r. }
  exists temp. split; [exact Htemp|].
  etransitivity; [apply (updateDsgMesh_trace (call optimize_call s1))|].
  rewrite (mesh_update_calls_same s (call optimize_call s1)) by done.
  etransitivity;
    [apply (f_equal (λ l, (l ++ [optimize_call]) ++ mesh_update_calls s)); exact Hcalls|].
  by rewrite <- !app_assoc.
Qed.

Lemma private_dsg_critical_section_trace (have_graph_updates : bool)
    (s s' : DsgBackend) :
  private_dsg_critical_section have_graph_updates s = Some s' →
  ∃ temp,
    (if have_graph_updates && optimize_on_lc_ (config s) && have_loopclosures_ s
        && add_places_to_deformation_graph_ (config s)
     then temporary_calls (robot_vertex_prefix_ (config s))
            (shared_places_copy_ (updatePrivateDsg s))
     else Some []) = Some temp
    ∧ deformation_graph_ s' =
        deformation_graph_ s
        ++ (if have_graph_updates && optimize_on_lc_ (config s) && have_loopclosures_ s
            then temp ++ [optimize_call] ++ mesh_update_calls s
            else if call_update_periodically_ (config s)
                 then mesh_update_calls s else []).
Proof.
  unfold private_dsg_critical_section. intros Hsection.
  destruct (updatePrivateDsg_keeps s) as (Hconfig & _ & Hflag & _).
  destruct (updatePrivateDsg_mesh s) as (Hmesh & Hnew & _).
  pose proof (updatePrivateDsg_calls s) as Hcalls.
  pose proof (mesh_update_calls_same s (updatePrivateDsg s) Hmesh Hnew Hconfig) as Hsame.
  rewrite Hconfig, Hflag in Hsection.
  destruct (_ && _ && _).
  - destruct (optimize (updatePrivateDsg s)) as [s1|] eqn:Hopt; [|done].
    cbn in Hsection. injection Hsection as <-.
    destruct (optimize_trace _ _ Hopt) as (temp & Htemp & Htrace).
    rewrite Hconfig in Htemp. rewrite Hsame, Hcalls in Htrace.
    exists temp. cbn [andb]. split; [exact Htemp|exact Htrace].
  - destruct (call_update_periodically_ (config s));
      cbn in Hsection; injection Hsection as <-; exists []; (split; [done|]).
    + cbn. by rewrite updateDsgMesh_trace, Hsame, Hcalls.
    + cbn. by rewrite Hcalls, app_nil_r.
Qed.

(** The state at the end of the pgmo critical section and of the status
    assignments, in what the rest of the turn reads of it. *)
Lemma pgmo_section_state (b : bool) (s : DsgBackend) (new : list PgmoCall) :
  mapM (loop_closure_call (graph (shared_dsg_ s))) (loop_closures (shared_dsg_ s))
    = Some new →
  let s3 := update_status (num_loop_closures_ s)
              (after_loop_closures (loop_closures (shared_dsg_ s)) new
                 (drain_updates b (with_status_ status_reset s)).1) in
  config s3 = config s
  ∧ latest_mesh_ s3 = latest_mesh_ s
  ∧ have_new_mesh_ s3 = have_new_mesh_ s
  ∧ shared_places_copy_ s3 = shared_places_copy_ s
  ∧ updated (shared_dsg_ s3) = updated (shared_dsg_ s)
  ∧ graph (shared_dsg_ s3) = graph (shared_dsg_ s)
  ∧ deformation_graph_ s3 = deformation_graph_ s ++ pgmo_section_calls s new
  ∧ (drain_updates b (with_status_ status_reset s)).2
      && optimize_on_lc_ (config s3) && have_loopclosures_ s3
    = optimize_guard b s.
Proof.
  intros Hnew s3.
  destruct (between_factors_loop_closure_calls _ _ _ Hnew) as (_ & Hlen & _).
  set (s1 := (drain_updates b (with_status_ status_reset s)).1) in *.
  assert (config s1 = config s ∧ latest_mesh_ s1 = latest_mesh_ s
          ∧ have_new_mesh_ s1 = have_new_mesh_ s
          ∧ shared_places_copy_ s1 = shared_places_copy_ s
          ∧ shared_dsg_ s1 = shared_dsg_ s
          ∧ have_loopclosures_ s1 = have_loopclosures_ s
          ∧ deformation_graph_ s1 =
              deformation_graph_ s
              ++ option_list (processIncrementalMeshGraph <$> deformation_graph_updates_ s)
              ++ option_list (processIncrementalPoseGraph <$> pose_graph_updates_ s))
    as (Hconfig1 & Hmesh1 & Hnew1 & Hcopy1 & Hshared1 & Hflag1 & Hcalls1).
  { unfold s1, drain_updates. cbn.
    destruct (deformation_graph_updates_ s); cbn;
      destruct (pose_graph_updates_ s); cbn;
      rewrite ?app_nil_r, <- ?app_assoc; done. }
  set (s2 := after_loop_closures (loop_closures (shared_dsg_ s)) new s1) in *.
  assert (config s2 = config s ∧ latest_mesh_ s2 = latest_mesh_ s
          ∧ have_new_mesh_ s2 = have_new_mesh_ s
          ∧ shared_places_copy_ s2 = shared_places_copy_ s
          ∧ updated (shared_dsg_ s2) = updated (shared_dsg_ s)
          ∧ graph (shared_dsg_ s2) = graph (shared_dsg_ s)
          ∧ have_loopclosures_ s2 =
              have_loopclosures_ s
              || negb (bool_decide (loop_closures (shared_dsg_ s) = []))
          ∧ (loop_closures (shared_dsg_ s) = [] →
             num_loop_closures_ s2 = num_loop_closures_ s1)
          ∧ deformation_graph_ s2 = deformation_graph_ s ++ pgmo_section_calls s new)
    as (Hconfig2 & Hmesh2 & Hnew2 & Hcopy2 & Hupdated2 & Hgraph2 & Hflag2 & Hnum2
        & Hcalls2).
  { unfold s2, pgmo_section_calls.
    destruct (loop_closures (shared_dsg_ s)) as [|result rest].
    - destruct new; [|done]. cbn [after_loop_closures].
      rewrite Hconfig1, Hmesh1, Hnew1, Hcopy1, Hshared1, Hflag1, Hcalls1.
      by rewrite orb_false_r, !app_nil_r.
    - cbn [after_loop_closures]. cbn.
      rewrite Hconfig1, Hmesh1, Hnew1, Hcopy1, Hshared1, Hcalls1.
      by rewrite orb_true_r, <- !app_assoc. }
  destruct (update_status_keeps (num_loop_closures_ s) s2)
    as (Hconfig3 & Hnum3 & Hshared3 & Hcalls3 & Hflag3).
  fold s3 in Hconfig3, Hnum3, Hshared3, Hcalls3, Hflag3.
  assert (latest_mesh_ s3 = latest_mesh_ s2 ∧ have_new_mesh_ s3 = have_new_mesh_ s2
          ∧ shared_places_copy_ s3 = shared_places_copy_ s2) as (Hmesh3 & Hnew3 & Hcopy3).
  { unfold s3, update_status. by destruct (0 <? num_loop_closures_ s2). }
  split; [by rewrite Hconfig3|]. split; [by rewrite Hmesh3|].
  split; [by rewrite Hnew3|]. split; [by rewrite Hcopy3|].
  split; [by rewrite Hshared3|]. split; [by rewrite Hshared3|].
  split; [by rewrite Hcalls3|].
  unfold optimize_guard. fold s1. rewrite Hconfig3, Hconfig2, Hflag3, Hflag2.
  destruct (bool_decide (loop_closures (shared_dsg_ s) = [])) eqn:Hqueue.
  - apply bool_decide_eq_true in Hqueue. by rewrite (Hnum2 Hqueue).
  - cbn. by rewrite !orb_true_r.
Qed.

Lemma updatePrivateDsg_places (s s' : DsgBackend) :
  shared_places_copy_ s' = shared_places_copy_ s →
  updated (shared_dsg_ s') = updated (shared_dsg_ s) →
  graph (shared_dsg_ s') = graph (shared_dsg_ s) →
  shared_places_copy_ (updatePrivateDsg s') = shared_places_copy_ (updatePrivateDsg s).
Proof.
  intros Hcopy Hupdated Hgraph. unfold updatePrivateDsg. rewrite Hupdated.
  destruct (updated (shared_dsg_ s)); [|done]. rewrite Hgraph.
  destruct (hasLayer PLACES (graph (shared_dsg_ s))); cbn; by rewrite ?Hcopy, ?Hgraph.
Qed.

(** The calls of a turn, in terms of the state it starts from. *)
Lemma runPgmo_trace (b : bool) (s s' : DsgBackend) :
  runPgmo b s = Some s' →
  ∃ new temp,
    mapM (loop_closure_call (graph (shared_dsg_ s))) (loop_closures (shared_dsg_ s))
      = Some new
    ∧ (if optimize_guard b s && add_places_to_deformation_graph_ (config s)
       then temporary_calls (robot_vertex_prefix_ (config s))
              (shared_places_copy_ (updatePrivateDsg s))
       else Some []) = Some temp
    ∧ deformation_graph_ s' =
        deformation_graph_ s ++ calls_since (deformation_graph_ s) s'
    ∧ calls_since (deformation_graph_ s) s' =
        pgmo_section_calls s new
        ++ (if optimize_guard b s
            then temp ++ [optimize_call] ++ mesh_update_calls s
            else if call_update_periodically_ (config s)
                 then mesh_update_calls s else []).
Proof.
  intros Hturn.
  destruct (runPgmo_inv b s s' Hturn) as (new & s_section & Hnew & Hsection & _ & Hsame).
  destruct (pgmo_section_state b s new Hnew)
    as (Hconfig & Hmesh & Hnew_mesh & Hcopy & Hupdated & Hgraph & Hcalls & Hguard).
  destruct (private_dsg_critical_section_trace _ _ _ Hsection) as (temp & Htemp & Htrace).
  rewrite Hguard, Hconfig in Htemp, Htrace.
  rewrite (updatePrivateDsg_places s _ Hcopy Hupdated Hgraph) in Htemp.
  rewrite (mesh_update_calls_same s _ Hmesh Hnew_mesh Hconfig), Hcalls in Htrace.
  exists new, temp. split; [exact Hnew|]. split; [exact Htemp|].
  unfold calls_since. rewrite Hsame, Htrace, <- app_assoc.
  by rewrite drop_app_length.
Qed.

(** The calls of a turn.  A turn of the loop that returns adds to the
    calls made on the solver and takes none back.  What it asks of the
    solver, in order and in full: the mesh-graph batch and the
    pose-graph batch that were pending; one between-factor for each
    candidate of the queue; then, when the guard of the optimisation
    passes, the calls that take the places to the solver (when places
    are to be added), the optimisation and the deformation of a new
    mesh; when the guard does not pass and periodic updates are on, the
    deformation of a new mesh alone; and otherwise nothing more. *)
Theorem turn_call_trace (b : bool) (s s' : DsgBackend) :
  runPgmo b s = Some s' →
  ∃ new temp,
    mapM (loop_closure_call (graph (shared_dsg_ s))) (loop_closures (shared_dsg_ s))
      = Some new
    ∧ (if optimize_guard b s && add_places_to_deformation_graph_ (config s)
       then temporary_calls (robot_vertex_prefix_ (config s))
              (shared_places_copy_ (updatePrivateDsg s))
       else Some []) = Some temp
    ∧ deformation_graph_ s' =
        deformation_graph_ s ++ calls_since (deformation_graph_ s) s'
    ∧ calls_since (deformation_graph_ s) s' =
        pgmo_section_calls s new
        ++ (if optimize_guard b s
            then temp ++ [optimize_call] ++ mesh_update_calls s
            else if call_update_periodically_ (config s)
                 then mesh_update_calls s else []).
Proof.
  intros Hturn.
  destruct (runPgmo_trace b s s' Hturn) as (new & temp & Hnew & Htemp & Hgrows & Htrace).
  exists new, temp. split; [exact Hnew|]. split; [exact Htemp|].
  split; [exact Hgrows|exact Htrace].
Qed.

End TraceProperties.

(** * The loop-closure counter, turn by turn *)

Section CounterTurns.
Context `{Geometry} `{!PgmoTypes} `{!Pgmo} `{!DsgCollaborators}.

Lemma counted_up_closed_form (k : nat) (n : Z) :
  counted_up k n =
  match k with O => n | S _ => to_size_t (n + Z.of_nat k) end.
Proof.
  induction k as [|k IH]; [done|].
  cbn [counted_up]. rewrite IH. unfold size_t_add.
  destruct k as [|k]; [done|]. rewrite to_size_t_add_l. f_equal. lia.
Qed.

(** The counter at the end of the two drain blocks is what the base
    class made of it. *)
Lemma drain_updates_counter (b : bool) (s : DsgBackend) :
  num_loop_closures_ (drain_updates b (with_status_ status_reset s)).1
  = counter_left_by_base s.
Proof.
  unfold drain_updates, counter_left_by_base. cbn.
  destruct (deformation_graph_updates_ s); cbn;
    by destruct (pose_graph_updates_ s).
Qed.

Lemma filter_between_nil (calls : list PgmoCall) :
  between_factors calls = [] → filter (λ c, is_between c = true) calls = [].
Proof.
  induction calls as [|c calls IH]; [done|].
  rewrite between_factors_cons. intros [Hc Hcalls]%app_eq_nil.
  rewrite filter_cons, (IH Hcalls). by destruct c.
Qed.

(** The calls of the candidates are between-factors, one for each
    candidate, between the external keys of its nodes. *)
Lemma loop_closure_calls_factors (g : DynamicSceneGraph)
    (queue : list LoopClosureResult) (new : list PgmoCall) :
  mapM (loop_closure_call g) queue = Some new →
  filter (λ c, is_between c = true) new = new ∧ Forall2 (factor_of g) queue new.
Proof.
  intros Hnew%mapM_Some.
  induction Hnew as [|result c rest new' Hc _ [IH1 IH2]]; [by split|].
  unfold loop_closure_call in Hc.
  destruct (getDynamicNode (from_node result) g) as [from_attrs|] eqn:Hfrom; [|done].
  destruct (getDynamicNode (to_node result) g) as [to_attrs|] eqn:Hto; [|done].
  injection Hc as <-. split.
  - rewrite filter_cons. cbn. by rewrite IH1.
  - constructor; [|exact IH2]. by exists from_attrs, to_attrs.
Qed.

Lemma between_factors_temporary_calls (prefix : N) (places : SceneGraphLayer)
    (temp : list PgmoCall) :
  temporary_calls prefix places = Some temp → between_factors temp = [].
Proof.
  unfold temporary_calls. case_bool_decide; [by intros [= <-]|].
  destruct (mapM _ _) as [edge_calls|] eqn:Hedges; [|done].
  intros [= <-].
  rewrite between_factors_cons, between_factors_app.
  rewrite between_factors_place_node_calls.
  by rewrite (between_factors_mst_edge_calls _ _ _ Hedges).
Qed.

Lemma between_factors_mesh_update_calls (s : DsgBackend) :
  between_factors (mesh_update_calls s) = [].
Proof.
  unfold mesh_update_calls. destruct (latest_mesh_ s); [|done].
  by destruct (_ && _).
Qed.

(** One turn of the loop, whatever the base class does with the counter:
    the turn adds one for each candidate of the queue to what the base
    class left, the between-factors it hands to the solver are those of
    the candidates, in the order of the queue, and the queue is empty
    afterwards. *)
Lemma runPgmo_counter (b : bool) (s s' : DsgBackend) :
  runPgmo b s = Some s' →
  num_loop_closures_ s' =
    counted_up (length (loop_closures (shared_dsg_ s))) (counter_left_by_base s)
  ∧ Forall2 (factor_of (graph (shared_dsg_ s))) (loop_closures (shared_dsg_ s))
      (filter (λ c, is_between c = true) (calls_since (deformation_graph_ s) s'))
  ∧ loop_closures (shared_dsg_ s') = [].
Proof.
  intros Hturn.
  destruct (runPgmo_inv b s s' Hturn) as (new & s_section & Hnew & Hsection & Hrest & _).
  apply private_dsg_critical_section_keeps in Hsection.
  pose proof (keeps_loop_closures_trans _ _ _ Hsection Hrest)
    as (_ & Hnum & _ & Hqueue & _ & _).
  destruct (update_status_keeps (num_loop_closures_ s)
              (after_loop_closures (loop_closures (shared_dsg_ s)) new
                 (drain_updates b (with_status_ status_reset s)).1))
    as (_ & Hnum3 & Hshared3 & _ & _).
  rewrite Hnum, Hqueue, Hnum3, Hshared3, counted_up_closed_form.
  rewrite <- (drain_updates_counter b s).
  assert (shared_dsg_ (drain_updates b (with_status_ status_reset s)).1 = shared_dsg_ s)
    as Hshared1.
  { unfold drain_updates. cbn. destruct (deformation_graph_updates_ s); cbn;
      by destruct (pose_graph_updates_ s). }
  split; [|split].
  - by destruct (loop_closures (shared_dsg_ s)).
  - destruct (runPgmo_trace b s s' Hturn) as (new' & temp & Hnew' & Htemp & _ & Htrace).
    rewrite Hnew in Hnew'. injection Hnew' as <-.
    destruct (loop_closure_calls_factors _ _ _ Hnew) as [Hfilter Hfactors].
    rewrite Htrace. unfold pgmo_section_calls. rewrite !filter_app, Hfilter.
    assert (∀ (f : PoseGraph → PgmoCall) o,
              (∀ msg, is_between (f msg) = false) →
              filter (λ c, is_between c = true) (option_list (f <$> o)) = [])
      as Hbatch.
    { intros f [msg|] Hf; [|done]. change (option_list (f <$> Some msg)) with [f msg].
      rewrite filter_cons. destruct (decide _) as [Hyes|]; [|done].
      by rewrite Hf in Hyes. }
    rewrite !Hbatch by done. cbn [app].
    rewrite filter_between_nil, app_nil_r; [exact Hfactors|].
    destruct (optimize_guard b s).
    + rewrite between_factors_app, between_factors_cons.
      rewrite between_factors_mesh_update_calls.
      destruct (add_places_to_deformation_graph_ (config s)); cbn [andb] in Htemp.
      * by rewrite (between_factors_temporary_calls _ _ _ Htemp).
      * by injection Htemp as <-.
    + destruct (call_update_periodically_ (config s)); [|done].
      apply between_factors_mesh_update_calls.
  - destruct (loop_closures (shared_dsg_ s)) as [|result rest] eqn:Hq.
    + cbn [after_loop_closures]. by rewrite Hshared1.
    + done.
Qed.

(** A candidate one of whose nodes is no agent node of the shared graph
    ends the turn in the throw. *)
Lemma runPgmo_missing_node (b : bool) (s : DsgBackend) (result : LoopClosureResult) :
  result ∈ loop_closures (shared_dsg_ s) →
  getDynamicNode (from_node result) (graph (shared_dsg_ s)) = None
  ∨ getDynamicNode (to_node result) (graph (shared_dsg_ s)) = None →
  runPgmo b s = None.
Proof.
  intros Hin Hmissing. destruct (runPgmo b s) as [s'|] eqn:Hturn; [|done].
  destruct (runPgmo_counter b s s' Hturn) as (_ & Hfactors & _).
  apply list_elem_of_lookup in Hin as [i Hi].
  destruct (Forall2_lookup_l _ _ _ _ _ Hfactors Hi)
    as (c & _ & from_attrs & to_attrs & Hfrom & Hto & _).
  destruct Hmissing as [Hnone|Hnone]; congruence.
Qed.


End CounterTurns.

(** * What a turn leaves pending *)

Section PendingProperties.
Context `{Geometry} `{!PgmoTypes} `{!Pgmo} `{!DsgCollaborators}.

Lemma updateDsgMesh_shared (s : DsgBackend) :
  shared_dsg_ (updateDsgMesh s) = shared_dsg_ s
  ∧ shared_places_copy_ (updateDsgMesh s) = shared_places_copy_ s.
Proof.
  unfold updateDsgMesh. destruct (latest_mesh_ s); [|done].
  destruct (have_new_mesh_ s); cbn [negb]; [|done].
  destruct (PgmoMeshMsgToPolygonMesh _) as [input_mesh stamps].
  by destruct (_ =? 0).
Qed.

Lemma addPlacesToDeformationGraph_inputs (s s' : DsgBackend) :
  addPlacesToDeformationGraph s = Some s' → keeps_inputs s s'.
Proof.
  unfold addPlacesToDeformationGraph. case_bool_decide.
  - intros [= <-]. by repeat split.
  - destruct (mapM _ _) as [edge_calls|]; [|done].
    intros [= <-]. by repeat split.
Qed.

(** The private-dsg section: what it leaves of the inputs. *)
Lemma private_dsg_critical_section_inputs (have_graph_updates : bool)
    (s s' : DsgBackend) :
  private_dsg_critical_section have_graph_updates s = Some s' →
  latest_mesh_ s' = latest_mesh_ s
  ∧ shared_dsg_ s' = shared_dsg_ (updatePrivateDsg s)
  ∧ shared_places_copy_ s' = shared_places_copy_ (updatePrivateDsg s)
  ∧ ((have_graph_updates && optimize_on_lc_ (config s) && have_loopclosures_ s
      || call_update_periodically_ (config s)) = true →
     latest_mesh_ s = None ∨ have_new_mesh_ s' = false)
  ∧ (have_new_mesh_ s = false → have_new_mesh_ s' = false).
Proof.
  unfold private_dsg_critical_section. intros Hsection.
  destruct (updatePrivateDsg_keeps s) as (Hconfig & _ & Hflag & _).
  destruct (updatePrivateDsg_mesh s) as (Hmesh & Hnew & _).
  rewrite Hconfig, Hflag in Hsection.
  destruct (_ && _ && _).
  - destruct (optimize (updatePrivateDsg s)) as [s1|] eqn:Hopt; [|done].
    cbn [mbind option_bind] in Hsection. injection Hsection as <-.
    unfold optimize in Hopt.
    destruct (if add_places_to_deformation_graph_ (config (updatePrivateDsg s))
              then addPlacesToDeformationGraph (updatePrivateDsg s)
              else Some (updatePrivateDsg s)) as [s2|] eqn:Hplaces; [|done].
    cbn [mbind option_bind] in Hopt. cbv zeta in Hopt.
    assert (keeps_inputs (updatePrivateDsg s) s2) as (Hmesh2 & Hnew2 & Hshared2 & Hcopy2).
    { destruct (add_places_to_deformation_graph_ (config (updatePrivateDsg s))).
      - by apply addPlacesToDeformationGraph_inputs.
      - injection Hplaces as <-. by repeat split. }
    destruct (updateDsgMesh_flag (call optimize_call s2)) as [Hsame Hdone].
    destruct (updateDsgMesh_shared (call optimize_call s2)) as [Hshared3 Hcopy3].
    pose proof (updateDsgMesh_not_new (call optimize_call s2)) as Hskip.
    set (s4 := updateDsgMesh (call optimize_call s2)) in *.
    injection Hopt as <-.
    cbn [latest_mesh_ have_new_mesh_ shared_dsg_ shared_places_copy_ private_dsg_
         callUpdateFunctions with_private_dsg_ call with_deformation_graph_]
      in Hsame, Hdone, Hshared3, Hcopy3, Hskip |- *.
    split; [by rewrite Hsame, Hmesh2, Hmesh|].
    split; [by rewrite Hshared3, Hshared2|].
    split; [by rewrite Hcopy3, Hcopy2|]. split.
    + intros _. destruct Hdone as [Hnone|Hold]; [left|by right].
      by rewrite <- Hmesh, <- Hmesh2.
    + intros Hold. rewrite Hskip; cbn; [by rewrite Hnew2, Hnew|].
      right. by rewrite Hnew2, Hnew.
  - destruct (call_update_periodically_ (config s));
      cbn [mbind option_bind] in Hsection; injection Hsection as <-.
    + destruct (updateDsgMesh_flag (updatePrivateDsg s)) as [Hsame Hdone].
      destruct (updateDsgMesh_shared (updatePrivateDsg s)) as [Hshared3 Hcopy3].
      pose proof (updateDsgMesh_not_new (updatePrivateDsg s)) as Hskip.
      set (s4 := updateDsgMesh (updatePrivateDsg s)) in *.
      cbn [latest_mesh_ have_new_mesh_ shared_dsg_ shared_places_copy_ private_dsg_
           callUpdateFunctions with_private_dsg_] in Hsame, Hdone |- *.
      split; [by rewrite Hsame|]. split; [done|]. split; [done|]. split.
      * intros _. destruct Hdone as [Hnone|Hold]; [left|by right].
        by rewrite <- Hmesh.
      * intros Hold. rewrite Hskip; [by rewrite Hnew|]. right. by rewrite Hnew.
    + cbn. split; [done|]. split; [done|]. split; [done|]. split; [done|].
      intros Hold. by rewrite Hnew.
Qed.

Lemma updatePrivateDsg_shared (s : DsgBackend) :
  updated (shared_dsg_ (updatePrivateDsg s)) = false
  ∧ graph (shared_dsg_ (updatePrivateDsg s)) = graph (shared_dsg_ s)
  ∧ latest_places (shared_dsg_ (updatePrivateDsg s)) = latest_places (shared_dsg_ s)
  ∧ loop_closures (shared_dsg_ (updatePrivateDsg s)) = loop_closures (shared_dsg_ s).
Proof.
  unfold updatePrivateDsg. destruct (updated (shared_dsg_ s)) eqn:Hupdated; [|done].
  by destruct (hasLayer PLACES (graph (shared_dsg_ s))).
Qed.

(** What a turn leaves of what was pending. *)
Lemma runPgmo_leftovers (b : bool) (s s' : DsgBackend) :
  runPgmo b s = Some s' →
  deformation_graph_updates_ s' = None
  ∧ pose_graph_updates_ s' = None
  ∧ loop_closures (shared_dsg_ s') = []
  ∧ updated (shared_dsg_ s') = false
  ∧ graph (shared_dsg_ s') = graph (shared_dsg_ s)
  ∧ latest_places (shared_dsg_ s') = latest_places (shared_dsg_ s)
  ∧ shared_places_copy_ s' = shared_places_copy_ (updatePrivateDsg s)
  ∧ latest_mesh_ s' = latest_mesh_ s
  ∧ ((optimize_guard b s || call_update_periodically_ (config s)) = true →
     latest_mesh_ s' = None ∨ have_new_mesh_ s' = false)
  ∧ (have_new_mesh_ s = false → have_new_mesh_ s' = false).
Proof.
  intros Hturn.
  destruct (runPgmo_stages b s s' Hturn)
    as (new & s_section & s_logged & Hnew & Hsection & Hlogged & Hbooks & _ & Hinputs).
  destruct (pgmo_section_state b s new Hnew)
    as (Hconfig & Hmesh & Hnew_mesh & Hcopy & Hupdated & Hgraph & _ & Hguard).
  destruct (private_dsg_critical_section_inputs _ _ _ Hsection)
    as (Hmesh4 & Hshared4 & Hcopy4 & Hdone4 & Hold4).
  destruct (private_dsg_critical_section_bookkeeping _ _ _ Hsection)
    as (_ & _ & _ & Hpending_mesh4 & Hpending_pose4 & _).
  destruct Hinputs as (Hmesh5 & Hnew5 & Hshared5 & Hcopy5).
  destruct Hbooks as (_ & _ & _ & Hpending_mesh & Hpending_pose & _).
  set (s3 := update_status (num_loop_closures_ s)
               (after_loop_closures (loop_closures (shared_dsg_ s)) new
                  (drain_updates b (with_status_ status_reset s)).1)) in *.
  destruct (updatePrivateDsg_shared s3) as (Hflag3 & Hgraph3 & Hlatest3 & Hqueue3).
  assert (deformation_graph_updates_ s3 = None ∧ pose_graph_updates_ s3 = None
          ∧ loop_closures (shared_dsg_ s3) = []
          ∧ latest_places (shared_dsg_ s3) = latest_places (shared_dsg_ s))
    as (Hpending_mesh3 & Hpending_pose3 & Hempty3 & Hplaces3).
  { destruct (drain_updates_calls b (with_status_ status_reset s))
      as (_ & Hnone_mesh & Hnone_pose).
    destruct (drain_updates_members b (with_status_ status_reset s))
      as (_ & Hshared1 & _).
    cbn [shared_dsg_ with_status_] in Hshared1.
    unfold s3, update_status.
    destruct (loop_closures (shared_dsg_ s)) as [|result rest] eqn:Hq;
      cbn [after_loop_closures];
      destruct (0 <? _); cbn; rewrite ?Hnone_mesh, ?Hnone_pose, ?Hshared1, ?Hq; done. }
  assert (s_logged = s_section ∨ s_logged = logStatus s_section) as Hcases.
  { rewrite Hlogged. destruct (_ && _); [by right|by left]. }
  assert (deformation_graph_updates_ s_logged = deformation_graph_updates_ s_section
          ∧ pose_graph_updates_ s_logged = pose_graph_updates_ s_section) as [Hm Hp].
  { by destruct Hcases as [->| ->]. }
  split. { by rewrite Hpending_mesh, Hm, Hpending_mesh4. }
  split. { by rewrite Hpending_pose, Hp, Hpending_pose4. }
  split. { by rewrite Hshared5, Hshared4, Hqueue3. }
  split. { by rewrite Hshared5, Hshared4. }
  split. { by rewrite Hshared5, Hshared4, Hgraph3. }
  split. { by rewrite Hshared5, Hshared4, Hlatest3. }
  split. { rewrite Hcopy5, Hcopy4. by apply updatePrivateDsg_places. }
  split. { by rewrite Hmesh5, Hmesh4. }
  split.
  - intros Hran. rewrite Hguard, Hconfig in Hdone4.
    destruct (Hdone4 Hran) as [Hnone|Hold]; [left|right].
    + by rewrite Hmesh5, Hmesh4.
    + by rewrite Hnew5.
  - intros Hold. rewrite Hnew5. apply Hold4. by rewrite Hnew_mesh.
Qed.

(** A turn uses up what was pending.  After a turn of the loop that
    returns, both accumulators are empty, the loop-closure queue is
    empty and the flag of the shared state is cleared, while the graph
    and the active places of the shared state are as the front end left
    them; the latest mesh is no longer new when the turn optimised or
    refreshed.  So a second turn right after, in which the has-updates
    flag reads false, asks nothing of the solver. *)
Theorem turn_uses_up_what_was_pending (b : bool) (s s' : DsgBackend) :
  runPgmo b s = Some s' →
  deformation_graph_updates_ s' = None
  ∧ pose_graph_updates_ s' = None
  ∧ loop_closures (shared_dsg_ s') = []
  ∧ updated (shared_dsg_ s') = false
  ∧ graph (shared_dsg_ s') = graph (shared_dsg_ s)
  ∧ latest_places (shared_dsg_ s') = latest_places (shared_dsg_ s)
  ∧ ((optimize_guard b s || call_update_periodically_ (config s)) = true →
     latest_mesh_ s' = None ∨ have_new_mesh_ s' = false)
  ∧ ∀ s'', runPgmo false s' = Some s'' →
      deformation_graph_ s'' = deformation_graph_ s'.
Proof.
  intros Hturn.
  destruct (runPgmo_leftovers b s s' Hturn)
    as (Hmesh & Hpose & Hqueue & Hflag & Hgraph & Hplaces & _ & _ & Hdone & _).
  repeat (split; [done|]).
  intros s'' Hagain.
  destruct (runPgmo_trace false s' s'' Hagain)
    as (new & temp & Hnew & _ & Hgrows & Htrace).
  rewrite Hqueue in Hnew. injection Hnew as <-.
  assert (optimize_guard false s' = false) as Hguard.
  { unfold optimize_guard. rewrite drain_updates_flag. unfold flag_after_drain.
    cbn [deformation_graph_updates_ pose_graph_updates_ with_status_].
    by rewrite Hmesh, Hpose. }
  assert (config s' = config s) as Hconfig.
  { by destruct (runPgmo_books b s s' Hturn) as (? & _ & ? & _). }
  assert (mesh_update_calls s' = [] ∨ call_update_periodically_ (config s') = false)
    as Hquiet.
  { rewrite Hconfig. destruct (call_update_periodically_ (config s)) eqn:Hperiodic;
      [left|by right].
    unfold mesh_update_calls.
    destruct Hdone as [->|Hold]; [by rewrite orb_true_r|done|].
    rewrite Hold. by destruct (latest_mesh_ s'). }
  unfold pgmo_section_calls in Htrace. rewrite Hmesh, Hpose, Hguard in Htrace.
  cbn [fmap option_fmap option_map option_list app] in Htrace.
  assert (calls_since (deformation_graph_ s') s'' = []) as Hnone.
  { rewrite Htrace. destruct Hquiet as [-> | ->]; [|done].
    by destruct (call_update_periodically_ (config s')). }
  by rewrite Hgrows, Hnone, app_nil_r.
Qed.

End PendingProperties.

(** * Turns that return *)

Section WellFormedProperties.
Context `{Geometry} `{!PgmoTypes} `{!Pgmo} `{!DsgCollaborators}.

Lemma insertEdge_layers (a b : NodeId) (g : DynamicSceneGraph) :
  layer_ids (insertEdge a b g) = layer_ids g.
Proof.
  unfold insertEdge. destruct (graph_nodes g !! a) as [sn|]; [|done].
  destruct (graph_nodes g !! b) as [tn|]; [|done].
  destruct (bool_decide _); [|done]. by destruct (parent_ tn).
Qed.

Lemma insert_room_edges_layers (b : NodeId) (rooms : list (NodeId * SceneGraphNode))
    (g : DynamicSceneGraph) :
  layer_ids (insert_room_edges b rooms g) = layer_ids g.
Proof.
  revert g. induction rooms as [|[r n] rooms IH]; intros g; [done|].
  cbn [insert_room_edges foldl fst]. fold (insert_room_edges b rooms (insertEdge b r g)).
  by rewrite IH, insertEdge_layers.
Qed.

(** The building step returns on any graph with a rooms layer, and keeps
    the layers. *)
Lemma updateBuildingNode_graph_layers (building_color : NodeColor)
    (g : DynamicSceneGraph) :
  hasLayer ROOMS g = true →
  ∃ g', updateBuildingNode_graph building_color g = Some g'
        ∧ layer_ids g' = layer_ids g.
Proof.
  intros Hrooms. unfold updateBuildingNode_graph.
  rewrite (getLayer_Some ROOMS g Hrooms). cbn [mbind option_bind]. cbv zeta.
  destruct (_ =? 0).
  - eexists. split; [reflexivity|]. by destruct (hasNode building_node_id g).
  - eexists. split; [reflexivity|]. rewrite insert_room_edges_layers.
    destruct (hasNode building_node_id g); cbn [negb]; [done|].
    unfold emplaceNode. by destruct (_ && _).
Qed.

Lemma callUpdateFunctions_layers (v1 v2 : Values) (s : DsgBackend) :
  collaborators_keep_layers →
  layer_ids (graph (private_dsg_ (callUpdateFunctions v1 v2 s)))
  = layer_ids (graph (private_dsg_ s)).
Proof.
  intros (_ & Hagents & Hobjects & Hplaces & Hrooms & Hbuildings & _).
  unfold callUpdateFunctions, dsg_update_funcs_. cbn.
  by rewrite Hbuildings, Hrooms, Hplaces, Hobjects, Hagents.
Qed.

Lemma updateDsgMesh_layers (s : DsgBackend) :
  layer_ids (graph (private_dsg_ (updateDsgMesh s))) = layer_ids (graph (private_dsg_ s)).
Proof.
  unfold updateDsgMesh. destruct (latest_mesh_ s); [|done].
  destruct (have_new_mesh_ s); cbn [negb]; [|done].
  destruct (PgmoMeshMsgToPolygonMesh _) as [input_mesh stamps].
  by destruct (_ =? 0).
Qed.

Lemma updatePrivateDsg_layers (s : DsgBackend) :
  collaborators_keep_layers →
  layer_ids (graph (private_dsg_ (updatePrivateDsg s))) = layer_ids (graph (private_dsg_ s)).
Proof.
  intros (Hmerge & _). unfold updatePrivateDsg.
  destruct (updated (shared_dsg_ s)); [|done].
  destruct (hasLayer PLACES (graph (shared_dsg_ s))); cbn; by rewrite Hmerge.
Qed.

Lemma private_dsg_critical_section_returns (have_graph_updates : bool) (s : DsgBackend) :
  collaborators_keep_layers →
  spanning_tree_in_layer →
  ∃ s', private_dsg_critical_section have_graph_updates s = Some s'
        ∧ layer_ids (graph (private_dsg_ s')) = layer_ids (graph (private_dsg_ s)).
Proof.
  intros Hkeep Htree. unfold private_dsg_critical_section.
  pose proof (updatePrivateDsg_layers s Hkeep) as Hlayers.
  set (s1 := updatePrivateDsg s) in *.
  destruct (_ && _ && _).
  - unfold optimize.
    assert (∃ s2, (if add_places_to_deformation_graph_ (config s1)
                   then addPlacesToDeformationGraph s1 else Some s1) = Some s2
                  ∧ private_dsg_ s2 = private_dsg_ s1) as (s2 & -> & Hprivate).
    { destruct (add_places_to_deformation_graph_ (config s1)); [|by exists s1].
      destruct (addPlacesToDeformationGraph_total s1 (Htree _)) as [s2 Hs2].
      exists s2. split; [done|].
      unfold addPlacesToDeformationGraph in Hs2. case_bool_decide.
      - by injection Hs2 as <-.
      - destruct (mapM _ _); [|done]. by injection Hs2 as <-. }
    cbn [mbind option_bind]. eexists. split; [reflexivity|].
    cbn [private_dsg_ with_private_dsg_ graph set_updated].
    rewrite (callUpdateFunctions_layers _ _ _ Hkeep), updateDsgMesh_layers.
    cbn. by rewrite Hprivate.
  - destruct (call_update_periodically_ (config s1)); cbn [mbind option_bind];
      eexists; (split; [reflexivity|]);
      cbn [private_dsg_ with_private_dsg_ graph set_updated]; [|done].
    by rewrite (callUpdateFunctions_layers _ _ _ Hkeep), updateDsgMesh_layers.
Qed.

(** A turn returns on well-formed graphs.  When every candidate of the
    queue names dynamic nodes of the shared graph, the private graph has
    a rooms and a places layer, the collaborators that write the graph
    keep its layers and the spanning tree of a layer runs between its
    nodes, a turn of the loop returns, whatever the has-updates flag
    reads, and leaves a private graph with the same layers. *)
Theorem turn_returns_on_well_formed_graphs (b : bool) (s : DsgBackend) :
  collaborators_keep_layers →
  spanning_tree_in_layer →
  candidates_resolve (shared_dsg_ s) →
  hasLayer ROOMS (graph (private_dsg_ s)) = true →
  hasLayer PLACES (graph (private_dsg_ s)) = true →
  ∃ s', runPgmo b s = Some s'
        ∧ layer_ids (graph (private_dsg_ s')) = layer_ids (graph (private_dsg_ s)).
Proof.
  intros Hkeep Htree Hqueue Hrooms Hplaces.
  unfold runPgmo, pgmo_critical_section.
  destruct (drain_updates_members b (with_status_ status_reset s))
    as (Hconfig1 & Hshared1 & _).
  assert (private_dsg_ (drain_updates b (with_status_ status_reset s)).1 = private_dsg_ s)
    as Hprivate1.
  { unfold drain_updates. cbn.
    destruct (deformation_graph_updates_ s); cbn;
      by destruct (pose_graph_updates_ s). }
  destruct (drain_updates b (with_status_ status_reset s)) as [s1 hgu].
  cbn [fst shared_dsg_ config with_status_] in Hconfig1, Hshared1, Hprivate1.
  rewrite addInternalLCDToDeformationGraph_closed_form, Hshared1.
  destruct (mapM (loop_closure_call (graph (shared_dsg_ s))) (loop_closures (shared_dsg_ s)))
    as [new|] eqn:Hnew.
  2:{ apply mapM_None, Exists_exists in Hnew as (result & Hin & Hnone).
      unfold candidates_resolve in Hqueue. rewrite Forall_forall in Hqueue.
      destruct (Hqueue result Hin) as [[from Hfrom] [to Hto]].
      unfold loop_closure_call in Hnone. by rewrite Hfrom, Hto in Hnone. }
  cbn [mbind option_bind num_loop_closures_ with_status_].
  set (s3 := update_status (num_loop_closures_ s)
               (after_loop_closures (loop_closures (shared_dsg_ s)) new s1)).
  assert (private_dsg_ s3 = private_dsg_ s) as Hprivate3.
  { unfold s3, update_status.
    destruct (loop_closures (shared_dsg_ s)); cbn [after_loop_closures];
      by destruct (0 <? _). }
  destruct (private_dsg_critical_section_returns hgu s3 Hkeep Htree)
    as (s4 & -> & Hlayers4).
  rewrite Hprivate3 in Hlayers4.
  cbn [mbind option_bind].
  set (s5 := if hgu && pgmo_log_ (config s4) then logStatus s4 else s4).
  assert (private_dsg_ s5 = private_dsg_ s4) as Hprivate5.
  { unfold s5. by destruct (hgu && _). }
  assert (Hlayer : ∀ l, hasLayer l (graph (private_dsg_ s5))
                        = hasLayer l (graph (private_dsg_ s))).
  { intros l. unfold hasLayer. by rewrite Hprivate5, Hlayers4. }
  destruct Hkeep as (_ & _ & _ & _ & _ & _ & Hfind).
  destruct (updateRoomsNodes_total s5) as [s6 Hs6].
  { by rewrite Hlayer. }
  { by rewrite Hlayer. }
  { intros active. unfold hasLayer. rewrite Hfind, Hprivate5, Hlayers4. exact Hplaces. }
  rewrite Hs6. cbn [mbind option_bind].
  assert (layer_ids (graph (private_dsg_ s6)) = layer_ids (graph (private_dsg_ s)))
    as Hlayers6.
  { unfold updateRoomsNodes in Hs6. destruct (room_finder_ (config s5)).
    - destruct (getNodesForRoomDetection _ s5) as [active|]; [|done].
      cbn [mbind option_bind] in Hs6. unfold storeUnlabeledPlaces in Hs6.
      destruct (getLayer PLACES _) as [places|]; [|done].
      injection Hs6 as <-. cbn. by rewrite Hfind, Hprivate5.
    - injection Hs6 as <-. by rewrite Hprivate5. }
  unfold updateBuildingNode.
  assert (hasLayer ROOMS (graph (private_dsg_ s6)) = true) as Hrooms6.
  { unfold hasLayer in *. by rewrite Hlayers6. }
  destruct (updateBuildingNode_graph_layers (building_color_ (config s6))
              (graph (private_dsg_ s6)) Hrooms6) as (g & -> & Hg).
  cbn [mbind option_bind]. eexists. split; [reflexivity|]. cbn.
  by rewrite Hg.
Qed.

End WellFormedProperties.

(** * When the graph steps throw *)

Section MissingLayers.
Context `{Geometry} `{!PgmoTypes} `{!Pgmo} `{!DsgCollaborators}.

Lemma getLayer_None (l : LayerId) (g : DynamicSceneGraph) :
  getLayer l g = None ↔ hasLayer l g = false.
Proof. unfold getLayer. by destruct (hasLayer l g). Qed.

(** What makes the graph steps throw.  The building step throws exactly
    when the private graph has no rooms layer, and the batch finder
    fails its check exactly then.  Room detection does nothing without a
    room finder; with one it throws exactly when the private graph has no
    rooms layer or no places layer, or has no places layer left once the
    room finder has run. *)
Theorem graph_steps_throw_on_missing_layers (s : DsgBackend) (color : NodeColor)
    (g : DynamicSceneGraph) :
  (updateBuildingNode s = None ↔ hasLayer ROOMS (graph (private_dsg_ s)) = false)
  ∧ (findBuildings color g = None ↔ hasLayer ROOMS g = false)
  ∧ (room_finder_ (config s) = false → updateRoomsNodes s = Some s)
  ∧ (room_finder_ (config s) = true →
     (updateRoomsNodes s = None ↔
      hasLayer ROOMS (graph (private_dsg_ s)) = false
      ∨ hasLayer PLACES (graph (private_dsg_ s)) = false
      ∨ ∃ active,
          getNodesForRoomDetection (latest_places (private_dsg_ s)) s = Some active
          ∧ hasLayer PLACES (graph (findRooms (private_dsg_ s) active)) = false)).
Proof.
  split; [|split; [|split]].
  - unfold updateBuildingNode. split.
    + intros Hnone. destruct (hasLayer ROOMS (graph (private_dsg_ s))) eqn:Hrooms; [|done].
      destruct (updateBuildingNode_graph_layers (building_color_ (config s))
                  (graph (private_dsg_ s)) Hrooms) as (g' & Hg' & _).
      by rewrite Hg' in Hnone.
    + intros Hrooms. unfold updateBuildingNode_graph.
      by rewrite (proj2 (getLayer_None ROOMS _) Hrooms).
  - unfold findBuildings. destruct (hasLayer ROOMS g) eqn:Hrooms; cbn [negb]; [|done].
    by rewrite (getLayer_Some ROOMS g Hrooms).
  - intros Hoff. unfold updateRoomsNodes. by rewrite Hoff.
  - intros Hon. unfold updateRoomsNodes. rewrite Hon.
    unfold getNodesForRoomDetection, storeUnlabeledPlaces, getLayer.
    destruct (hasLayer ROOMS (graph (private_dsg_ s))) eqn:Hrooms;
      cbn [mbind option_bind]; [|split; [by left|done]].
    destruct (hasLayer PLACES (graph (private_dsg_ s))) eqn:Hplaces;
      cbn [mbind option_bind]; [|split; [by right; left|done]].
    cbn [private_dsg_ with_private_dsg_].
    match goal with |- context [findRooms _ ?a] => set (active := a) end.
    destruct (hasLayer PLACES (graph (findRooms (private_dsg_ s) active))) eqn:Hafter;
      cbn [mbind option_bind].
    + split; [done|]. intros [?|[?|(active' & [= <-] & Hnone)]]; try done.
      fold active in Hnone. by rewrite Hafter in Hnone.
    + split; [|done]. intros _. right. right. by exists active.
Qed.

End MissingLayers.

(** * More examples *)

Section StatusExamples.
#[local] Existing Instance Demo.geometry.
#[local] Existing Instance Demo.pgmo_types.
#[local] Existing Instance Demo.pgmo.
#[local] Existing Instance Demo.collaborators.

(** The turn on the busy backend logs the loop closure of the message,
    then the candidate of the queue. *)
Lemma turn_logs_loop_closures_witness :
  ∃ s' : DsgBackend,
    runPgmo false Scenes.busy_backend = Some s'
    ∧ loop_closures_ s' =
        [ {| lc_from := NodeSymbol 97 4; lc_to := NodeSymbol 97 0;
             lc_to_T_from := Demo.measured (Demo.xyz 0 0 1); lc_dsg := false |};
          {| lc_from := Demo.agent 0; lc_to := Demo.agent 1;
             lc_to_T_from := Demo.located (Demo.xyz 0 1 0); lc_dsg := true |} ].
Proof.
  assert (is_Some (runPgmo false Scenes.busy_backend)) as [s' Hturn].
  { apply (bool_decide_unpack _). vm_compute. exact I. }
  exists s'. split; [exact Hturn|].
  etransitivity; [exact (turn_logs_loop_closures false Scenes.busy_backend s' Hturn)|].
  vm_compute. reflexivity.
Defined.

(** The status of that turn: one mesh-graph edge, three edges in all,
    one loop closure, and one row in the status file. *)
Lemma turn_status_witness :
  ∃ s' : DsgBackend,
    runPgmo false Scenes.busy_backend = Some s'
    ∧ new_graph_factors_ (status_ s') = 1
    ∧ new_factors_ (status_ s') = 3
    ∧ status_file_ s' = [status_ s'].
Proof.
  assert (is_Some (runPgmo false Scenes.busy_backend)) as [s' Hturn].
  { apply (bool_decide_unpack _). vm_compute. exact I. }
  exists s'. split; [exact Hturn|].
  destruct (turn_status false Scenes.busy_backend s' Hturn)
    as (new & _ & Hgraph & Hfactors & _ & _ & _ & _ & _ & Hfile).
  split; [exact Hgraph|]. split; [exact Hfactors|]. exact Hfile.
Defined.

(** A run: the front end queues a candidate, a message arrives, the loop
    turns twice. *)
Lemma run_keeps_its_books_witness :
  ∃ (s : DsgBackend) (drained : list LoopClosureResult),
    run [ frontend (push_loop_closure Demo.candidate);
          pose_graph_incremental Scenes.msg_with_loop_closure;
          backend_turn false; backend_turn false ]
      (Demo.backend Demo.settings Demo.graph_with_room) = Some (s, drained)
    ∧ drained = [Demo.candidate]
    ∧ have_loopclosures_ s = true
    ∧ config s = Demo.settings.
Proof.
  assert (snd <$> run [ frontend (push_loop_closure Demo.candidate);
                        pose_graph_incremental Scenes.msg_with_loop_closure;
                        backend_turn false; backend_turn false ]
                    (Demo.backend Demo.settings Demo.graph_with_room)
          = Some [Demo.candidate])
    as ([s drained] & Hrun & Hdrained)%fmap_Some by (vm_compute; reflexivity).
  cbn [snd] in Hdrained.
  exists s, drained. split; [exact Hrun|]. split; [by symmetry|].
  destruct (run_keeps_its_books _ _ s drained Hrun) as (Hconfig & _ & _ & Hflag).
  split; [|exact Hconfig].
  apply Hflag. right. rewrite <- Hdrained. discriminate.
Defined.

End StatusExamples.

Section MoreBuildingsExamples.
#[local] Existing Instance Demo.geometry.
#[local] Existing Instance Demo.pgmo_types.
#[local] Existing Instance Demo.pgmo.
#[local] Existing Instance Demo.collaborators.

Lemma graph_with_building_hierarchy (b : NodeId) :
  b = building_node_id ∨ b = building_id →
  building_hierarchy b (Scenes.graph_with_building b).
Proof.
  intros [-> | ->]; (apply building_hierarchy_checked; [reflexivity|reflexivity|]);
    apply (bool_decide_unpack _); vm_compute; exact I.
Qed.

Lemma two_rooms_with_building_hierarchy :
  building_hierarchy building_node_id
    (Scenes.two_rooms_with_building building_node_id).
Proof.
  apply building_hierarchy_checked; [reflexivity|reflexivity|].
  apply (bool_decide_unpack _). vm_compute. exact I.
Qed.

(** The building step on a graph with rooms at (1, 0, 0) and (3, 4, 0)
    whose building node is green, named by hand and out of place: the
    node moves to the mean of the two rooms and keeps its colour and its
    name. *)
Lemma building_node_is_only_moved_witness :
  ∃ (g' : DynamicSceneGraph) (bn' : SceneGraphNode),
    updateBuildingNode_graph (building_color_ Demo.settings)
      (Scenes.two_rooms_with_building building_node_id) = Some g'
    ∧ graph_nodes g' !! building_node_id = Some bn'
    ∧ color (attributes bn') = {| red := 0; green := 255; blue := 0 |}
    ∧ name (attributes bn') = to_string building_node_id
    ∧ position (attributes bn')
      = Demo.vec_quotient
          (Demo.vec_sum (Demo.vec_sum (Demo.xyz 0 0 0) (Demo.xyz 1 0 0))
             (Demo.xyz 3 4 0)) 2.
Proof.
  assert (hasNode building_node_id
            <$> updateBuildingNode_graph (building_color_ Demo.settings)
                  (Scenes.two_rooms_with_building building_node_id)
          = Some true)
    as (g' & Hstep & Hnode)%fmap_Some by (vm_compute; reflexivity).
  symmetry in Hnode. apply hasNode_true in Hnode as [bn' Hbn'].
  exists g', bn'. split; [exact Hstep|]. split; [exact Hbn'|].
  destruct (building_node_is_only_moved (building_color_ Demo.settings)
              (Scenes.two_rooms_with_building building_node_id) g' bn' eq_refl
              two_rooms_with_building_hierarchy Hstep Hbn')
    as (rooms & Hrooms & _ & Hlooks).
  assert (positions_of
            <$> getLayer ROOMS (Scenes.two_rooms_with_building building_node_id)
          = Some [Demo.xyz 1 0 0; Demo.xyz 3 4 0])
    as Hpositions by (vm_compute; reflexivity).
  rewrite Hrooms in Hpositions. injection Hpositions as Hpositions.
  rewrite Hlooks, Hpositions. repeat split; vm_compute; reflexivity.
Defined.

(** The batch finder on a graph that has its building node, green and
    out of place: the node stays where it is, and a second pass changes
    nothing. *)
Lemma findBuildings_keeps_the_building_witness :
  ∃ (g' : DynamicSceneGraph) (bn' : SceneGraphNode),
    findBuildings (building_color_ Demo.settings)
      (Scenes.graph_with_building building_id) = Some g'
    ∧ graph_nodes g' !! building_id = Some bn'
    ∧ position (attributes bn') = Demo.xyz 9 9 9
    ∧ findBuildings {| red := 1; green := 2; blue := 3 |} g' = Some g'.
Proof.
  assert (is_Some (findBuildings (building_color_ Demo.settings)
                     (Scenes.graph_with_building building_id))) as [g' Hfind].
  { apply (bool_decide_unpack _). vm_compute. exact I. }
  destruct (findBuildings_keeps_the_building (building_color_ Demo.settings)
              {| red := 1; green := 2; blue := 3 |}
              (Scenes.graph_with_building building_id) g' eq_refl
              (graph_with_building_hierarchy building_id (or_intror eq_refl)) Hfind)
    as [Hkept Hagain].
  destruct (Hkept _ (lookup_insert_eq _ _ _)) as (bn' & Hbn' & Hlooks).
  exists g', bn'. split; [exact Hfind|]. split; [exact Hbn'|].
  split; [by rewrite Hlooks|exact Hagain].
Defined.

End MoreBuildingsExamples.

Section TraceExamples.
#[local] Existing Instance Demo.geometry.
#[local] Existing Instance Demo.pgmo_types.
#[local] Existing Instance Demo.pgmo.
#[local] Existing Instance Demo.collaborators.

(** The calls of the turn on the busy backend: the two batches, the
    candidate, the places, the optimisation, the mesh. *)
Lemma turn_call_trace_witness :
  ∃ s' : DsgBackend,
    runPgmo false Scenes.busy_backend = Some s'
    ∧ calls_since (deformation_graph_ Scenes.busy_backend) s' =
        [ processIncrementalMeshGraph Demo.msg3;
          processIncrementalPoseGraph Scenes.msg_with_loop_closure;
          addNewBetween 1000 1001 (Demo.located (Demo.xyz 0 1 0)) ]
        ++ Demo.expected_place_calls
        ++ [ optimize_call;
             deformMesh_call [Demo.xyz 0 0 0; Demo.xyz 1 1 1] [0; 0] 115 4 10 ].
Proof.
  assert (is_Some (runPgmo false Scenes.busy_backend)) as [s' Hturn].
  { apply (bool_decide_unpack _). vm_compute. exact I. }
  exists s'. split; [exact Hturn|].
  destruct (turn_call_trace false Scenes.busy_backend s' Hturn)
    as (new & temp & Hnew & Htemp & _ & Htrace).
  vm_compute in Hnew. injection Hnew as <-.
  vm_compute in Htemp. injection Htemp as <-.
  etransitivity; [exact Htrace|]. vm_compute. reflexivity.
Defined.

(** After the turn on the busy backend nothing is pending, and the next
    turn asks nothing of the solver. *)
Lemma turn_uses_up_what_was_pending_witness :
  ∃ s' : DsgBackend,
    runPgmo false Scenes.busy_backend = Some s'
    ∧ pose_graph_updates_ s' = None
    ∧ loop_closures (shared_dsg_ s') = []
    ∧ ∀ s'', runPgmo false s' = Some s'' →
        deformation_graph_ s'' = deformation_graph_ s'.
Proof.
  assert (is_Some (runPgmo false Scenes.busy_backend)) as [s' Hturn].
  { apply (bool_decide_unpack _). vm_compute. exact I. }
  exists s'. split; [exact Hturn|].
  destruct (turn_uses_up_what_was_pending false Scenes.busy_backend s' Hturn)
    as (_ & Hpose & Hqueue & _ & _ & _ & _ & Hquiet).
  split; [exact Hpose|]. split; [exact Hqueue|exact Hquiet].
Defined.

End TraceExamples.

Section WellFormedExamples.
#[local] Existing Instance Demo.geometry.
#[local] Existing Instance Demo.pgmo_types.
#[local] Existing Instance Demo.pgmo.
#[local] Existing Instance Demo.collaborators.

Lemma demo_collaborators_keep_layers : collaborators_keep_layers.
Proof. by repeat split. Qed.

Lemma demo_spanning_tree_in_layer : spanning_tree_in_layer.
Proof.
  intros places. apply Forall_forall. intros edge Hedge.
  cbn in Hedge. unfold Demo.chain in Hedge. cbn [mst_edges] in Hedge.
  apply list_elem_of_fmap in Hedge as ([a b] & -> & Hpair). cbn.
  assert (a ∈ (nodes_in_order (layer_nodes places)).*1
          ∧ b ∈ (nodes_in_order (layer_nodes places)).*1) as [Ha Hb].
  { split.
    - by apply elem_of_zip_l in Hpair.
    - apply elem_of_zip_r in Hpair.
      destruct ((nodes_in_order (layer_nodes places)).*1); [done|]. by right. }
  rewrite nodes_in_order_keys, sorted_keys_elem_of in Ha, Hb. done.
Qed.

(** The turn on the busy backend returns. *)
Lemma turn_returns_on_well_formed_graphs_witness :
  candidates_resolve (shared_dsg_ Scenes.busy_backend)
  ∧ ∃ s' : DsgBackend,
      runPgmo true Scenes.busy_backend = Some s'
      ∧ layer_ids (graph (private_dsg_ s')) = Demo.all_layers.
Proof.
  assert (candidates_resolve (shared_dsg_ Scenes.busy_backend)) as Hqueue.
  { repeat constructor; apply (bool_decide_unpack _); vm_compute; exact I. }
  split; [exact Hqueue|].
  exact (turn_returns_on_well_formed_graphs true Scenes.busy_backend
           demo_collaborators_keep_layers demo_spanning_tree_in_layer Hqueue
           eq_refl eq_refl).
Defined.

End WellFormedExamples.

Section CounterTurnsExamples.
#[local] Existing Instance Demo.geometry.
#[local] Existing Instance Demo.pgmo_types.
#[local] Existing Instance Demo.pgmo.
#[local] Existing Instance Demo.collaborators.



End CounterTurnsExamples.
